(** * Netpus: per-process network attribution and its persistence

    A shallow embedding of the sampling engine (package [monitor]: the
    Windows counter source and the monitor loop), of the storage layer
    (package [database]), of the configuration (package [utils]), of the
    autostart entry (package [autostart]) and of the housekeeping done by
    the application (app.go), followed by the properties of the engine that
    the specification states and by further properties of the code.

    Conventions of the embedding:
    - Go's [int64] is a [Z] with the wrap-around of its additions written
      out ([Int64.add64]); [uint32] process ids are [Z].
    - Go's [float64] is IEEE binary64 as [SpecFloat.spec_float] with
      precision 53 and maximal exponent 1024, so every rounding of the
      source is performed by the model.
    - [time.Time] is the number of nanoseconds since the zero Time;
      [time.Duration] is an [int64] number of nanoseconds.
    - A Go map is a [gmap]; the order in which [range] visits a map is left
      to the runtime and is a parameter ([range_order]) of every function
      that iterates over a map.
    - An SQLite table with a unique key is a [gmap] on that key, a table
      without one the list of its rows in insertion order. A cell that SQL
      adds to is an INTEGER or, once an addition has left int64, the REAL
      that SQLite puts in its place ([Database.cell]).
    - The values of a registry key are a [gmap] from their names, each name
      standing for all the names that Windows takes for the same.
    - A call that can fail for reasons outside the program takes the error
      it meets, if any, as an argument. *)

From Stdlib Require Import ZArith Reals Lra Lia Psatz SpecFloat Ascii DecimalString DecimalPos.
From Equations Require Import Equations.
From stdpp Require Import base option gmap strings list sorting.

Local Open Scope Z_scope.

(** ** Machine integers *)

Module Int64.

Definition int64_min : Z := - 2 ^ 63.
Definition int64_max : Z := 2 ^ 63 - 1.

(** Reduction of an integer to the int64 that Go keeps of it. *)
Definition wrap64 (z : Z) : Z := (z + 2 ^ 63) mod 2 ^ 64 - 2 ^ 63.

(** [a + b] on int64. *)
Definition add64 (a b : Z) : Z := wrap64 (a + b).

(** [int64(u)] for a uint64 [u]. *)
Definition int64_of_uint64 (u : Z) : Z := wrap64 u.

Definition in_int64 (z : Z) : Prop := int64_min <= z <= int64_max.

(** [a * b] on int64. *)
Definition mul64 (a b : Z) : Z := wrap64 (a * b).

End Int64.

(** ** float64 *)

Module Float64.

Definition f64 : Type := spec_float.

Definition f64_add : f64 -> f64 -> f64 := SFadd 53 1024.
Definition f64_mul : f64 -> f64 -> f64 := SFmul 53 1024.
Definition f64_div : f64 -> f64 -> f64 := SFdiv 53 1024.

(** [x <= y] and [x < y] on float64 (false on NaN). *)
Definition f64_leb : f64 -> f64 -> bool := SFleb.
Definition f64_ltb : f64 -> f64 -> bool := SFltb.

(** [x == y] on float64 (false on NaN). *)
Definition f64_eqb : f64 -> f64 -> bool := SFeqb.

(** [float64(n)] for an integer [n]: rounding to nearest, ties to even. *)
Definition f64_of_int64 (n : Z) : f64 := binary_normalize 53 1024 n 0 false.

(** The float64 of value [h/2]. The literals 10.0, 1.0 and 0.5 of the
    source are [f64_of_halves 20], [f64_of_halves 2], [f64_of_halves 1]. *)
Definition f64_of_halves (h : Z) : f64 := binary_normalize 53 1024 h (-1) false.

Definition f64_zero : f64 := S754_zero false.

(** [int64(x)]: truncation toward zero. For NaN, the infinities and values
    outside int64 the amd64 conversion yields the smallest int64. *)
Definition f64_to_int64 (x : f64) : Z :=
  match x with
  | S754_zero _ => 0
  | S754_finite s m e =>
      let t := match e with
               | Zneg p => Zpos m / 2 ^ Zpos p
               | _ => Zpos m * 2 ^ e
               end in
      let v := if s then - t else t in
      if (Int64.int64_min <=? v) && (v <=? Int64.int64_max) then v
      else Int64.int64_min
  | _ => Int64.int64_min
  end.

(** The real number a mantissa and an exponent stand for, and the value of
    a float64 (0 for the zeros; unused for NaN and the infinities). *)
Definition F2R (m e : Z) : R := (IZR m * powerRZ 2 e)%R.

Definition f64_val (x : f64) : R :=
  match x with
  | S754_finite s m e => F2R (cond_Zopp s (Zpos m)) e
  | _ => 0%R
  end.

(** One unit in the last place of a normal float64, relative to its value. *)
Definition eps : R := (/ IZR (2 ^ 52))%R.

End Float64.

(** ** The [time] package, as far as the engine uses it *)

Module GoTime.
Import Float64.

Definition Time : Type := Z.
Definition Duration : Type := Z.

Definition Millisecond : Duration := 1000000.
Definition Second : Duration := 1000000000.
Definition Hour : Duration := 3600 * Second.

Definition minDuration : Duration := Int64.int64_min.
Definition maxDuration : Duration := Int64.int64_max.

Definition IsZero (t : Time) : bool := t =? 0.

(** [t.Sub(u)]: the difference, saturated at the ends of [Duration]. *)
Definition Sub (t u : Time) : Duration :=
  if t - u <? minDuration then minDuration
  else if maxDuration <? t - u then maxDuration
  else t - u.

Definition Add (t : Time) (d : Duration) : Time := t + d.

(** Seconds between the zero Time and 1970-01-01. *)
Definition unixToInternal : Z := 62135596800.

(** [t.Unix()]. *)
Definition Unix (t : Time) : Z := t / Second - unixToInternal.

(** [d.Seconds()]: [float64(d / Second) + float64(d % Second) / 1e9]. *)
Definition Seconds (d : Duration) : f64 :=
  f64_add (f64_of_int64 (Z.quot d Second))
          (f64_div (f64_of_int64 (Z.rem d Second)) (f64_of_int64 1000000000)).

Definition Minute : Duration := 60 * Second.

End GoTime.

(** ** Results of fallible calls *)

Definition error : Type := string.

Inductive result (A : Type) : Type :=
| Ok (a : A)
| Err (e : error).

Arguments Ok {A} a.
Arguments Err {A} e.

(** The verb [%d] of package [fmt]: an integer in decimal. *)
Definition decimal (n : Z) : string := NilZero.string_of_int (Z.to_int n).

(** ** Package [database] (internal/database/db.go) *)

Module Database.

Record UsageRecord : Type := {
  ID : Z;
  AppName : string;
  ProcessID : Z;
  UploadBytes : Z;
  DownloadBytes : Z;
  Timestamp : Z;
  IsTemporary : bool;
  ExpiresAt : Z
}.

Record DailySummary : Type := {
  SummaryID : Z;
  Date : string;
  TotalUpload : Z;
  TotalDownload : Z
}.

Record AppMetadata : Type := {
  MetaAppName : string;
  ExecutablePath : string;
  FirstSeen : Z;
  LastSeen : Z
}.

(** A cell of the columns total_upload and total_download: an INTEGER, or
    the REAL that SQLite stores in its place once an addition has left
    int64. *)
Inductive cell : Type :=
| Integer (z : Z)
| Real (x : Float64.f64).

(** A row of daily_summaries without its date, the unique key under which
    the table holds it. *)
Record summary_row : Type := {
  row_id : Z;
  total_upload : cell;
  total_download : cell
}.

(** The tables of the store. The two AUTOINCREMENT keys keep the last id
    they handed out. *)
Record DB : Type := {
  usage_records : list UsageRecord;
  usage_seq : Z;
  daily_summaries : gmap string summary_row;
  summary_seq : Z;
  app_metadata : gmap string AppMetadata;
  settings : gmap string string
}.

Definition empty_db : DB :=
  {| usage_records := []; usage_seq := 0; daily_summaries := ∅;
     summary_seq := 0; app_metadata := ∅; settings := ∅ |}.

(** What the file system answers to [checkDiskSpace]: the size of the
    database file ([None] when [os.Stat] fails) and the free bytes of its
    volume ([None] when [GetDiskFreeSpaceEx] fails). *)
Record disk : Type := {
  db_file_size : option Z;
  free_bytes : option Z
}.

(** The usage row that an INSERT stores for [record]: the record with the
    next id of the table. *)
Definition stored_row (seq : Z) (record : UsageRecord) : UsageRecord :=
  {| ID := seq + 1; AppName := AppName record; ProcessID := ProcessID record;
     UploadBytes := UploadBytes record; DownloadBytes := DownloadBytes record;
     Timestamp := Timestamp record; IsTemporary := IsTemporary record;
     ExpiresAt := ExpiresAt record |}.

Definition insert_row (db : DB) (record : UsageRecord) : DB :=
  {| usage_records := usage_records db ++ [stored_row (usage_seq db) record];
     usage_seq := usage_seq db + 1;
     daily_summaries := daily_summaries db; summary_seq := summary_seq db;
     app_metadata := app_metadata db; settings := settings db |}.

(** [findSubstring]: some window of [s] of the length of [substr] is
    [substr]. *)
Definition findSubstring (s substr : string) : bool :=
  if (String.length s <? String.length substr)%nat then false
  else existsb (fun i => String.eqb (String.substring i (String.length substr) s) substr)
               (seq 0 (String.length s - String.length substr + 1)).

(** [contains], with the source's chain of shortcuts. *)
Definition contains (s substr : string) : bool :=
  let ls := String.length s in
  let lsub := String.length substr in
  (lsub <=? ls)%nat
  && (String.eqb s substr
      || (lsub <? ls)%nat
         && (String.eqb (String.substring 0 lsub s) substr
             || String.eqb (String.substring (ls - lsub) lsub s) substr
             || (lsub <? ls)%nat && findSubstring s substr)).

(** The storage reports a busy or locked database. *)
Definition is_lock_error (errStr : string) : bool :=
  contains errStr "database is locked" || contains errStr "SQLITE_BUSY".

Definition maxRetries : Z := 5.

(** The pause before retry [i]: [50 * (1 << i)] milliseconds. *)
Definition backoff (i : Z) : GoTime.Duration := 50 * Z.shiftl 1 i * GoTime.Millisecond.

(** What a call of [InsertUsageRecord] leaves behind: the store, the error
    returned ([None] for nil), the pauses slept in order and the number of
    INSERT statements executed. *)
Record insert_outcome : Type := {
  out_db : DB;
  out_err : option error;
  out_sleeps : list GoTime.Duration;
  out_attempts : nat
}.

(** The loop of [InsertUsageRecord]: [exec i] is the error of the [i]-th
    execution of the INSERT ([None]: the row was stored); [remaining]
    counts the iterations left of the [for i := 0; i < maxRetries; i++]. *)
Fixpoint insert_loop (exec : Z -> option error) (db : DB) (record : UsageRecord)
    (remaining : nat) (i : Z) : insert_outcome :=
  match remaining with
  | O => {| out_db := db;
            out_err := Some "failed to insert usage record after retries"%string;
            out_sleeps := []; out_attempts := 0 |}
  | S remaining' =>
      match exec i with
      | None => {| out_db := insert_row db record; out_err := None;
                   out_sleeps := []; out_attempts := 1 |}
      | Some err =>
          if (i <? maxRetries - 1) && is_lock_error err then
            let o := insert_loop exec db record remaining' (i + 1) in
            {| out_db := out_db o; out_err := out_err o;
               out_sleeps := backoff i :: out_sleeps o;
               out_attempts := S (out_attempts o) |}
          else {| out_db := db; out_err := Some err;
                  out_sleeps := []; out_attempts := 1 |}
      end
  end.

Definition InsertUsageRecord (exec : Z -> option error) (db : DB)
    (record : UsageRecord) : insert_outcome :=
  insert_loop exec db record (Z.to_nat maxRetries) 0.

(** [checkDiskSpace] on Windows. *)
Definition checkDiskSpace (d : disk) : option error :=
  let too_large :=
    match db_file_size d with
    | Some size => 10 * 1024 * 1024 * 1024 <? size
    | None => false
    end in
  if too_large then Some "database file exceeds 10GB safety limit"%string
  else match free_bytes d with
       | None => None
       | Some free =>
           if free <? 100 * 1024 * 1024
           then Some ("insufficient disk space: " +:+ decimal free
                      +:+ " bytes available, need at least "
                      +:+ decimal (100 * 1024 * 1024) +:+ " bytes")
           else None
       end.

(** [BatchInsertUsageRecords]: one transaction. [tx_fault] is the first
    error met between Begin and Commit, if any; the deferred rollback then
    leaves the table as it was. *)
Definition BatchInsertUsageRecords (d : disk) (tx_fault : option error)
    (db : DB) (records : list UsageRecord) : DB * option error :=
  match records with
  | [] => (db, None)
  | _ =>
      match (if (100 <? length records)%nat then checkDiskSpace d else None) with
      | Some e => (db, Some ("insufficient disk space: " +:+ e))
      | None =>
          match tx_fault with
          | Some e => (db, Some e)
          | None => (fold_left insert_row records db, None)
          end
      end
  end.

(** The float64 that SQLite takes for a cell in an addition of REALs. *)
Definition cell_real (c : cell) : Float64.f64 :=
  match c with
  | Integer z => Float64.f64_of_int64 z
  | Real x => x
  end.

(** SQL [a + b]: the sum of two INTEGERs when it is an int64; the float64
    sum of the operands when it is not, or when one of them is a REAL. *)
Definition sql_add (a b : cell) : cell :=
  match a, b with
  | Integer x, Integer y =>
      if (Int64.int64_min <=? x + y) && (x + y <=? Int64.int64_max)
      then Integer (x + y)
      else Real (Float64.f64_add (Float64.f64_of_int64 x) (Float64.f64_of_int64 y))
  | _, _ => Real (Float64.f64_add (cell_real a) (cell_real b))
  end.

(** The int64 that SQLite takes for a REAL: the ends of int64 beyond
    +-9223372036854774784.0, the truncation toward zero between them. *)
Definition real_to_int64 (x : Float64.f64) : Z :=
  if Float64.f64_ltb x (Float64.f64_of_int64 (- 9223372036854774784))
  then Int64.int64_min
  else if Float64.f64_ltb (Float64.f64_of_int64 9223372036854774784) x
       then Int64.int64_max
       else Float64.f64_to_int64 x.

(** The INTEGER affinity of the column: a REAL is stored as an INTEGER when
    it is the float64 of an int64 other than the two ends of int64, and as
    it is otherwise. *)
Definition integer_affinity (c : cell) : cell :=
  match c with
  | Integer z => Integer z
  | Real x =>
      let i := real_to_int64 x in
      if Float64.f64_eqb x (Float64.f64_of_int64 i)
         && (Int64.int64_min <? i) && (i <? Int64.int64_max)
      then Integer i else Real x
  end.

(** [UpdateDailySummary]:
    INSERT .. ON CONFLICT(date) DO UPDATE SET
      total_upload = total_upload + excluded.total_upload,
      total_download = total_download + excluded.total_download.
    The statement takes the next id of the AUTOINCREMENT key also when it
    ends in the update of the row that is there. *)
Definition UpdateDailySummary (fault : option error) (db : DB)
    (date : string) (upload download : Z) : DB * option error :=
  match fault with
  | Some e => (db, Some e)
  | None =>
      match daily_summaries db !! date with
      | None =>
          ({| usage_records := usage_records db; usage_seq := usage_seq db;
              daily_summaries :=
                <[date := {| row_id := summary_seq db + 1;
                             total_upload := Integer upload;
                             total_download := Integer download |}]>
                  (daily_summaries db);
              summary_seq := summary_seq db + 1;
              app_metadata := app_metadata db; settings := settings db |}, None)
      | Some row =>
          ({| usage_records := usage_records db; usage_seq := usage_seq db;
              daily_summaries :=
                <[date := {| row_id := row_id row;
                             total_upload :=
                               integer_affinity (sql_add (total_upload row) (Integer upload));
                             total_download :=
                               integer_affinity (sql_add (total_download row) (Integer download)) |}]>
                  (daily_summaries db);
              summary_seq := summary_seq db + 1;
              app_metadata := app_metadata db; settings := settings db |}, None)
      end
  end.

(** [UpsertAppMetadata]: a new row, or the path and last_seen of the
    existing one replaced. *)
Definition UpsertAppMetadata (fault : option error) (db : DB)
    (metadata : AppMetadata) : DB * option error :=
  match fault with
  | Some e => (db, Some e)
  | None =>
      let row :=
        match app_metadata db !! MetaAppName metadata with
        | None => metadata
        | Some old =>
            {| MetaAppName := MetaAppName old;
               ExecutablePath := ExecutablePath metadata;
               FirstSeen := FirstSeen old; LastSeen := LastSeen metadata |}
        end in
      ({| usage_records := usage_records db; usage_seq := usage_seq db;
          daily_summaries := daily_summaries db; summary_seq := summary_seq db;
          app_metadata := <[MetaAppName metadata := row]> (app_metadata db);
          settings := settings db |}, None)
  end.

(** [rows.Scan] of a row of daily_summaries into a [DailySummary]: an
    INTEGER cell fills an int64 field, a REAL cell does not, and the first
    such cell ends the Scan with an error. [scan_error] gives the error of
    package [database/sql] for the name of the column and the REAL. *)
Definition scan_summary (scan_error : string -> Float64.f64 -> error)
    (entry : string * summary_row) : result DailySummary :=
  match total_upload entry.2, total_download entry.2 with
  | Integer upload, Integer download =>
      Ok {| SummaryID := row_id entry.2; Date := entry.1;
            TotalUpload := upload; TotalDownload := download |}
  | Real x, _ => Err (scan_error "total_upload" x)
  | Integer _, Real x => Err (scan_error "total_download" x)
  end.

(** [GetDailySummary]: [fault] is an error of the query other than
    [sql.ErrNoRows] and than the errors of Scan; the absence of a row is
    [sql.ErrNoRows], which the function turns into a zero summary. *)
Definition GetDailySummary (scan_error : string -> Float64.f64 -> error)
    (fault : option error) (db : DB) (date : string) : result DailySummary :=
  match fault with
  | Some e => Err e
  | None =>
      match daily_summaries db !! date with
      | None => Ok {| SummaryID := 0; Date := date;
                      TotalUpload := 0; TotalDownload := 0 |}
      | Some row => scan_summary scan_error (date, row)
      end
  end.

(** [GetRecordCount]: SELECT COUNT( * ) FROM usage_records. *)
Definition GetRecordCount (db : DB) : Z := Z.of_nat (length (usage_records db)).

(** The store with one of its tables replaced. *)
Definition set_usage_records (db : DB) (rows : list UsageRecord) : DB :=
  {| usage_records := rows; usage_seq := usage_seq db;
     daily_summaries := daily_summaries db; summary_seq := summary_seq db;
     app_metadata := app_metadata db; settings := settings db |}.

Definition set_daily_summaries (db : DB) (rows : gmap string summary_row) : DB :=
  {| usage_records := usage_records db; usage_seq := usage_seq db;
     daily_summaries := rows; summary_seq := summary_seq db;
     app_metadata := app_metadata db; settings := settings db |}.

Definition set_settings (db : DB) (rows : gmap string string) : DB :=
  {| usage_records := usage_records db; usage_seq := usage_seq db;
     daily_summaries := daily_summaries db; summary_seq := summary_seq db;
     app_metadata := app_metadata db; settings := rows |}.

(** [sql.ErrNoRows]. *)
Definition ErrNoRows : error := "sql: no rows in result set".

(** ORDER BY date DESC: TEXT cells compare as byte strings, and no two rows
    of daily_summaries have the same date. *)
Definition date_desc (x y : string * summary_row) : Prop :=
  String.leb y.1 x.1 = true.

#[global] Instance date_desc_dec (x y : string * summary_row) : Decision (date_desc x y) :=
  decide (String.leb y.1 x.1 = true).

(** LIMIT [n]: no bound when [n] is negative. *)
Definition limit {A : Type} (n : Z) (rows : list A) : list A :=
  if n <? 0 then rows else take (Z.to_nat n) rows.

(** The loop over the rows of a query: the summaries of the rows in
    order, or the error of the first Scan that fails. *)
Fixpoint scan_rows (scan_error : string -> Float64.f64 -> error)
    (rows : list (string * summary_row)) : result (list DailySummary) :=
  match rows with
  | [] => Ok []
  | entry :: rows' =>
      match scan_summary scan_error entry with
      | Err e => Err e
      | Ok summary =>
          match scan_rows scan_error rows' with
          | Err e => Err e
          | Ok summaries => Ok (summary :: summaries)
          end
      end
  end.

(** [GetRecentSummaries]. [query_fault] is an error of the query (nil is
    returned with it, as with the error of a Scan), [rows_fault] an error
    that ends the iteration after so many rows (they are returned with
    it). *)
Definition GetRecentSummaries (scan_error : string -> Float64.f64 -> error)
    (query_fault : option error) (rows_fault : option (nat * error))
    (db : DB) (days : Z) : list DailySummary * option error :=
  match query_fault with
  | Some e => ([], Some e)
  | None =>
      let rows := limit days (merge_sort date_desc (map_to_list (daily_summaries db))) in
      let delivered := match rows_fault with
                       | Some (n, _) => take n rows
                       | None => rows
                       end in
      match scan_rows scan_error delivered with
      | Err e => ([], Some e)
      | Ok summaries => (summaries, snd <$> rows_fault)
      end
  end.

(** [GetAppMetadata]: the absence of a row is returned as [sql.ErrNoRows]. *)
Definition GetAppMetadata (fault : option error) (db : DB) (appName : string)
    : result AppMetadata :=
  match fault with
  | Some e => Err e
  | None =>
      match app_metadata db !! appName with
      | Some meta => Ok meta
      | None => Err ErrNoRows
      end
  end.

(** [DeleteOldRecords]: two statements without a transaction. [date_of] is
    the calendar date of a Unix time in the local time zone, as
    [Format("2006-01-02")] writes it. *)
Definition DeleteOldRecords (usage_fault summary_fault : option error)
    (date_of : Z -> string) (beforeTimestamp : Z) (db : DB) : DB * option error :=
  match usage_fault with
  | Some e => (db, Some ("failed to delete old usage records: " +:+ e))
  | None =>
      let db1 :=
        set_usage_records db
          (filter (fun r => ¬ (Timestamp r < beforeTimestamp /\ IsTemporary r = false))
             (usage_records db)) in
      match summary_fault with
      | Some e => (db1, Some ("failed to delete old daily summaries: " +:+ e))
      | None =>
          (set_daily_summaries db1
             (filter (fun entry => ¬ (String.ltb entry.1 (date_of beforeTimestamp) = true))
                (daily_summaries db1)), None)
      end
  end.

(** [ClearAllData]. *)
Definition ClearAllData (usage_fault summary_fault : option error) (db : DB)
    : DB * option error :=
  match usage_fault with
  | Some e => (db, Some ("failed to clear usage records: " +:+ e))
  | None =>
      let db1 := set_usage_records db [] in
      match summary_fault with
      | Some e => (db1, Some ("failed to clear daily summaries: " +:+ e))
      | None => (set_daily_summaries db1 ∅, None)
      end
  end.

(** [DeleteExpiredRecords] when the clock reads [now]. A row written
    before the column existed has no expires_at, which the comparison
    treats like the 0 that COALESCE reads for it. *)
Definition DeleteExpiredRecords (fault : option error) (now : GoTime.Time) (db : DB)
    : DB * option error :=
  match fault with
  | Some e => (db, Some e)
  | None =>
      (set_usage_records db
         (filter (fun r => ¬ (0 < ExpiresAt r /\ ExpiresAt r < GoTime.Unix now))
            (usage_records db)), None)
  end.

(** [Vacuum]: the tables are what they were. *)
Definition Vacuum (fault : option error) (db : DB) : DB * option error := (db, fault).

(** [GetOldestRecord]: MIN(timestamp), which is NULL on an empty table. *)
Definition GetOldestRecord (fault : option error) (db : DB) : Z * option error :=
  match fault with
  | Some e => (0, Some e)
  | None =>
      match Timestamp <$> usage_records db with
      | [] => (0, None)
      | t :: ts => (foldr Z.min t ts, None)
      end
  end.

(** [GetSetting]: [sql.ErrNoRows] is not an error but the empty string. *)
Definition GetSetting (fault : option error) (db : DB) (key : string)
    : string * option error :=
  match fault with
  | Some e => (""%string, Some e)
  | None => (default ""%string (settings db !! key), None)
  end.

(** [SetSetting]. *)
Definition SetSetting (fault : option error) (db : DB) (key value : string)
    : DB * option error :=
  match fault with
  | Some e => (db, Some e)
  | None => (set_settings db (<[key := value]> (settings db)), None)
  end.

End Database.

(** ** Package [autostart] (internal/autostart, Windows) *)

Module Autostart.

Definition appName : string := "Netpus".


(** The registry takes two value names for the same when they differ in
    the case of their letters only. [canon] maps a name to the one that
    stands for all the names the registry takes for the same, and the
    values of the Run key of the current user are a map [run] from these
    names to the strings they hold. *)




End Autostart.

(** ** Package [utils]: the configuration *)

Module Utils.

Record Config : Type := {
  AutoStart : bool;
  Theme : string;
  DataRetention : Z;
  NetworkInterface : string
}.

Definition DefaultConfig : Config :=
  {| AutoStart := false; Theme := "auto"; DataRetention := 30;
     NetworkInterface := "" |}.

(** [strconv.FormatBool]. *)
Definition FormatBool (b : bool) : string := if b then "true" else "false".

(** [strconv.Itoa]: the decimal digits, after a minus sign when negative. *)
Definition Itoa (n : Z) : string := NilZero.string_of_int (Z.to_int n).

Definition digit (c : ascii) : option Z :=
  let n := Z.of_N (N_of_ascii c) in
  if (48 <=? n) && (n <=? 57) then Some (n - 48) else None.

Fixpoint digits (s : string) (acc : Z) : option Z :=
  match s with
  | EmptyString => Some acc
  | String c s' =>
      match digit c with
      | Some d => digits s' (10 * acc + d)
      | None => None
      end
  end.

(** [strconv.Atoi] on a 64-bit platform: an optional sign and at least one
    decimal digit, of a value that an [int] holds; [None] is an error. *)
Definition Atoi (s : string) : option Z :=
  let '(neg, body) :=
    match s with
    | String "-"%char rest => (true, rest)
    | String "+"%char rest => (false, rest)
    | _ => (false, s)
    end in
  match body with
  | EmptyString => None
  | _ =>
      match digits body 0 with
      | Some n =>
          let v := if neg : bool then - n else n in
          if (Int64.int64_min <=? v) && (v <=? Int64.int64_max) then Some v else None
      | None => None
      end
  end.

(** [LoadConfig]. [db] is [Some] store when the value given implements
    [GetSetting]; [faults key] is the error of reading [key], if any. *)
Definition LoadConfig (faults : string -> option error) (db : option Database.DB)
    : Config * option error :=
  match db with
  | None => (DefaultConfig, Some "invalid database interface"%string)
  | Some store =>
      let get := fun key => Database.GetSetting (faults key) store key in
      let config := DefaultConfig in
      let config :=
        match get "autoStart"%string with
        | (val, None) =>
            if decide (val = ""%string) then config
            else {| AutoStart := String.eqb val "true"; Theme := Theme config;
                    DataRetention := DataRetention config;
                    NetworkInterface := NetworkInterface config |}
        | _ => config
        end in
      let config :=
        match get "theme"%string with
        | (val, None) =>
            if decide (val = ""%string) then config
            else {| AutoStart := AutoStart config; Theme := val;
                    DataRetention := DataRetention config;
                    NetworkInterface := NetworkInterface config |}
        | _ => config
        end in
      let config :=
        match get "dataRetention"%string with
        | (val, None) =>
            if decide (val = ""%string) then config
            else match Atoi val with
                 | Some days =>
                     {| AutoStart := AutoStart config; Theme := Theme config;
                        DataRetention := days;
                        NetworkInterface := NetworkInterface config |}
                 | None => config
                 end
        | _ => config
        end in
      let config :=
        match get "networkInterface"%string with
        | (val, None) =>
            if decide (val = ""%string) then config
            else {| AutoStart := AutoStart config; Theme := Theme config;
                    DataRetention := DataRetention config; NetworkInterface := val |}
        | _ => config
        end in
      (config, None)
  end.

(** [Save]: four writes, the first error ends them. *)
Definition Save (faults : string -> option error) (c : Config) (db : option Database.DB)
    : option Database.DB * option error :=
  match db with
  | None => (None, Some "invalid database interface"%string)
  | Some store =>
      match Database.SetSetting (faults "autoStart"%string) store
              "autoStart" (FormatBool (AutoStart c)) with
      | (store, Some e) => (Some store, Some e)
      | (store, None) =>
      match Database.SetSetting (faults "theme"%string) store "theme" (Theme c) with
      | (store, Some e) => (Some store, Some e)
      | (store, None) =>
      match Database.SetSetting (faults "dataRetention"%string) store
              "dataRetention" (Itoa (DataRetention c)) with
      | (store, Some e) => (Some store, Some e)
      | (store, None) =>
      match Database.SetSetting (faults "networkInterface"%string) store
              "networkInterface" (NetworkInterface c) with
      | (store, Some e) => (Some store, Some e)
      | (store, None) => (Some store, None)
      end end end end
  end.

End Utils.

(** ** Iteration over a Go map

    [for k, v := range m] visits every entry of [m] once, in an order the
    runtime chooses. The choice is a parameter of the model; [range_ok]
    says that it is a legal one. *)

Definition range_order : Type :=
  forall (K : Type) (EqK : EqDecision K) (CK : Countable K) (V : Type),
    gmap K V -> list (K * V).

Definition range_ok (rng : range_order) : Prop :=
  forall (K : Type) (EqK : EqDecision K) (CK : Countable K) (V : Type)
         (m : gmap K V),
    rng K EqK CK V m ≡ₚ map_to_list m.

(** The order in which [map_to_list] lists a map is one legal choice. *)
Definition range_canonical : range_order :=
  fun K EqK CK V m => map_to_list m.

(** Visiting in the opposite order is another. *)
Definition range_reversed : range_order :=
  fun K EqK CK V m => reverse (map_to_list m).

(** ** The Windows counter source (internal/monitor/monitor_windows.go) *)

Module Counter.
Import Float64.

Record processData : Type := {
  processID : Z;
  uploadBytes : Z;
  downloadBytes : Z
}.

(** The two fields of a MIB_IF_ROW2 that the source reads. *)
Record mibIfRow2 : Type := {
  InOctets : Z;
  OutOctets : Z
}.

Record tcpRow : Type := {
  State : Z;
  LocalAddr : Z;
  LocalPort : Z;
  RemoteAddr : Z;
  RemotePort : Z;
  OwningPid : Z
}.

Record udpRow : Type := {
  UdpLocalAddr : Z;
  UdpLocalPort : Z;
  UdpOwningPid : Z
}.

(** What the operating system answers during one sampling: the return
    code and table of GetIfTable2 ([None]: a nil table), the outcomes of
    [getTCPStats] and [getUDPStats], and [getProcessPath] (the base name of
    the executable of a pid, the empty string when it cannot be read). *)
Record system : Type := {
  if_table_ret : Z;
  if_table : option (list mibIfRow2);
  tcp_stats : result (list tcpRow);
  udp_stats : result (list udpRow);
  getProcessPath : Z -> string
}.

(** [getSystemNetworkIO]: the sums of the interfaces' cumulative octet
    counters, each uint64 counter cast to int64. *)
Definition getSystemNetworkIO (os : system) : result (Z * Z) :=
  if decide (if_table_ret os = 0) then
    match if_table os with
    | None => Ok (0, 0)
    | Some entries =>
        Ok (fold_left
              (fun '(upload, download) entry =>
                 (Int64.add64 upload (Int64.int64_of_uint64 (OutOctets entry)),
                  Int64.add64 download (Int64.int64_of_uint64 (InOctets entry))))
              entries (0, 0))
    end
  else Err ("GetIfTable2 failed with code " +:+ decimal (if_table_ret os)).

(** The three accumulators of the weighting loops. *)
Record weights : Type := {
  processWeights : gmap Z f64;
  processNames : gmap Z string;
  totalWeight : f64
}.

Definition no_weights : weights :=
  {| processWeights := ∅; processNames := ∅; totalWeight := f64_zero |}.

(** The body shared by the TCP and the UDP loop: add [weight] to the pid
    and to the total, and resolve the name of a pid that has none yet. *)
Definition account (path : Z -> string) (pid : Z) (weight : f64) (w : weights)
    : weights :=
  {| processWeights :=
       <[pid := f64_add (default f64_zero (processWeights w !! pid)) weight]>
         (processWeights w);
     processNames :=
       match processNames w !! pid with
       | Some _ => processNames w
       | None =>
           if decide (path pid = ""%string) then processNames w
           else <[pid := path pid]> (processNames w)
       end;
     totalWeight := f64_add (totalWeight w) weight |}.

(** Weight of a TCP connection: 10.0 when ESTABLISHED (state 5), else 1.0. *)
Definition tcp_weight (conn : tcpRow) : f64 :=
  if State conn =? 5 then f64_of_halves 20 else f64_of_halves 2.

(** Weight of a UDP endpoint: 0.5. *)
Definition udp_weight : f64 := f64_of_halves 1.

Definition weigh (path : Z -> string) (tcpConns : list tcpRow)
    (udpConns : list udpRow) : weights :=
  fold_left (fun w conn => account path (UdpOwningPid conn) udp_weight w) udpConns
    (fold_left (fun w conn => account path (OwningPid conn) (tcp_weight conn) w)
       tcpConns no_weights).

(** [int64(float64(total) * (weight / totalWeight))]. *)
Definition share (total : Z) (weight totalWeight : f64) : Z :=
  f64_to_int64 (f64_mul (f64_of_int64 total) (f64_div weight totalWeight)).

(** One iteration of the distribution loop. *)
Definition distribute_step (totalUpload totalDownload : Z) (w : weights)
    (result : gmap string processData) (entry : Z * f64)
    : gmap string processData :=
  let '(pid, weight) := entry in
  match processNames w !! pid with
  | None => result
  | Some name =>
      if decide (name = ""%string) then result
      else <[name := {| processID := pid;
                        uploadBytes := share totalUpload weight (totalWeight w);
                        downloadBytes := share totalDownload weight (totalWeight w) |}]>
             result
  end.

Definition distribute (rng : range_order) (totalUpload totalDownload : Z)
    (w : weights) : gmap string processData :=
  if f64_ltb f64_zero (totalWeight w) then
    fold_left (distribute_step totalUpload totalDownload w)
      (rng _ _ _ _ (processWeights w)) ∅
  else ∅.

(** [getNetworkProcesses]. *)
Definition getNetworkProcesses (rng : range_order) (os : system)
    : result (gmap string processData) :=
  match getSystemNetworkIO os with
  | Err e => Err ("failed to get system network I/O: " +:+ e)
  | Ok (totalUpload, totalDownload) =>
      match tcp_stats os with
      | Err e => Err ("failed to get TCP stats: " +:+ e)
      | Ok tcpConns =>
          match udp_stats os with
          | Err e => Err ("failed to get UDP stats: " +:+ e)
          | Ok udpConns =>
              Ok (distribute rng totalUpload totalDownload
                    (weigh (getProcessPath os) tcpConns udpConns))
          end
      end
  end.

End Counter.

(** ** The monitor (package [monitor]) *)

Module Monitor.
Import Float64 GoTime Counter.

Definition UPDATE_INTERVAL : Duration := 500 * Millisecond.
Definition BATCH_INTERVAL : Duration := 10 * Second.
Definition CLEANUP_THRESHOLD : Duration := 3 * Second.

Record NetworkStat : Type := {
  AppName : string;
  ProcessID : Z;
  UploadSpeed : Z;
  DownloadSpeed : Z;
  TotalUpload : Z;
  TotalDownload : Z;
  LastUpdate : Time
}.

Record batchRecord : Type := {
  appName : string;
  recProcessID : Z;
  upload : Z;
  download : Z;
  timestamp : Z;
  isTemporary : bool;
  expiresAt : Z
}.

(** The monitor. [db] is [Some] store when the handle given to [New] is a
    [*database.DB]; each [stats] pointer is reachable from the map only, so
    the map holds the records themselves. *)
Record Monitor : Type := {
  db : option Database.DB;
  stats : gmap string NetworkStat;
  batch : list batchRecord;
  paused : bool;
  lastUpdate : Time;
  saveEnabled : bool
}.

Definition New (db : option Database.DB) : Monitor :=
  {| db := db; stats := ∅; batch := []; paused := false;
     lastUpdate := 0; saveEnabled := true |}.

Definition set_stats (m : Monitor) (s : gmap string NetworkStat) : Monitor :=
  {| db := db m; stats := s; batch := batch m; paused := paused m;
     lastUpdate := lastUpdate m; saveEnabled := saveEnabled m |}.

(** Seconds since the entry was last updated, 1.0 when it never was or
    when the clock did not advance. *)
Definition timeDelta (now : Time) (stat : NetworkStat) : f64 :=
  if IsZero (LastUpdate stat) then f64_of_halves 2
  else
    let d := Seconds (Sub now (LastUpdate stat)) in
    if f64_leb d f64_zero then f64_of_halves 2 else d.

(** The entry of [name] after a tick that attributes [data] to it: the
    existing entry, or a new one, with the speeds over the elapsed time, the
    totals increased by the deltas and the time of the update. *)
Definition touch (now : Time) (name : string) (data : processData)
    (old : option NetworkStat) : NetworkStat :=
  let stat :=
    match old with
    | Some stat => stat
    | None => {| AppName := name; ProcessID := processID data;
                 UploadSpeed := 0; DownloadSpeed := 0;
                 TotalUpload := 0; TotalDownload := 0; LastUpdate := 0 |}
    end in
  let dt := timeDelta now stat in
  {| AppName := AppName stat; ProcessID := ProcessID stat;
     UploadSpeed := f64_to_int64 (f64_div (f64_of_int64 (uploadBytes data)) dt);
     DownloadSpeed := f64_to_int64 (f64_div (f64_of_int64 (downloadBytes data)) dt);
     TotalUpload := Int64.add64 (TotalUpload stat) (uploadBytes data);
     TotalDownload := Int64.add64 (TotalDownload stat) (downloadBytes data);
     LastUpdate := now |}.

(** The body of the first loop of [collect] for one entry of [processes]:
    nothing when both deltas are zero, else the entry is updated and a
    record is appended to the batch. *)
Definition collect_step (now : Time)
    (acc : gmap string NetworkStat * list batchRecord)
    (entry : string * processData)
    : gmap string NetworkStat * list batchRecord :=
  let '(name, data) := entry in
  if (uploadBytes data =? 0) && (downloadBytes data =? 0) then acc
  else
    (<[name := touch now name data (acc.1 !! name)]> acc.1,
     acc.2 ++ [{| appName := name; recProcessID := processID data;
                  upload := uploadBytes data; download := downloadBytes data;
                  timestamp := Unix now; isTemporary := false;
                  expiresAt := Unix (Add now (24 * Hour)) |}]).

(** The second loop of [collect]: an entry whose name is not a key of
    [processes] gets both speeds set to zero. *)
Definition reset_idle (processes : gmap string processData)
    (name : string) (stat : NetworkStat) : NetworkStat :=
  match processes !! name with
  | Some _ => stat
  | None => {| AppName := AppName stat; ProcessID := ProcessID stat;
               UploadSpeed := 0; DownloadSpeed := 0;
               TotalUpload := TotalUpload stat;
               TotalDownload := TotalDownload stat;
               LastUpdate := LastUpdate stat |}
  end.

(** [collect], on the statistics sampled from [os] at time [now]. *)
Definition collect (rng : range_order) (os : system) (now : Time) (m : Monitor)
    : Monitor * option error :=
  if paused m then (m, None)
  else
    match getNetworkProcesses rng os with
    | Err e => (m, Some e)
    | Ok processes =>
        let '(stats1, batch1) :=
          fold_left (collect_step now) (rng _ _ _ _ processes) (stats m, batch m) in
        ({| db := db m;
            stats := map_imap (fun name stat => Some (reset_idle processes name stat)) stats1;
            batch := batch1; paused := paused m;
            lastUpdate := now; saveEnabled := saveEnabled m |}, None)
    end.

(** [cleanupInactive] at time [now]. *)
Definition cleanupInactive (now : Time) (m : Monitor) : Monitor :=
  set_stats m
    (filter (fun entry => ¬ (CLEANUP_THRESHOLD < Sub now (LastUpdate entry.2)))
       (stats m)).

(** One turn of [monitorLoop]: when not paused, [collect] (its error is
    only printed) and then [cleanupInactive], each reading the clock. *)
Definition tick (rng : range_order) (os : system) (now now' : Time)
    (m : Monitor) : Monitor :=
  if paused m then m
  else cleanupInactive now' (collect rng os now m).1.

(** [GetStats]: a copy of the map and of every record in it. *)
Definition GetStats (m : Monitor) : gmap string NetworkStat :=
  (fun stat => stat) <$> stats m.

Definition SetSaveEnabled (enabled : bool) (m : Monitor) : Monitor :=
  {| db := db m; stats := stats m; batch := batch m; paused := paused m;
     lastUpdate := lastUpdate m; saveEnabled := enabled |}.

Definition Pause (m : Monitor) : Monitor :=
  {| db := db m; stats := stats m; batch := batch m; paused := true;
     lastUpdate := lastUpdate m; saveEnabled := saveEnabled m |}.

Definition Resume (m : Monitor) : Monitor :=
  {| db := db m; stats := stats m; batch := batch m; paused := false;
     lastUpdate := lastUpdate m; saveEnabled := saveEnabled m |}.

(** What the storage does during one flush: the file system seen by
    [checkDiskSpace], and the error, if any, of the batch transaction, of
    the upsert of each application's metadata and of the summary update. *)
Record storage : Type := {
  st_disk : Database.disk;
  st_batch_fault : option error;
  st_meta_fault : string -> option error;
  st_summary_fault : option error
}.

Definition to_usage_record (rec : batchRecord) : Database.UsageRecord :=
  {| Database.ID := 0; Database.AppName := appName rec;
     Database.ProcessID := recProcessID rec;
     Database.UploadBytes := upload rec; Database.DownloadBytes := download rec;
     Database.Timestamp := timestamp rec; Database.IsTemporary := isTemporary rec;
     Database.ExpiresAt := expiresAt rec |}.

(** The metadata of the batch, one row per application name, from the
    first record of that name. *)
Definition batch_metadata (now : Z) (recs : list batchRecord)
    : gmap string Database.AppMetadata :=
  fold_left
    (fun acc rec =>
       match acc !! appName rec with
       | Some _ => acc
       | None =>
           <[appName rec := {| Database.MetaAppName := appName rec;
                               Database.ExecutablePath := appName rec;
                               Database.FirstSeen := timestamp rec;
                               Database.LastSeen := now |}]> acc
       end)
    recs ∅.

Definition batch_upload (recs : list batchRecord) : Z :=
  fold_left (fun total rec => Int64.add64 total (upload rec)) recs 0.

Definition batch_download (recs : list batchRecord) : Z :=
  fold_left (fun total rec => Int64.add64 total (download rec)) recs 0.

Definition set_batch_db (m : Monitor) (b : list batchRecord)
    (d : option Database.DB) : Monitor :=
  {| db := d; stats := stats m; batch := b; paused := paused m;
     lastUpdate := lastUpdate m; saveEnabled := saveEnabled m |}.

(** [flushBatch] at Unix time [now], on the calendar date [today]. *)
Definition flushBatch (rng : range_order) (env : storage) (now : Z)
    (today : string) (m : Monitor) : Monitor :=
  if negb (saveEnabled m) then set_batch_db m [] (db m)
  else
    match batch m with
    | [] => m
    | recs =>
        match db m with
        | None => set_batch_db m [] None
        | Some store =>
            match Database.BatchInsertUsageRecords (st_disk env) (st_batch_fault env)
                    store (to_usage_record <$> recs) with
            | (_, Some _) => set_batch_db m [] (Some store)
            | (store1, None) =>
                let store2 :=
                  fold_left
                    (fun s entry =>
                       (Database.UpsertAppMetadata (st_meta_fault env entry.1) s entry.2).1)
                    (rng _ _ _ _ (batch_metadata now recs)) store1 in
                let store3 :=
                  (Database.UpdateDailySummary (st_summary_fault env) store2 today
                     (batch_upload recs) (batch_download recs)).1 in
                set_batch_db m [] (Some store3)
            end
        end
    end.

(** The text that [formatBytes] returns, up to the rendering done by
    [fmt.Sprintf]: a constant string, [Sprintf("%d B", n)] or
    [Sprintf("%.1f %cB", x, c)]. *)
Inductive formatted : Type :=
| Verbatim (s : string)
| Sprintf_d_B (n : Z)
| Sprintf_f_cB (x : f64) (c : ascii).

Definition unit : Z := 1024.

(** The loop of [formatBytes]:
    [for n := bytes / unit; n >= unit; n /= unit { div *= unit; exp++ }]. *)
Equations? unit_loop (n div exp : Z) : Z * Z by wf (Z.to_nat n) lt :=
  unit_loop n div exp :=
    match decide (unit <= n) with
    | left _ => unit_loop (Z.quot n unit) (Int64.mul64 div unit) (exp + 1)
    | right _ => (div, exp)
    end.
Proof.
  unfold unit in *.
  assert (Z.quot n 1024 < n) by (apply Z.quot_lt; lia).
  assert (0 <= Z.quot n 1024) by (apply Z.quot_pos; lia). lia.
Qed.

(** [formatBytes]; [None] is the panic of an index outside "KMGTPE". *)
Definition formatBytes (bytes : Z) : option formatted :=
  if bytes =? 0 then Some (Verbatim "0 B")
  else if bytes <? unit then Some (Sprintf_d_B bytes)
  else
    let '(div, exp) := unit_loop (Z.quot bytes unit) unit 0 in
    match String.get (Z.to_nat exp) "KMGTPE" with
    | Some c => Some (Sprintf_f_cB (f64_div (f64_of_int64 bytes) (f64_of_int64 div)) c)
    | None => None
    end.

End Monitor.

(** ** The application (app.go) *)

Module App.
Import GoTime.

(** [GetTodayStats] on the calendar date [today]. *)
Definition GetTodayStats (scan_error : string -> Float64.f64 -> error)
    (fault : option error) (db : Database.DB) (today : string) : gmap string Z :=
  match Database.GetDailySummary scan_error fault db today with
  | Err _ => {[ "upload"%string := 0; "download"%string := 0 ]}
  | Ok summary =>
      {[ "upload"%string := Database.TotalUpload summary;
         "download"%string := Database.TotalDownload summary ]}
  end.

(** [GetHistoricalData]. *)
Definition GetHistoricalData (scan_error : string -> Float64.f64 -> error)
    (query_fault : option error) (rows_fault : option (nat * error))
    (db : Database.DB) (days : Z) : list Database.DailySummary :=
  match Database.GetRecentSummaries scan_error query_fault rows_fault db days with
  | (_, Some _) => []
  | (summaries, None) => summaries
  end.

(** [ClearOldData]. *)
Definition ClearOldData (usage_fault summary_fault vacuum_fault : option error)
    (db : Database.DB) : Database.DB * option error :=
  match Database.ClearAllData usage_fault summary_fault db with
  | (db1, Some e) => (db1, Some e)
  | (db1, None) =>
      match Database.Vacuum vacuum_fault db1 with
      | (db2, Some e) => (db2, Some ("failed to vacuum database: " +:+ e))
      | (db2, None) => (db2, None)
      end
  end.

(** What the surroundings answer during one cleanup: the errors of the
    three DELETE statements, the local calendar date of a Unix time, and
    [AddDate(0, 0, days)] on the local calendar. *)
Record housekeeping : Type := {
  hk_expire_fault : option error;
  hk_usage_fault : option error;
  hk_summary_fault : option error;
  hk_date_of : Z -> string;
  hk_AddDate : Time -> Z -> Time
}.

(** [doCleanup] of [minuteCleanup] under the retention setting
    [retention]; the clock reads [now] in [DeleteExpiredRecords] and [now']
    when the cutoff is taken. Errors are logged only. *)
Definition doCleanup (env : housekeeping) (retention : Z) (now now' : Time)
    (db : Database.DB) : Database.DB :=
  let db1 := (Database.DeleteExpiredRecords (hk_expire_fault env) now db).1 in
  if retention =? 0 then
    (Database.DeleteOldRecords (hk_usage_fault env) (hk_summary_fault env)
       (hk_date_of env) (Unix (Add now' (-1 * Minute))) db1).1
  else if 0 <? retention then
    (Database.DeleteOldRecords (hk_usage_fault env) (hk_summary_fault env)
       (hk_date_of env) (Unix (hk_AddDate env now' (- retention))) db1).1
  else db1.

End App.

(** * Vocabulary of the properties *)

(** ** Weights, shares and sampled systems

    Twice the weights are integers, which is how the statements about
    [getNetworkProcesses] count connections. *)

Module Attribution.
Import Float64 Counter.

(** Twice the weight of a TCP connection, and the connections of both
    tables as (owner, twice the weight) in the order the loops meet them. *)
Definition tcp_halves (conn : tcpRow) : Z := if State conn =? 5 then 20 else 2.

Definition contributions (tcpConns : list tcpRow) (udpConns : list udpRow)
    : list (Z * Z) :=
  ((fun conn => (OwningPid conn, tcp_halves conn)) <$> tcpConns)
  ++ ((fun conn => (UdpOwningPid conn, 1)) <$> udpConns).

(** Twice the weight the connections in [cs] give to [pid], and to all. *)
Definition halves_of (pid : Z) (cs : list (Z * Z)) : Z :=
  foldr (fun c acc => if decide (c.1 = pid) then c.2 + acc else acc) 0 cs.

Definition total_halves (cs : list (Z * Z)) : Z :=
  foldr (fun c acc => c.2 + acc) 0 cs.

Definition accounted (path : Z -> string) (cs : list (Z * Z)) : weights :=
  fold_left (fun w c => account path c.1 (f64_of_halves c.2) w) cs no_weights.

Definition sumZ (l : list Z) : Z := foldr Z.add 0 l.

(** The weight map in halves: what the loops would hold if they counted
    in integers. *)
Definition halves_map (cs : list (Z * Z)) : gmap Z Z :=
  fold_left (fun h c => <[c.1 := default 0 (h !! c.1) + c.2]> h) cs ∅.

Definition map_sum (h : gmap Z Z) : Z := sumZ ((map_to_list h).*2).

(** The entry the distribution loop writes for a pid of weight [wt]. *)
Definition attributed (U D : Z) (w : weights) (pid : Z) (wt : f64) : processData :=
  {| processID := pid;
     uploadBytes := share U wt (totalWeight w);
     downloadBytes := share D wt (totalWeight w) |}.

Definition distributed (U D : Z) (w : weights) (l : list (Z * f64))
    : gmap string processData :=
  fold_left (distribute_step U D w) l ∅.

(** Bytes handed out by a result, over all its entries. *)
Definition uploaded (result : gmap string processData) : Z :=
  sumZ ((fun e => uploadBytes e.2) <$> map_to_list result).

Definition downloaded (result : gmap string processData) : Z :=
  sumZ ((fun e => downloadBytes e.2) <$> map_to_list result).

Definition established_of (pid : Z) (tcpConns : list tcpRow) : nat :=
  length (filter (fun conn => OwningPid conn = pid /\ State conn = 5) tcpConns).

Definition other_tcp_of (pid : Z) (tcpConns : list tcpRow) : nat :=
  length (filter (fun conn => OwningPid conn = pid /\ State conn <> 5) tcpConns).

Definition udp_of (pid : Z) (udpConns : list udpRow) : nat :=
  length (filter (fun conn => UdpOwningPid conn = pid) udpConns).

(** Twice the weight of a pid: 10 per established TCP connection, 1 per
    other TCP connection, 0.5 per UDP endpoint. *)
Definition weight_halves (pid : Z) (tcpConns : list tcpRow) (udpConns : list udpRow) : Z :=
  20 * Z.of_nat (established_of pid tcpConns)
  + 2 * Z.of_nat (other_tcp_of pid tcpConns)
  + Z.of_nat (udp_of pid udpConns).

(** The pids that own a connection of either table. *)
Definition owners (tcpConns : list tcpRow) (udpConns : list udpRow) : list Z :=
  (OwningPid <$> tcpConns) ++ (UdpOwningPid <$> udpConns).

(** [s] is the integer part of a float64 within two roundings of the exact
    part [total * wh / WH]. *)
Definition proportional (total s wh WH : Z) : Prop :=
  0 <= s
  /\ (IZR s <= IZR total * (IZR wh / IZR WH) * ((1 + eps) * (1 + eps)))%R
  /\ (IZR total * (IZR wh / IZR WH) * ((1 - eps) * (1 - eps)) < IZR s + 1)%R.

(** Twice the total weight of both tables. *)
Definition total_weight_halves (tcpConns : list tcpRow) (udpConns : list udpRow) : Z :=
  total_halves (contributions tcpConns udpConns).

Definition conn (state pid : Z) : tcpRow :=
  {| State := state; LocalAddr := 0; LocalPort := 0;
     RemoteAddr := 0; RemotePort := 0; OwningPid := pid |}.

Definition endpoint (pid : Z) : udpRow :=
  {| UdpLocalAddr := 0; UdpLocalPort := 0; UdpOwningPid := pid |}.

(** A sampling with one interface that has sent [out] and received [inp]
    bytes so far. *)
Definition sampling (out inp : Z) (tcpConns : list tcpRow) (udpConns : list udpRow)
    (path : Z -> string) : system :=
  {| if_table_ret := 0;
     if_table := Some [ {| InOctets := inp; OutOctets := out |} ];
     tcp_stats := Ok tcpConns; udp_stats := Ok udpConns;
     getProcessPath := path |}.

Definition path_AB (pid : Z) : string :=
  if pid =? 100 then "A.exe" else if pid =? 200 then "B.exe" else "".

(** Two established TCP connections of pid 100 (A), one UDP endpoint of
    pid 200 (B), 1000 bytes up and 2000 bytes down. *)
Definition scenario_AB : system :=
  sampling 1000 2000 [conn 5 100; conn 5 100] [endpoint 200] path_AB.

Definition path_shared (pid : Z) : string :=
  if (pid =? 100) || (pid =? 200) then "chrome.exe" else "".

(** Two processes of one executable, one established connection each. *)
Definition scenario_shared : system :=
  sampling 1000 2000 [conn 5 100; conn 5 200] [] path_shared.

(** One process, and an upload counter that float64 cannot hold. *)
Definition scenario_large : system :=
  sampling (2 ^ 60 + 127) 0 [conn 5 100] [] path_AB.

Definition result_of (r : result (gmap string processData)) : gmap string processData :=
  match r with Ok m => m | Err _ => ∅ end.

End Attribution.

(** ** Sampling ticks over the life of an entry *)

Module Lifetime.
Import Float64 GoTime Counter Monitor Attribution.

Definition t0 : Time := 63900000000 * Second.

Definition pending : batchRecord :=
  {| appName := "app.exe"; recProcessID := 100; upload := 10; download := 20;
     timestamp := Unix t0; isTemporary := false; expiresAt := Unix (Add t0 (24 * Hour)) |}.

Definition no_faults : storage :=
  {| st_disk := {| Database.db_file_size := Some 4096; Database.free_bytes := Some (2 ^ 40) |};
     st_batch_fault := None; st_meta_fault := fun _ => None; st_summary_fault := None |}.

Definition scenario_first : system := sampling 1000 2000 [conn 5 100] [] path_AB.

Definition scenario_second : system := sampling 1300 2500 [conn 5 100] [] path_AB.

Definition path_ab (pid : Z) : string :=
  if pid =? 100 then "a.exe" else if pid =? 200 then "b.exe" else "".

(** Five bytes up and seven down; a.exe owns a listening socket (weight 1),
    b.exe an established connection (weight 10). *)
Definition scenario_idle : system := sampling 5 7 [conn 2 100; conn 5 200] [] path_ab.

Definition busy_before : Monitor :=
  {| db := None;
     stats := {[ "a.exe"%string :=
                 {| AppName := "a.exe"; ProcessID := 100; UploadSpeed := 100;
                    DownloadSpeed := 200; TotalUpload := 1000; TotalDownload := 2000;
                    LastUpdate := t0 |} ]};
     batch := []; paused := false; lastUpdate := t0; saveEnabled := true |}.

Definition zero_delta (data : processData) : bool :=
  (uploadBytes data =? 0) && (downloadBytes data =? 0).

(** The system counters fit float64 exactly and the tables are of a size
    their 32-bit entry count can give. *)
Definition sampling_in_range (os : system) : Prop :=
  (forall U D, getSystemNetworkIO os = Ok (U, D) -> 0 <= U < 2 ^ 53 /\ 0 <= D < 2 ^ 53)
  /\ (forall tcpConns, tcp_stats os = Ok tcpConns -> Z.of_nat (length tcpConns) < 2 ^ 32)
  /\ (forall udpConns, udp_stats os = Ok udpConns -> Z.of_nat (length udpConns) < 2 ^ 32).

(** No accumulator of the monitor leaves int64 when [processes] is added. *)
Definition no_overflow (processes : gmap string processData) (m : Monitor) : Prop :=
  forall name stat data,
    stats m !! name = Some stat -> processes !! name = Some data ->
    TotalUpload stat + uploadBytes data <= Int64.int64_max
    /\ TotalDownload stat + downloadBytes data <= Int64.int64_max.

(** Every total of the monitor is an int64. *)
Definition int64_totals (m : Monitor) : Prop :=
  forall name stat,
    stats m !! name = Some stat ->
    Int64.in_int64 (TotalUpload stat) /\ Int64.in_int64 (TotalDownload stat).

(** The operations on a running monitor, each [collect] in range. *)
Inductive op_step (rng : range_order) : Monitor -> Monitor -> Prop :=
| step_collect (os : system) (now : Time) (m : Monitor) :
    sampling_in_range os ->
    (forall processes, getNetworkProcesses rng os = Ok processes -> no_overflow processes m) ->
    op_step rng m (collect rng os now m).1
| step_cleanup (now : Time) (m : Monitor) :
    op_step rng m (cleanupInactive now m)
| step_flush (env : storage) (now : Z) (today : string) (m : Monitor) :
    op_step rng m (flushBatch rng env now today m)
| step_save (enabled : bool) (m : Monitor) :
    op_step rng m (SetSaveEnabled enabled m)
| step_pause (m : Monitor) : op_step rng m (Pause m)
| step_resume (m : Monitor) : op_step rng m (Resume m).

(** A stretch of the life of the entry [name]: operations one after the
    other, the entry being in the map before each of them. *)
Inductive lifetime (rng : range_order) (name : string) : Monitor -> Monitor -> Prop :=
| lifetime_start (m : Monitor) : lifetime rng name m m
| lifetime_step (m1 m2 m3 : Monitor) :
    lifetime rng name m1 m2 ->
    is_Some (stats m2 !! name) ->
    op_step rng m2 m3 ->
    lifetime rng name m1 m3.

(** The upload counter of the only interface stands at 2^62 bytes. *)
Definition scenario_huge : system := sampling (2 ^ 62) 0 [conn 5 100] [] path_AB.

Definition seen_once : Monitor :=
  (collect range_canonical scenario_first t0 (New None)).1.

End Lifetime.

(** ** The waits of the insertion loop *)

Module Retry.
Import GoTime Database.

(** The pauses between the five attempts. *)
Definition backoff_schedule : list Duration :=
  [50 * Millisecond; 100 * Millisecond; 200 * Millisecond; 400 * Millisecond].

End Retry.

(** ** Reading the daily summaries *)

Module Summaries.
Import Float64 Database.

(** A row of daily_summaries whose two totals are INTEGERs. *)
Definition readable (row : summary_row) : Prop :=
  exists upload download,
    total_upload row = Integer upload /\ total_download row = Integer download.

(** The summary that a Scan builds from a readable row. *)
Definition integer_of (c : cell) : Z :=
  match c with
  | Integer z => z
  | Real _ => 0
  end.

Definition summary_of (entry : string * summary_row) : DailySummary :=
  {| SummaryID := row_id entry.2; Date := entry.1;
     TotalUpload := integer_of (total_upload entry.2);
     TotalDownload := integer_of (total_download entry.2) |}.

(** An error of Scan for the examples: it names the column that holds the
    REAL. *)
Definition column_error (column : string) (x : f64) : error :=
  "sql: Scan error on column " +:+ column.

End Summaries.

(** ** The settings that hold the configuration *)

Module Settings.
Import Utils.

(** The keys in the order in which [Save] writes them, and the text it
    writes under each. *)
Definition saved_keys : list string :=
  ["autoStart"; "theme"; "dataRetention"; "networkInterface"]%string.

Definition saved_value (c : Config) (key : string) : string :=
  if String.eqb key "autoStart" then FormatBool (AutoStart c)
  else if String.eqb key "theme" then Theme c
  else if String.eqb key "dataRetention" then Itoa (DataRetention c)
  else NetworkInterface c.

Definition write_keys (c : Config) (keys : list string) (rows : gmap string string)
    : gmap string string :=
  fold_left (fun rows key => <[key := saved_value c key]> rows) keys rows.

(** The text that [LoadConfig] gets for a key: the empty string when the
    key is missing or cannot be read. *)
Definition setting_text (faults : string -> option error) (store : Database.DB)
    (key : string) : string :=
  match faults key with
  | Some _ => ""%string
  | None => default ""%string (Database.settings store !! key)
  end.

End Settings.

(** ** Batches and their rows *)

Module Batch.
Import GoTime Counter Monitor.

(** The record that [collect] appends at [now] for an entry of the
    sampling. *)
Definition record_of (now : Time) (entry : string * processData) : batchRecord :=
  {| appName := entry.1; recProcessID := processID entry.2;
     upload := uploadBytes entry.2; download := downloadBytes entry.2;
     timestamp := Unix now; isTemporary := false;
     expiresAt := Unix now + 86400 |}.

(** An entry of the sampling with traffic. *)
Definition active (entry : string * processData) : Prop :=
  ¬ (uploadBytes entry.2 = 0 /\ downloadBytes entry.2 = 0).

#[global] Instance active_dec (entry : string * processData) : Decision (active entry) :=
  decide (¬ (uploadBytes entry.2 = 0 /\ downloadBytes entry.2 = 0)).

(** The first record of the application [name] in a batch. *)
Definition first_record (name : string) (recs : list batchRecord) : option batchRecord :=
  snd <$> list_find (fun rec => appName rec = name) recs.

(** The usage rows that a flush appends to a table whose last id is [seq]. *)
Definition rows_of (seq : Z) (recs : list batchRecord) : list Database.UsageRecord :=
  imap (fun i rec => Database.stored_row (seq + Z.of_nat i) (to_usage_record rec)) recs.

End Batch.

(** * Properties of the embedding *)

(** ** float64 arithmetic

    The roundings performed by [SpecFloat] on normal numbers, as far as the
    attribution needs them: sums of small multiples of 0.5 are exact, and a
    division or multiplication is accurate to one unit in the last place. *)

Module Float64Facts.
Import Float64 Counter.

Lemma digits2_pos_bounds (m : positive) :
  2 ^ (Zpos (digits2_pos m) - 1) <= Zpos m < 2 ^ Zpos (digits2_pos m).
Proof.
  induction m as [p IH|p IH|]; simpl digits2_pos.
  - rewrite Pos2Z.inj_succ.
    replace (Z.succ (Z.pos (digits2_pos p)) - 1) with (Z.pos (digits2_pos p)) by lia.
    rewrite Z.pow_succ_r by lia.
    assert (H : 2 ^ Z.pos (digits2_pos p) = 2 * 2 ^ (Z.pos (digits2_pos p) - 1)).
    { rewrite <- Z.pow_succ_r by lia. f_equal. lia. }
    lia.
  - rewrite Pos2Z.inj_succ.
    replace (Z.succ (Z.pos (digits2_pos p)) - 1) with (Z.pos (digits2_pos p)) by lia.
    rewrite Z.pow_succ_r by lia.
    assert (H : 2 ^ Z.pos (digits2_pos p) = 2 * 2 ^ (Z.pos (digits2_pos p) - 1)).
    { rewrite <- Z.pow_succ_r by lia. f_equal. lia. }
    lia.
  - simpl. lia.
Qed.

Lemma digits2_pos_unique (m : positive) (d : Z) :
  2 ^ (d - 1) <= Zpos m < 2 ^ d -> Zpos (digits2_pos m) = d.
Proof.
  intros [Hlo Hhi].
  pose proof (digits2_pos_bounds m) as [Blo Bhi].
  assert (Hd : 0 < d).
  { destruct (Z_lt_le_dec 0 d) as [|Hn]; [done|].
    exfalso. assert (2 ^ d <= 1).
    { destruct (Z.eq_dec d 0) as [->|]; [simpl; lia|].
      rewrite Z.pow_neg_r by lia. lia. }
    lia. }
  destruct (Z_lt_le_dec (Zpos (digits2_pos m)) d) as [Hlt|Hge].
  - assert (2 ^ Zpos (digits2_pos m) <= 2 ^ (d - 1)) by (apply Z.pow_le_mono_r; lia).
    lia.
  - destruct (Z.eq_dec (Zpos (digits2_pos m)) d) as [|Hne]; [done|].
    assert (2 ^ d <= 2 ^ (Zpos (digits2_pos m) - 1)) by (apply Z.pow_le_mono_r; lia).
    lia.
Qed.

Ltac div_exact :=
  first [ apply Z.div_unique with (r := 0); nia
        | symmetry; apply Z.div_unique with (r := 0); nia ].

Lemma pow2_xO (p : positive) : 2 ^ Z.pos p~0 = 2 ^ Z.pos p * 2 ^ Z.pos p.
Proof.
  replace (Z.pos p~0) with (Z.pos p + Z.pos p) by lia.
  apply Z.pow_add_r; lia.
Qed.

Lemma pow2_xI (p : positive) : 2 ^ Z.pos p~1 = 2 * (2 ^ Z.pos p * 2 ^ Z.pos p).
Proof.
  replace (Z.pos p~1) with (1 + (Z.pos p + Z.pos p)) by lia.
  rewrite Z.pow_add_r, Z.pow_add_r by lia. done.
Qed.

(** One right shift halves a non-negative mantissa. *)
Lemma shr_1_m (mrs : shr_record) :
  0 <= shr_m mrs -> shr_m (shr_1 mrs) = shr_m mrs / 2.
Proof.
  destruct mrs as [m r s]; cbn [shr_m shr_1]. intros Hm.
  destruct m as [|[p|p|]|p]; cbn [shr_m]; try lia; try done.
  - rewrite Pos2Z.inj_xI. apply Z.div_unique with (r := 1); lia.
  - rewrite Pos2Z.inj_xO. apply Z.div_unique with (r := 0); lia.
Qed.

Lemma shr_1_exact (m : Z) :
  0 <= m -> m mod 2 = 0 ->
  shr_1 (Build_shr_record m false false) = Build_shr_record (m / 2) false false.
Proof.
  intros Hm Hev.
  destruct m as [|[p|p|]|p]; cbn [shr_1 orb]; try lia; try done.
  - rewrite Pos2Z.inj_xI in Hev.
    replace (2 * Z.pos p + 1) with (1 + Z.pos p * 2) in Hev by lia.
    rewrite Z.mod_add in Hev by lia. done.
  - f_equal. rewrite Pos2Z.inj_xO. apply Z.div_unique with (r := 0); lia.
Qed.

Lemma iter_pos_shr_m (p : positive) (mrs : shr_record) :
  0 <= shr_m mrs ->
  shr_m (SpecFloat.iter_pos shr_1 p mrs) = shr_m mrs / 2 ^ Zpos p.
Proof.
  revert mrs. induction p as [p IH|p IH|]; intros mrs Hm; cbn [SpecFloat.iter_pos].
  - assert (H1 : 0 <= shr_m (shr_1 mrs)).
    { rewrite shr_1_m by done. apply Z.div_pos; lia. }
    assert (H2 : 0 <= shr_m (SpecFloat.iter_pos shr_1 p (shr_1 mrs))).
    { rewrite IH by done. apply Z.div_pos; lia. }
    rewrite IH, IH, shr_1_m by done.
    rewrite !Z.div_div by lia.
    f_equal. rewrite pow2_xI. lia.
  - assert (H2 : 0 <= shr_m (SpecFloat.iter_pos shr_1 p mrs)).
    { rewrite IH by done. apply Z.div_pos; lia. }
    rewrite IH, IH by done.
    rewrite !Z.div_div by lia.
    f_equal. rewrite pow2_xO. lia.
  - rewrite shr_1_m by done. done.
Qed.

Lemma iter_pos_shr_exact (p : positive) (m : Z) :
  0 <= m -> m mod 2 ^ Zpos p = 0 ->
  SpecFloat.iter_pos shr_1 p (Build_shr_record m false false)
  = Build_shr_record (m / 2 ^ Zpos p) false false.
Proof.
  revert m. induction p as [p IH|p IH|]; intros m Hm Hdiv; cbn [SpecFloat.iter_pos].
  - assert (E : 2 ^ Z.pos p~1 = 2 * (2 ^ Z.pos p * 2 ^ Z.pos p)).
    { apply pow2_xI. }
    assert (Hp : 0 < 2 ^ Z.pos p) by (apply Z.pow_pos_nonneg; lia).
    rewrite E in Hdiv.
    apply Z.mod_divide in Hdiv; [|lia]. destruct Hdiv as [k ->].
    rewrite shr_1_exact.
    2: lia.
    2: { replace (k * (2 * (2 ^ Z.pos p * 2 ^ Z.pos p))) with (k * (2 ^ Z.pos p * 2 ^ Z.pos p) * 2) by lia.
         apply Z.mod_mul. lia. }
    replace (k * (2 * (2 ^ Z.pos p * 2 ^ Z.pos p)) / 2) with (k * 2 ^ Z.pos p * 2 ^ Z.pos p).
    2: { apply Z.div_unique with (r := 0); lia. }
    rewrite IH.
    2: nia.
    2: apply Z.mod_mul; lia.
    rewrite Z.div_mul by lia.
    rewrite IH.
    2: nia.
    2: apply Z.mod_mul; lia.
    rewrite Z.div_mul by lia.
    f_equal. rewrite E. div_exact.
  - assert (E : 2 ^ Z.pos p~0 = 2 ^ Z.pos p * 2 ^ Z.pos p).
    { apply pow2_xO. }
    assert (Hp : 0 < 2 ^ Z.pos p) by (apply Z.pow_pos_nonneg; lia).
    rewrite E in Hdiv.
    apply Z.mod_divide in Hdiv; [|lia]. destruct Hdiv as [k ->].
    replace (k * (2 ^ Z.pos p * 2 ^ Z.pos p)) with (k * 2 ^ Z.pos p * 2 ^ Z.pos p) by lia.
    rewrite IH.
    2: nia.
    2: apply Z.mod_mul; lia.
    rewrite Z.div_mul by lia.
    rewrite IH.
    2: nia.
    2: apply Z.mod_mul; lia.
    rewrite Z.div_mul by lia.
    f_equal. rewrite E. div_exact.
  - change (2 ^ 1) with 2 in *. apply shr_1_exact; done.
Qed.

Lemma fexp_normal (d : Z) : -1021 <= d -> fexp 53 1024 d = d - 53.
Proof. unfold fexp, emin. lia. Qed.

Lemma shr_m_of_loc (m : Z) (l : location) : shr_m (shr_record_of_loc m l) = m.
Proof. destruct l as [|[]]; done. Qed.

Lemma round_nearest_even_cases (m : Z) (l : location) :
  round_nearest_even m l = m \/ round_nearest_even m l = m + 1.
Proof. destruct l as [|[]]; simpl; auto. destruct (Z.even m); auto. Qed.

Lemma F2R_shift (m e k : Z) : 0 <= k -> F2R (m * 2 ^ k) e = F2R m (e + k).
Proof.
  intros Hk. unfold F2R.
  rewrite mult_IZR, powerRZ_add by lra.
  rewrite (Rmult_comm (powerRZ 2 e)), <- Rmult_assoc. f_equal. f_equal.
  rewrite <- (Z2Nat.id k) at 1 by done.
  rewrite <- pow_IZR, pow_powerRZ. rewrite Z2Nat.id by done. done.
Qed.

(** The first alignment of [binary_round_aux] on a mantissa of at least 53
    bits, away from the subnormal range: the mantissa is cut to 53 bits. *)
Lemma shr_fexp_normal (pm : positive) (e : Z) (l : location) :
  53 <= Zpos (digits2_pos pm) ->
  -1021 <= Zpos (digits2_pos pm) + e ->
  exists mrs,
    shr_fexp 53 1024 (Zpos pm) e l = (mrs, e + (Zpos (digits2_pos pm) - 53))
    /\ shr_m mrs = Zpos pm / 2 ^ (Zpos (digits2_pos pm) - 53)
    /\ (Zpos (digits2_pos pm) = 53 -> mrs = shr_record_of_loc (Zpos pm) l).
Proof.
  intros Hd He. unfold shr_fexp. cbn [Zdigits2].
  rewrite fexp_normal by done.
  replace (Z.pos (digits2_pos pm) + e - 53 - e) with (Z.pos (digits2_pos pm) - 53) by lia.
  destruct (Z.pos (digits2_pos pm) - 53) as [|n|n] eqn:En; try lia.
  - eexists. split; [|split].
    + cbn [shr]. f_equal. lia.
    + rewrite shr_m_of_loc. change (2 ^ 0) with 1. rewrite Z.div_1_r. done.
    + done.
  - eexists. split; [|split].
    + cbn [shr]. done.
    + rewrite iter_pos_shr_m by (rewrite shr_m_of_loc; lia).
      rewrite shr_m_of_loc. done.
    + lia.
Qed.

Lemma normal_quotient (pm : positive) :
  53 <= Zpos (digits2_pos pm) ->
  2 ^ 52 <= Zpos pm / 2 ^ (Zpos (digits2_pos pm) - 53) < 2 ^ 53.
Proof.
  intros Hd. pose proof (digits2_pos_bounds pm) as [Hlo Hhi].
  set (d := Zpos (digits2_pos pm)) in *.
  assert (Hp : 0 < 2 ^ (d - 53)) by (apply Z.pow_pos_nonneg; lia).
  assert (E1 : 2 ^ (d - 1) = 2 ^ 52 * 2 ^ (d - 53)).
  { rewrite <- Z.pow_add_r by lia. f_equal. lia. }
  assert (E2 : 2 ^ d = 2 ^ 53 * 2 ^ (d - 53)).
  { rewrite <- Z.pow_add_r by lia. f_equal. lia. }
  split.
  - apply Z.div_le_lower_bound; lia.
  - apply Z.div_lt_upper_bound; lia.
Qed.

Lemma shr_fexp_canonical (pm : positive) (e : Z) (l : location) :
  2 ^ 52 <= Zpos pm < 2 ^ 53 -> -1074 <= e ->
  shr_fexp 53 1024 (Zpos pm) e l = (shr_record_of_loc (Zpos pm) l, e).
Proof.
  intros Hm He.
  assert (Hd : Zpos (digits2_pos pm) = 53) by (apply digits2_pos_unique; done).
  destruct (shr_fexp_normal pm e l) as (mrs & -> & _ & Hrec); [lia|lia|].
  rewrite (Hrec Hd), Hd. f_equal. lia.
Qed.

(** A 53-bit mantissa with an exact location is left as it is. *)
Lemma round_aux_canonical (sx : bool) (pm : positive) (e : Z) :
  2 ^ 52 <= Zpos pm < 2 ^ 53 -> -1074 <= e <= 971 ->
  binary_round_aux 53 1024 sx (Zpos pm) e loc_Exact = S754_finite sx pm e.
Proof.
  intros Hm He.
  assert (Hd : Zpos (digits2_pos pm) = 53) by (apply digits2_pos_unique; done).
  unfold binary_round_aux.
  destruct (shr_fexp_normal pm e loc_Exact) as (mrs & -> & _ & Hrec); [lia|lia|].
  rewrite (Hrec Hd). cbn [shr_record_of_loc shr_m loc_of_shr_record round_nearest_even].
  rewrite Hd. replace (e + (53 - 53)) with e by lia.
  destruct (shr_fexp_normal pm e loc_Exact) as (mrs' & -> & _ & Hrec'); [lia|lia|].
  rewrite (Hrec' Hd). cbn [shr_record_of_loc shr_m].
  rewrite Hd. replace (e + (53 - 53)) with e by lia.
  replace (e <=? 1024 - 53) with true by (symmetry; apply Z.leb_le; lia).
  done.
Qed.

(** Rounding a mantissa of at least 53 bits: the result is a normal float
    whose value is the 53-bit truncation or its successor. *)
Lemma round_aux_normal (sx : bool) (pm : positive) (e : Z) (l : location) :
  53 <= Zpos (digits2_pos pm) ->
  -1021 <= Zpos (digits2_pos pm) + e <= 1023 ->
  exists (m' : positive) (e' : Z),
    binary_round_aux 53 1024 sx (Zpos pm) e l = S754_finite sx m' e'
    /\ 2 ^ 52 <= Zpos m' < 2 ^ 53
    /\ e + (Zpos (digits2_pos pm) - 53) <= e' <= e + (Zpos (digits2_pos pm) - 53) + 1
    /\ (F2R (Zpos m') e'
        = F2R (Zpos pm / 2 ^ (Zpos (digits2_pos pm) - 53)) (e + (Zpos (digits2_pos pm) - 53))
        \/ F2R (Zpos m') e'
        = F2R (Zpos pm / 2 ^ (Zpos (digits2_pos pm) - 53) + 1) (e + (Zpos (digits2_pos pm) - 53))).
Proof.
  intros Hd He.
  pose proof (normal_quotient pm Hd) as Hq.
  unfold binary_round_aux.
  destruct (shr_fexp_normal pm e l) as (mrs & -> & Hm1 & _); [lia|lia|].
  set (e1 := e + (Zpos (digits2_pos pm) - 53)) in *.
  set (m1 := Zpos pm / 2 ^ (Zpos (digits2_pos pm) - 53)) in *.
  rewrite Hm1.
  destruct (round_nearest_even_cases m1 (loc_of_shr_record mrs)) as [-> | ->].
  - destruct m1 as [|p1|p1] eqn:E1; try lia.
    assert (Hd1 : Zpos (digits2_pos p1) = 53) by (apply digits2_pos_unique; done).
    destruct (shr_fexp_normal p1 e1 loc_Exact) as (mrs' & -> & _ & Hrec); [lia|lia|].
    rewrite (Hrec Hd1). cbn [shr_record_of_loc shr_m]. rewrite Hd1.
    replace (e1 + (53 - 53)) with e1 by lia.
    replace (e1 <=? 1024 - 53) with true by (symmetry; apply Z.leb_le; lia).
    exists p1, e1. subst e1. repeat split; try lia. left. done.
  - destruct (Z.eq_dec (m1 + 1) (2 ^ 53)) as [Heq|Hne].
    + rewrite Heq. 
      assert (Hsh : shr_fexp 53 1024 (2 ^ 53) e1 loc_Exact
                    = (Build_shr_record (2 ^ 52) false false, e1 + 1)).
      { unfold shr_fexp. change (Zdigits2 (2 ^ 53)) with 54.
        rewrite fexp_normal by lia.
        replace (54 + e1 - 53 - e1) with 1 by lia. done. }
      rewrite Hsh. cbn [shr_m]. change (2 ^ 52) with (Zpos (Pos.pow 2 52)).
      replace (e1 + 1 <=? 1024 - 53) with true by (symmetry; apply Z.leb_le; lia).
      eexists _, _. split; [done|]. subst e1. repeat split; try lia.
      right. change (2 ^ 53) with (2 ^ 52 * 2 ^ 1).
      rewrite F2R_shift by lia. done.
    + destruct (m1 + 1) as [|p2|p2] eqn:E2; try lia.
      assert (Hd2 : Zpos (digits2_pos p2) = 53) by (apply digits2_pos_unique; lia).
      destruct (shr_fexp_normal p2 e1 loc_Exact) as (mrs' & -> & _ & Hrec); [lia|lia|].
      rewrite (Hrec Hd2). cbn [shr_record_of_loc shr_m]. rewrite Hd2.
      replace (e1 + (53 - 53)) with e1 by lia.
      replace (e1 <=? 1024 - 53) with true by (symmetry; apply Z.leb_le; lia).
      exists p2, e1. subst e1. repeat split; try lia. right. done.
Qed.

Lemma powerRZ_2_pos (e : Z) : (0 < powerRZ 2 e)%R.
Proof. apply powerRZ_lt. lra. Qed.

Lemma F2R_le (m m' e : Z) : m <= m' -> (F2R m e <= F2R m' e)%R.
Proof.
  intros H. unfold F2R. apply Rmult_le_compat_r.
  - left. apply powerRZ_2_pos.
  - apply IZR_le. done.
Qed.

Lemma F2R_succ (m e : Z) : (F2R (m + 1) e = F2R m e + powerRZ 2 e)%R.
Proof. unfold F2R. rewrite plus_IZR. lra. Qed.

(** Relative accuracy of [binary_round_aux]: when the exact value [x] lies
    between the mantissa and its successor, the rounded float is within one
    unit in the last place of [x]. *)
Lemma round_aux_value (sx : bool) (pm : positive) (e : Z) (l : location) (x : R) :
  53 <= Zpos (digits2_pos pm) ->
  -1021 <= Zpos (digits2_pos pm) + e <= 1023 ->
  (F2R (Zpos pm) e <= x < F2R (Zpos pm + 1) e)%R ->
  exists (m' : positive) (e' : Z),
    binary_round_aux 53 1024 sx (Zpos pm) e l = S754_finite sx m' e'
    /\ 2 ^ 52 <= Zpos m' < 2 ^ 53
    /\ e + (Zpos (digits2_pos pm) - 53) <= e' <= e + (Zpos (digits2_pos pm) - 53) + 1
    /\ (x * (1 - eps) <= F2R (Zpos m') e' <= x * (1 + eps))%R.
Proof.
  intros Hd He Hx.
  destruct (round_aux_normal sx pm e l Hd He) as (m' & e' & Hr & Hm' & He' & Hv).
  exists m', e'. split; [done|]. split; [done|]. split; [done|].
  pose proof (normal_quotient pm Hd) as Hq.
  set (n := Zpos (digits2_pos pm) - 53) in *.
  set (m1 := Zpos pm / 2 ^ n) in *.
  assert (Hp : 0 < 2 ^ n) by (apply Z.pow_pos_nonneg; lia).
  assert (Hlo : m1 * 2 ^ n <= Zpos pm).
  { pose proof (Z.mul_div_le (Zpos pm) (2 ^ n) Hp). lia. }
  assert (Hhi : Zpos pm + 1 <= (m1 + 1) * 2 ^ n).
  { pose proof (Z.mul_succ_div_gt (Zpos pm) (2 ^ n) Hp). unfold m1. lia. }
  assert (B1 : (F2R m1 (e + n) <= x)%R).
  { rewrite <- F2R_shift by lia. etransitivity; [apply F2R_le, Hlo|]. apply Hx. }
  assert (B2 : (x <= F2R (m1 + 1) (e + n))%R).
  { rewrite <- F2R_shift by lia. etransitivity; [|apply F2R_le, Hhi]. left. apply Hx. }
  rewrite F2R_succ in B2, Hv.
  assert (B3 : (IZR (2 ^ 52) * powerRZ 2 (e + n) <= F2R m1 (e + n))%R).
  { apply F2R_le. lia. }
  pose proof (powerRZ_2_pos (e + n)) as Hu.
  unfold eps.
  assert (H52 : (0 < IZR (2 ^ 52))%R) by (apply IZR_lt; lia).
  assert (Hux : (powerRZ 2 (e + n) <= x * / IZR (2 ^ 52))%R).
  { apply (Rmult_le_reg_r (IZR (2 ^ 52))); [done|].
    rewrite Rmult_assoc, Rinv_l by lra. lra. }
  destruct Hv as [-> | ->]; lra.
Qed.

Lemma shl_pos (m d : positive) : Zpos (Pos.iter xO m d) = Zpos m * 2 ^ Zpos d.
Proof.
  induction d as [|d IH] using Pos.peano_ind.
  - simpl. lia.
  - rewrite Pos.iter_succ, Pos2Z.inj_xO, IH, Pos2Z.inj_succ, Z.pow_succ_r by lia. lia.
Qed.

Lemma digits_shift (pm : positive) (k d : Z) (q : positive) :
  0 <= k -> Zpos q = Zpos pm * 2 ^ k -> Zpos (digits2_pos pm) = d ->
  Zpos (digits2_pos q) = d + k.
Proof.
  intros Hk Hq Hd. apply digits2_pos_unique.
  pose proof (digits2_pos_bounds pm) as [Hlo Hhi]. rewrite Hd in Hlo, Hhi.
  assert (Hp : 0 < 2 ^ k) by (apply Z.pow_pos_nonneg; lia).
  assert (0 < d) by lia.
  replace (d + k - 1) with (d - 1 + k) by lia.
  rewrite !Z.pow_add_r by lia. rewrite Hq. nia.
Qed.

(** An exactly representable value is produced as its canonical float. *)
Lemma round_aux_exact (sx : bool) (pm : positive) (e : Z) (M : positive) (E : Z) :
  2 ^ 52 <= Zpos M < 2 ^ 53 -> -1074 <= E <= 971 -> e <= E ->
  Zpos pm = Zpos M * 2 ^ (E - e) ->
  binary_round_aux 53 1024 sx (Zpos pm) e loc_Exact = S754_finite sx M E.
Proof.
  intros HM HE Hle Hpm.
  assert (HdM : Zpos (digits2_pos M) = 53) by (apply digits2_pos_unique; done).
  assert (Hd : Zpos (digits2_pos pm) = 53 + (E - e)).
  { apply (digits_shift M (E - e) 53); [lia|done|done]. }
  destruct (Z.eq_dec E e) as [->|Hne].
  - replace (e - e) with 0 in Hpm by lia. change (2 ^ 0) with 1 in Hpm.
    assert (pm = M) by lia. subst pm. apply round_aux_canonical; done.
  - unfold binary_round_aux.
    assert (Hsh : shr_fexp 53 1024 (Zpos pm) e loc_Exact
                  = (Build_shr_record (Zpos M) false false, E)).
    { unfold shr_fexp. cbn [Zdigits2]. rewrite Hd, fexp_normal by lia.
      replace (53 + (E - e) + e - 53 - e) with (E - e) by lia.
      destruct (E - e) as [|n|n] eqn:En; try lia.
      cbn [shr shr_record_of_loc]. rewrite iter_pos_shr_exact.
      - rewrite Hpm, Z.div_mul by (apply Z.pow_nonzero; lia). f_equal. lia.
      - lia.
      - rewrite Hpm. apply Z.mod_mul. apply Z.pow_nonzero; lia. }
    rewrite Hsh. cbn [shr_m loc_of_shr_record round_nearest_even].
    rewrite shr_fexp_canonical by lia. cbn [shr_record_of_loc shr_m].
    replace (E <=? 1024 - 53) with true by (symmetry; apply Z.leb_le; lia).
    done.
Qed.

Lemma binary_round_exact (sx : bool) (pm : positive) (e : Z) (M : positive) (E : Z) :
  2 ^ 52 <= Zpos M < 2 ^ 53 -> -1074 <= E <= 971 ->
  (E <= e /\ Zpos M = Zpos pm * 2 ^ (e - E)) \/ (e <= E /\ Zpos pm = Zpos M * 2 ^ (E - e)) ->
  binary_round 53 1024 sx pm e = S754_finite sx M E.
Proof.
  intros HM HE Hcase.
  assert (HdM : Zpos (digits2_pos M) = 53) by (apply digits2_pos_unique; done).
  assert (Hd : Zpos (digits2_pos pm) + e = 53 + E).
  { destruct Hcase as [[Hle Heq] | [Hle Heq]].
    - pose proof (digits_shift pm (e - E) _ M ltac:(lia) Heq eq_refl). lia.
    - pose proof (digits_shift M (E - e) _ pm ltac:(lia) Heq eq_refl). lia. }
  unfold binary_round. rewrite Hd, fexp_normal by lia.
  replace (53 + E - 53) with E by lia.
  unfold shl_align.
  destruct (E - e) as [|n|n] eqn:En.
  - apply round_aux_exact; try done; try lia.
    destruct Hcase as [[Hle Heq] | [Hle Heq]].
    + replace (e - E) with 0 in Heq by lia. replace (E - e) with 0 by lia. lia.
    + replace (E - e) with 0 in * by lia. lia.
  - apply round_aux_exact; try done; try lia.
    destruct Hcase as [[Hle Heq] | [Hle Heq]]; [lia|].
    rewrite Heq. f_equal. f_equal. lia.
  - destruct Hcase as [[Hle Heq] | [Hle Heq]]; [|lia].
    assert (Pos.iter xO pm n = M) as ->.
    { apply Pos2Z.inj. rewrite shl_pos, Heq. f_equal. f_equal. lia. }
    apply round_aux_canonical; done.
Qed.

Lemma canonical_exists (h : Z) :
  0 < h < 2 ^ 53 ->
  exists (M : positive) (k : Z),
    0 <= k <= 52 /\ Zpos M = h * 2 ^ k /\ 2 ^ 52 <= Zpos M < 2 ^ 53.
Proof.
  intros Hh. destruct h as [|p|p]; try lia.
  pose proof (digits2_pos_bounds p) as [Hlo Hhi].
  set (d := Zpos (digits2_pos p)) in *.
  assert (Hd : 1 <= d <= 53).
  { split; [unfold d; lia|].
    destruct (Z_lt_le_dec 53 d) as [Hgt|]; [|done].
    assert (2 ^ 53 <= 2 ^ (d - 1)) by (apply Z.pow_le_mono_r; lia). lia. }
  assert (Hp : 0 < 2 ^ (53 - d)) by (apply Z.pow_pos_nonneg; lia).
  assert (E1 : 2 ^ (d - 1) * 2 ^ (53 - d) = 2 ^ 52).
  { rewrite <- Z.pow_add_r by lia. f_equal. lia. }
  assert (E2 : 2 ^ d * 2 ^ (53 - d) = 2 ^ 53).
  { rewrite <- Z.pow_add_r by lia. f_equal. lia. }
  assert (Hpos : 0 < Zpos p * 2 ^ (53 - d)) by lia.
  destruct (Zpos p * 2 ^ (53 - d)) as [|M|M] eqn:EM; try lia.
  exists M, (53 - d). split; [lia|]. split; [done|]. nia.
Qed.

Lemma f64_of_halves_canonical (h : Z) (M : positive) (k : Z) :
  0 < h -> 0 <= k <= 52 -> Zpos M = h * 2 ^ k -> 2 ^ 52 <= Zpos M < 2 ^ 53 ->
  f64_of_halves h = S754_finite false M (- 1 - k).
Proof.
  intros Hh Hk HM HMb. destruct h as [|p|p]; try lia.
  unfold f64_of_halves. cbn [binary_normalize].
  apply binary_round_exact; [done|lia|].
  left. split; [lia|]. rewrite HM. f_equal. f_equal. lia.
Qed.

Lemma f64_of_int64_canonical (n : Z) (M : positive) (k : Z) :
  0 < n -> 0 <= k <= 52 -> Zpos M = n * 2 ^ k -> 2 ^ 52 <= Zpos M < 2 ^ 53 ->
  f64_of_int64 n = S754_finite false M (- k).
Proof.
  intros Hh Hk HM HMb. destruct n as [|p|p]; try lia.
  unfold f64_of_int64. cbn [binary_normalize].
  apply binary_round_exact; [done|lia|].
  left. split; [lia|]. rewrite HM. f_equal. f_equal. lia.
Qed.

Lemma shl_align_fst (mx : positive) (ex ez : Z) :
  ez <= ex -> Zpos (fst (shl_align mx ex ez)) = Zpos mx * 2 ^ (ex - ez).
Proof.
  intros Hle. unfold shl_align.
  destruct (ez - ex) as [|n|n] eqn:En; try lia.
  - replace (ex - ez) with 0 by lia. simpl fst. lia.
  - cbn [fst]. rewrite shl_pos. f_equal. f_equal. lia.
Qed.

(** Sums of half-integers below 2^53 are exact in float64. *)
Lemma f64_add_halves (a b : Z) :
  0 <= a -> 0 <= b -> a + b < 2 ^ 53 ->
  f64_add (f64_of_halves a) (f64_of_halves b) = f64_of_halves (a + b).
Proof.
  intros Ha Hb Hab.
  destruct (Z.eq_dec a 0) as [->|Hna].
  { destruct (Z.eq_dec b 0) as [->|Hnb]; [done|].
    destruct (canonical_exists b) as (Mb & kb & Hkb & HMb & HBb); [lia|].
    rewrite Z.add_0_l, (f64_of_halves_canonical b Mb kb) by (done || lia). done. }
  destruct (canonical_exists a) as (Ma & ka & Hka & HMa & HBa); [lia|].
  rewrite (f64_of_halves_canonical a Ma ka) by (done || lia).
  destruct (Z.eq_dec b 0) as [->|Hnb].
  { rewrite Z.add_0_r, (f64_of_halves_canonical a Ma ka) by (done || lia). done. }
  destruct (canonical_exists b) as (Mb & kb & Hkb & HMb & HBb); [lia|].
  rewrite (f64_of_halves_canonical b Mb kb) by (done || lia).
  destruct (canonical_exists (a + b)) as (Mc & kc & Hkc & HMc & HBc); [lia|].
  rewrite (f64_of_halves_canonical (a + b) Mc kc) by (done || lia).
  assert (Hca : kc <= ka).
  { destruct (Z_lt_le_dec ka kc) as [Hlt|]; [|done]. exfalso.
    assert (2 * 2 ^ ka <= 2 ^ kc).
    { rewrite <- Z.pow_succ_r by lia. apply Z.pow_le_mono_r; lia. }
    assert (0 < 2 ^ ka) by (apply Z.pow_pos_nonneg; lia). nia. }
  assert (Hcb : kc <= kb).
  { destruct (Z_lt_le_dec kb kc) as [Hlt|]; [|done]. exfalso.
    assert (2 * 2 ^ kb <= 2 ^ kc).
    { rewrite <- Z.pow_succ_r by lia. apply Z.pow_le_mono_r; lia. }
    assert (0 < 2 ^ kb) by (apply Z.pow_pos_nonneg; lia). nia. }
  unfold f64_add, SFadd. cbn [cond_Zopp].
  set (ez := Z.min (-1 - ka) (-1 - kb)).
  rewrite !shl_align_fst by (unfold ez; lia).
  set (K := - 1 - ez).
  assert (HK : kc <= K /\ ka <= K /\ kb <= K) by (unfold K, ez; lia).
  assert (Ea : Zpos Ma * 2 ^ (-1 - ka - ez) = a * 2 ^ K).
  { rewrite HMa, <- Z.mul_assoc, <- Z.pow_add_r by lia. f_equal. f_equal. lia. }
  assert (Eb : Zpos Mb * 2 ^ (-1 - kb - ez) = b * 2 ^ K).
  { rewrite HMb, <- Z.mul_assoc, <- Z.pow_add_r by lia. f_equal. f_equal. lia. }
  rewrite Ea, Eb.
  assert (HKp : 0 < 2 ^ K) by (apply Z.pow_pos_nonneg; lia).
  assert (HaK : 0 < a * 2 ^ K) by (apply Z.mul_pos_pos; lia).
  assert (HbK : 0 < b * 2 ^ K) by (apply Z.mul_pos_pos; lia).
  destruct (a * 2 ^ K + b * 2 ^ K) as [|ps|ps] eqn:Es; try lia.
  cbn [binary_normalize].
  apply binary_round_exact; [done|lia|].
  right. split; [lia|].
  rewrite HMc, <- Z.mul_assoc, <- Z.pow_add_r by lia.
  replace (kc + (-1 - kc - ez)) with K by lia. lia.
Qed.

Lemma eps_bounds : (0 < eps < 1)%R.
Proof.
  unfold eps. assert (H : (1 < IZR (2 ^ 52))%R) by (apply IZR_lt; lia).
  split.
  - apply Rinv_0_lt_compat. lra.
  - rewrite <- Rinv_1. apply Rinv_lt_contravar; lra.
Qed.

Lemma F2R_pos (m : positive) (e : Z) : (0 < F2R (Zpos m) e)%R.
Proof.
  unfold F2R. apply Rmult_lt_0_compat; [apply IZR_lt; lia|apply powerRZ_2_pos].
Qed.

Lemma F2R_mul (m1 e1 m2 e2 : Z) :
  (F2R m1 e1 * F2R m2 e2 = F2R (m1 * m2) (e1 + e2))%R.
Proof. unfold F2R. rewrite mult_IZR, powerRZ_add by lra. lra. Qed.

Lemma digits_of_range (pm : positive) (lo hi : Z) :
  0 <= lo <= hi -> 2 ^ lo <= Zpos pm < 2 ^ hi ->
  lo + 1 <= Zpos (digits2_pos pm) <= hi.
Proof.
  intros Hr [Hlo Hhi]. pose proof (digits2_pos_bounds pm) as [Blo Bhi].
  split.
  - destruct (Z_lt_le_dec lo (Zpos (digits2_pos pm))) as [|Hle]; [lia|]. exfalso.
    assert (2 ^ Zpos (digits2_pos pm) <= 2 ^ lo) by (apply Z.pow_le_mono_r; lia).
    lia.
  - destruct (Z_lt_le_dec hi (Zpos (digits2_pos pm))) as [Hlt|]; [|lia]. exfalso.
    assert (2 ^ hi <= 2 ^ (Zpos (digits2_pos pm) - 1)) by (apply Z.pow_le_mono_r; lia).
    lia.
Qed.

(** Multiplication of two positive normal floats, away from overflow and
    underflow: the product is normal and accurate to one unit in the last
    place. *)
Lemma f64_mul_value (mx my : positive) (ex ey : Z) :
  2 ^ 52 <= Zpos mx < 2 ^ 53 -> 2 ^ 52 <= Zpos my < 2 ^ 53 ->
  -1000 <= ex + ey <= 900 ->
  exists (m' : positive) (e' : Z),
    f64_mul (S754_finite false mx ex) (S754_finite false my ey) = S754_finite false m' e'
    /\ 2 ^ 52 <= Zpos m' < 2 ^ 53
    /\ ex + ey + 52 <= e' <= ex + ey + 54
    /\ (F2R (Zpos mx) ex * F2R (Zpos my) ey * (1 - eps) <= F2R (Zpos m') e'
        <= F2R (Zpos mx) ex * F2R (Zpos my) ey * (1 + eps))%R.
Proof.
  intros Hx Hy He. unfold f64_mul, SFmul. cbn [xorb].
  assert (Hd : 105 <= Zpos (digits2_pos (mx * my)) <= 106).
  { apply (digits_of_range (mx * my) 104 106); [lia|].
    rewrite Pos2Z.inj_mul.
    change (2 ^ 104) with (2 ^ 52 * 2 ^ 52). change (2 ^ 106) with (2 ^ 53 * 2 ^ 53).
    nia. }
  destruct (round_aux_value false (mx * my) (ex + ey) loc_Exact
              (F2R (Zpos mx) ex * F2R (Zpos my) ey)%R)
    as (m' & e' & Hr & Hm' & He' & Hv); [lia|lia| |].
  { rewrite F2R_mul, <- Pos2Z.inj_mul. split; [lra|].
    rewrite F2R_succ. pose proof (powerRZ_2_pos (ex + ey)). lra. }
  exists m', e'. split; [done|]. split; [done|]. split; [lia|done].
Qed.

Lemma div_core_normal (mx my : positive) (ex ey : Z) :
  2 ^ 52 <= Zpos mx < 2 ^ 53 -> 2 ^ 52 <= Zpos my < 2 ^ 53 ->
  -1021 <= ex - ey ->
  exists l,
    SFdiv_core_binary 53 1024 (Zpos mx) ex (Zpos my) ey
    = (Zpos mx * 2 ^ 53 / Zpos my, ex - ey - 53, l).
Proof.
  intros Hx Hy He. unfold SFdiv_core_binary. cbn [Zdigits2].
  rewrite (digits2_pos_unique mx 53), (digits2_pos_unique my 53) by done.
  replace (53 + ex - (53 + ey)) with (ex - ey) by lia.
  rewrite fexp_normal by done.
  rewrite Z.min_l by lia.
  replace (ex - ey - (ex - ey - 53)) with 53 by lia.
  cbv iota. rewrite Z.shiftl_mul_pow2 by lia.
  unfold Z.div.
  destruct (Z.div_eucl (Zpos mx * 2 ^ 53) (Zpos my)) as [q r].
  eexists. done.
Qed.

(** Division of two positive normal floats. *)
Lemma f64_div_value (mx my : positive) (ex ey : Z) :
  2 ^ 52 <= Zpos mx < 2 ^ 53 -> 2 ^ 52 <= Zpos my < 2 ^ 53 ->
  -900 <= ex - ey <= 900 ->
  exists (m' : positive) (e' : Z),
    f64_div (S754_finite false mx ex) (S754_finite false my ey) = S754_finite false m' e'
    /\ 2 ^ 52 <= Zpos m' < 2 ^ 53
    /\ ex - ey - 53 <= e' <= ex - ey - 51
    /\ (F2R (Zpos mx) ex / F2R (Zpos my) ey * (1 - eps) <= F2R (Zpos m') e'
        <= F2R (Zpos mx) ex / F2R (Zpos my) ey * (1 + eps))%R.
Proof.
  intros Hx Hy He. unfold f64_div, SFdiv. cbn [xorb].
  destruct (div_core_normal mx my ex ey Hx Hy) as (l & ->); [lia|].
  set (q := Zpos mx * 2 ^ 53 / Zpos my).
  assert (Hq : Zpos my * q <= Zpos mx * 2 ^ 53 < Zpos my * (q + 1)).
  { split.
    - apply Z.mul_div_le. lia.
    - replace (q + 1) with (Z.succ q) by lia. apply Z.mul_succ_div_gt. lia. }
  assert (Hqb : 2 ^ 52 <= q < 2 ^ 54).
  { split.
    - apply Z.div_le_lower_bound; [lia|]. nia.
    - apply Z.div_lt_upper_bound; [lia|].
      change (2 ^ 54) with (2 * 2 ^ 53). nia. }
  destruct q as [|pq|pq] eqn:Eq; try lia.
  assert (Hd : 53 <= Zpos (digits2_pos pq) <= 54).
  { apply (digits_of_range pq 52 54); [lia|done]. }
  destruct (round_aux_value false pq (ex - ey - 53) l
              (F2R (Zpos mx) ex / F2R (Zpos my) ey)%R)
    as (m' & e' & Hr & Hm' & He' & Hv); [lia|lia| |].
  { unfold F2R.
    pose proof (powerRZ_2_pos ex) as Pex. pose proof (powerRZ_2_pos ey) as Pey.
    assert (Pmy : (0 < IZR (Zpos my))%R) by (apply IZR_lt; lia).
    assert (E : (IZR (Z.pos mx) * powerRZ 2 ex / (IZR (Z.pos my) * powerRZ 2 ey)
                 = IZR (Zpos mx * 2 ^ 53) / IZR (Zpos my) * powerRZ 2 (ex - ey - 53))%R).
    { replace (ex - ey - 53) with (ex + (- ey + - 53)) by lia.
      rewrite !powerRZ_add by lra. rewrite mult_IZR.
      rewrite powerRZ_neg' by lra.
      assert (H53 : (IZR (2 ^ 53) * powerRZ 2 (-53) = 1)%R).
      { change (IZR (2 ^ 53) * powerRZ 2 (-53))%R with (F2R (2 ^ 53) (-53)).
        replace (2 ^ 53) with (1 * 2 ^ 53) by lia. rewrite F2R_shift by lia.
        unfold F2R. simpl. lra. }
      transitivity (IZR (Z.pos mx) * powerRZ 2 ex / (IZR (Z.pos my) * powerRZ 2 ey)
                    * (IZR (2 ^ 53) * powerRZ 2 (-53)))%R.
      - rewrite H53. lra.
      - field. split; lra. }
    rewrite E.
    assert (Q1 : (IZR (Zpos pq) <= IZR (Zpos mx * 2 ^ 53) / IZR (Zpos my))%R).
    { apply (Rmult_le_reg_r (IZR (Zpos my))); [done|].
      unfold Rdiv. rewrite Rmult_assoc, Rinv_l by lra.
      rewrite Rmult_1_r, <- mult_IZR. apply IZR_le. lia. }
    assert (Q2 : (IZR (Zpos mx * 2 ^ 53) / IZR (Zpos my) < IZR (Zpos pq + 1))%R).
    { apply (Rmult_lt_reg_r (IZR (Zpos my))); [done|].
      unfold Rdiv. rewrite Rmult_assoc, Rinv_l by lra.
      rewrite Rmult_1_r, <- mult_IZR. apply IZR_lt. lia. }
    pose proof (powerRZ_2_pos (ex - ey - 53)) as Pe.
    split.
    - apply Rmult_le_compat_r; [lra|done].
    - apply Rmult_lt_compat_r; done. }
  exists m', e'. split; [done|]. split; [done|]. split; [lia|done].
Qed.

(** [float64(n)] is exact for [0 < n < 2^53]. *)
Lemma f64_of_int64_exact (n : Z) :
  0 < n < 2 ^ 53 ->
  exists (m : positive) (e : Z),
    f64_of_int64 n = S754_finite false m e
    /\ 2 ^ 52 <= Zpos m < 2 ^ 53 /\ -52 <= e <= 0
    /\ F2R (Zpos m) e = IZR n.
Proof.
  intros Hn.
  destruct (canonical_exists n Hn) as (M & k & Hk & HM & HB).
  exists M, (- k). split; [apply f64_of_int64_canonical; done || lia|].
  split; [done|]. split; [lia|].
  replace (IZR n) with (F2R n 0) by (unfold F2R; simpl; lra).
  rewrite HM, F2R_shift by lia. f_equal. lia.
Qed.

(** [int64(x)] of a non-negative float below 2^63 is the floor of its value. *)
Lemma f64_to_int64_floor (m : positive) (e : Z) :
  (F2R (Zpos m) e < IZR (2 ^ 63))%R ->
  let t := f64_to_int64 (S754_finite false m e) in
  0 <= t /\ (IZR t <= F2R (Zpos m) e < IZR t + 1)%R.
Proof.
  intros Hlt. cbn zeta. unfold f64_to_int64.
  set (t := match e with Zneg p => Zpos m / 2 ^ Zpos p | _ => Zpos m * 2 ^ e end).
  assert (Ht : 0 <= t /\ (IZR t <= F2R (Zpos m) e < IZR t + 1)%R).
  { unfold t. destruct e as [|p|p].
    - change (2 ^ 0) with 1. rewrite Z.mul_1_r. unfold F2R. simpl powerRZ.
      split; [lia|]. lra.
    - split; [apply Z.mul_nonneg_nonneg; [lia|apply Z.pow_nonneg; lia]|].
      replace (F2R (Zpos m) (Zpos p)) with (F2R (Zpos m * 2 ^ Zpos p) 0).
      2: { rewrite F2R_shift by lia. done. }
      unfold F2R. simpl powerRZ. lra.
    - assert (Hp : 0 < 2 ^ Zpos p) by (apply Z.pow_pos_nonneg; lia).
      split; [apply Z.div_pos; lia|].
      pose proof (Z.mul_div_le (Zpos m) (2 ^ Zpos p) Hp) as Hlo.
      pose proof (Z.mul_succ_div_gt (Zpos m) (2 ^ Zpos p) Hp) as Hhi.
      set (q := Zpos m / 2 ^ Zpos p) in *.
      assert (E : forall z, IZR z = F2R (z * 2 ^ Zpos p) (Zneg p)).
      { intros z. rewrite F2R_shift by lia. replace (Zneg p + Zpos p) with 0 by lia.
        unfold F2R. simpl. lra. }
      rewrite <- plus_IZR, (E q), (E (q + 1)). split.
      + apply F2R_le. lia.
      + unfold F2R. apply Rmult_lt_compat_r; [apply powerRZ_2_pos|].
        apply IZR_lt. lia. }
  destruct Ht as [Ht0 Htv].
  assert (Hmax : t <= Int64.int64_max).
  { unfold Int64.int64_max. apply Z.lt_le_pred. apply lt_IZR. lra. }
  unfold Int64.int64_min, Int64.int64_max in *.
  replace (- 2 ^ 63 <=? t) with true by (symmetry; apply Z.leb_le; lia).
  replace (t <=? 2 ^ 63 - 1) with true by (symmetry; apply Z.leb_le; lia).
  done.
Qed.

Lemma f64_of_halves_value (h : Z) :
  0 < h < 2 ^ 53 ->
  exists (m : positive) (e : Z),
    f64_of_halves h = S754_finite false m e
    /\ 2 ^ 52 <= Zpos m < 2 ^ 53 /\ -53 <= e <= -1
    /\ F2R (Zpos m) e = (IZR h / 2)%R.
Proof.
  intros Hh.
  destruct (canonical_exists h Hh) as (M & k & Hk & HM & HB).
  exists M, (- 1 - k). split; [apply f64_of_halves_canonical; done || lia|].
  split; [done|]. split; [lia|].
  replace (IZR h / 2)%R with (F2R h (-1)) by (unfold F2R; simpl; lra).
  rewrite HM, F2R_shift by lia. f_equal. lia.
Qed.

(** The share is the floor of a float within two roundings of the exact
    proportional part. *)
Lemma share_bounds (U a A : Z) :
  0 <= U < 2 ^ 53 -> 0 < a <= A -> A < 2 ^ 53 ->
  let s := share U (f64_of_halves a) (f64_of_halves A) in
  0 <= s
  /\ (IZR s <= IZR U * (IZR a / IZR A) * ((1 + eps) * (1 + eps)))%R
  /\ (IZR U * (IZR a / IZR A) * ((1 - eps) * (1 - eps)) < IZR s + 1)%R.
Proof.
  intros HU Ha HA. cbn zeta. unfold share.
  destruct (f64_of_halves_value a) as (ma & ea & -> & Hma & Hea & Hva); [lia|].
  destruct (f64_of_halves_value A) as (mA & eA & -> & HmA & HeA & HvA); [lia|].
  destruct (f64_div_value ma mA ea eA Hma HmA) as (mp & ep & -> & Hmp & Hep & Hvp); [lia|].
  rewrite Hva, HvA in Hvp.
  pose proof eps_bounds as Heps.
  assert (PA : (0 < IZR A)%R) by (apply IZR_lt; lia).
  assert (Pa : (0 < IZR a)%R) by (apply IZR_lt; lia).
  assert (Hfrac : (IZR a / 2 / (IZR A / 2) = IZR a / IZR A)%R) by (field; lra).
  rewrite Hfrac in Hvp.
  assert (Hr : (0 < IZR a / IZR A <= 1)%R).
  { split; [apply Rdiv_lt_0_compat; done|].
    apply (Rmult_le_reg_r (IZR A)); [done|].
    unfold Rdiv. rewrite Rmult_assoc, Rinv_l by lra.
    rewrite Rmult_1_r, Rmult_1_l. apply IZR_le. lia. }
  destruct (Z.eq_dec U 0) as [->|HnU].
  { cbn. split; [lia|]. split; lra. }
  destruct (f64_of_int64_exact U) as (mU & eU & -> & HmU & HeU & HvU); [lia|].
  destruct (f64_mul_value mU mp eU ep HmU Hmp) as (my & ey & -> & Hmy & Hey & Hvy); [lia|].
  rewrite HvU in Hvy.
  assert (PU : (0 < IZR U < IZR (2 ^ 53))%R) by (split; apply IZR_lt; lia).
  set (p := F2R (Zpos mp) ep) in *. set (y := F2R (Zpos my) ey) in *.
  set (r := (IZR a / IZR A)%R) in *.
  assert (Hp : (0 < p <= 2)%R) by (split; [apply F2R_pos|nra]).
  assert (Hy1 : (y <= IZR U * r * ((1 + eps) * (1 + eps)))%R).
  { assert (IZR U * p <= IZR U * (r * (1 + eps)))%R
      by (apply Rmult_le_compat_l; lra).
    assert (IZR U * p * (1 + eps) <= IZR U * (r * (1 + eps)) * (1 + eps))%R
      by (apply Rmult_le_compat_r; lra).
    lra. }
  assert (Hy2 : (IZR U * r * ((1 - eps) * (1 - eps)) <= y)%R).
  { assert (IZR U * (r * (1 - eps)) <= IZR U * p)%R
      by (apply Rmult_le_compat_l; lra).
    assert (IZR U * (r * (1 - eps)) * (1 - eps) <= IZR U * p * (1 - eps))%R
      by (apply Rmult_le_compat_r; lra).
    lra. }
  assert (Hy3 : (y < IZR (2 ^ 63))%R).
  { change (2 ^ 63) with (2 ^ 53 * 2 ^ 10). rewrite mult_IZR.
    change (IZR (2 ^ 10)) with 1024%R.
    assert (IZR U * r <= IZR U * 1)%R by (apply Rmult_le_compat_l; lra).
    assert ((1 + eps) * (1 + eps) <= 4)%R by nra.
    assert (IZR U * r * ((1 + eps) * (1 + eps)) <= IZR U * 1 * 4)%R.
    { apply Rmult_le_compat; try lra; apply Rmult_le_pos; lra. }
    lra. }
  destruct (f64_to_int64_floor my ey Hy3) as [Hs0 Hs].
  fold y in Hs. split; [done|]. split; lra.
Qed.

End Float64Facts.

(** ** The weighting loops *)

Module CounterFacts.
Import Float64 Counter Attribution Float64Facts.

Lemma fold_left_fmap_l {A B C : Type} (f : C -> B -> C) (g : A -> B)
    (l : list A) (c : C) :
  fold_left f (g <$> l) c = fold_left (fun c x => f c (g x)) l c.
Proof. revert c. induction l as [|x l IH]; intros c; [done|]. apply IH. Qed.

Lemma fold_left_ext_l {A C : Type} (f g : C -> A -> C) (l : list A) (c : C) :
  (forall c x, f c x = g c x) -> fold_left f l c = fold_left g l c.
Proof.
  intros E. revert c. induction l as [|x l IH]; intros c; [done|].
  cbn. rewrite E. apply IH.
Qed.

Lemma weigh_accounted (path : Z -> string) (tcpConns : list tcpRow)
    (udpConns : list udpRow) :
  weigh path tcpConns udpConns = accounted path (contributions tcpConns udpConns).
Proof.
  unfold weigh, accounted, contributions.
  rewrite fold_left_app, !fold_left_fmap_l. cbn [fst snd].
  rewrite (fold_left_ext_l
             (fun w conn => account path (OwningPid conn) (tcp_weight conn) w)
             (fun w conn => account path (OwningPid conn) (f64_of_halves (tcp_halves conn)) w)
             tcpConns); [done|].
  intros w conn. unfold tcp_weight, tcp_halves. destruct (State conn =? 5); done.
Qed.

Lemma sumZ_cons (x : Z) (l : list Z) : sumZ (x :: l) = x + sumZ l.
Proof. done. Qed.

Lemma sumZ_perm (l l' : list Z) : l ≡ₚ l' -> sumZ l = sumZ l'.
Proof. unfold sumZ. induction 1; cbn; lia. Qed.

Lemma sumZ_app (l l' : list Z) : sumZ (l ++ l') = sumZ l + sumZ l'.
Proof. unfold sumZ. induction l as [|x l IH]; cbn; lia. Qed.

Lemma total_halves_app (cs cs' : list (Z * Z)) :
  total_halves (cs ++ cs') = total_halves cs + total_halves cs'.
Proof. unfold total_halves. induction cs as [|c cs IH]; cbn; lia. Qed.

Lemma halves_of_app (pid : Z) (cs cs' : list (Z * Z)) :
  halves_of pid (cs ++ cs') = halves_of pid cs + halves_of pid cs'.
Proof.
  unfold halves_of. induction cs as [|c cs IH]; cbn; [done|].
  destruct (decide (c.1 = pid)); lia.
Qed.

Lemma halves_of_bounds (pid : Z) (cs : list (Z * Z)) :
  Forall (fun c => 0 < c.2) cs -> 0 <= halves_of pid cs <= total_halves cs.
Proof.
  unfold halves_of, total_halves.
  induction 1 as [|c cs Hc _ IH]; cbn; [lia|]. destruct (decide (c.1 = pid)); lia.
Qed.

Lemma halves_of_pos (pid : Z) (cs : list (Z * Z)) :
  Forall (fun c => 0 < c.2) cs -> pid ∈ cs.*1 -> 0 < halves_of pid cs.
Proof.
  induction 1 as [|c cs Hc Hcs IH]; cbn; [by intros ?%elem_of_nil|].
  intros [->|Hin]%elem_of_cons.
  - rewrite decide_True by done.
    pose proof (halves_of_bounds c.1 cs Hcs). unfold halves_of in *. lia.
  - specialize (IH Hin). unfold halves_of in *. destruct (decide (c.1 = pid)); lia.
Qed.

Lemma halves_map_snoc (cs : list (Z * Z)) (c : Z * Z) :
  halves_map (cs ++ [c])
  = <[c.1 := default 0 (halves_map cs !! c.1) + c.2]> (halves_map cs).
Proof. unfold halves_map. rewrite fold_left_app. done. Qed.

Lemma halves_of_absent (pid : Z) (cs : list (Z * Z)) :
  pid ∉ cs.*1 -> halves_of pid cs = 0.
Proof.
  unfold halves_of. induction cs as [|c cs IH]; intros Hnot; [done|].
  cbn [foldr]. cbn [fmap list_fmap] in Hnot. apply not_elem_of_cons in Hnot as [Hne Hnot].
  rewrite decide_False by (intros E; apply Hne; done). apply IH. done.
Qed.

Lemma halves_map_lookup (cs : list (Z * Z)) (pid : Z) :
  halves_map cs !! pid
  = if decide (pid ∈ cs.*1) then Some (halves_of pid cs) else None.
Proof.
  induction cs as [|c cs IH] using rev_ind.
  - rewrite decide_False by apply not_elem_of_nil. done.
  - rewrite halves_map_snoc, halves_of_app, fmap_app. cbn [fmap list_fmap halves_of foldr].
    assert (Hin : pid ∈ cs.*1 ++ [c.1] <-> pid ∈ cs.*1 \/ pid = c.1).
    { rewrite elem_of_app, list_elem_of_singleton. done. }
    destruct (decide (pid ∈ cs.*1 ++ [c.1])) as [Hs|Hs].
    + destruct (decide (c.1 = pid)) as [<-|Hne].
      * rewrite lookup_insert_eq, IH.
        destruct (decide (c.1 ∈ cs.*1)) as [Hc|Hc]; cbn [default].
        -- f_equal. unfold halves_of, Datatypes.id. lia.
        -- pose proof (halves_of_absent c.1 cs Hc) as H0. f_equal.
           unfold halves_of, Datatypes.id in *. lia.
      * rewrite lookup_insert_ne, IH by done.
        apply Hin in Hs as [Hc| ->]; [|done].
        rewrite decide_True by done. f_equal. unfold halves_of. lia.
    + assert (Hne : c.1 <> pid) by (intros <-; apply Hs, Hin; auto).
      rewrite lookup_insert_ne, IH by done.
      rewrite decide_False; [done|]. intros Hc. apply Hs, Hin. auto.
Qed.

Lemma map_sum_account (h : gmap Z Z) (k x : Z) :
  map_sum (<[k := default 0 (h !! k) + x]> h) = map_sum h + x.
Proof.
  unfold map_sum. destruct (h !! k) as [v|] eqn:Hk; cbn [default].
  - rewrite <- insert_delete_eq.
    rewrite (sumZ_perm _ _ (fmap_Permutation snd _ _
               (map_to_list_insert (delete k h) k (v + x) (lookup_delete_eq h k)))).
    rewrite <- (sumZ_perm _ _ (fmap_Permutation snd _ _ (map_to_list_delete h k v Hk))).
    unfold sumZ. cbn. lia.
  - rewrite (sumZ_perm _ _ (fmap_Permutation snd _ _ (map_to_list_insert h k (0 + x) Hk))).
    unfold sumZ. cbn. lia.
Qed.

Lemma map_sum_halves_map (cs : list (Z * Z)) :
  map_sum (halves_map cs) = total_halves cs.
Proof.
  induction cs as [|c cs IH] using rev_ind.
  - done.
  - rewrite halves_map_snoc, map_sum_account, IH, total_halves_app.
    unfold total_halves. cbn. lia.
Qed.

Lemma accounted_snoc (path : Z -> string) (cs : list (Z * Z)) (c : Z * Z) :
  accounted path (cs ++ [c]) = account path c.1 (f64_of_halves c.2) (accounted path cs).
Proof. unfold accounted. rewrite fold_left_app. done. Qed.

(** The float accumulators hold exactly the half-integer sums. *)
Lemma accounted_weights (path : Z -> string) (cs : list (Z * Z)) :
  Forall (fun c => 0 < c.2) cs -> total_halves cs < 2 ^ 53 ->
  processWeights (accounted path cs) = f64_of_halves <$> halves_map cs
  /\ totalWeight (accounted path cs) = f64_of_halves (total_halves cs).
Proof.
  induction cs as [|c cs IH] using rev_ind; intros Hpos Htot.
  - split; [|done]. cbn. rewrite fmap_empty. done.
  - apply Forall_app in Hpos as [Hpos Hc]. apply Forall_inv in Hc. cbn beta in Hc.
    rewrite total_halves_app in Htot. cbn in Htot.
    pose proof (halves_of_bounds c.1 cs Hpos) as Hb.
    destruct IH as [IHw IHt]; [done|lia|].
    rewrite accounted_snoc, halves_map_snoc, total_halves_app.
    cbn [account processWeights totalWeight]. rewrite IHw, IHt. split.
    + rewrite fmap_insert, lookup_fmap. f_equal.
      rewrite halves_map_lookup.
      destruct (decide (c.1 ∈ cs.*1)); cbn [fmap option_fmap option_map default].
      * apply f64_add_halves; unfold Datatypes.id; lia.
      * change f64_zero with (f64_of_halves 0). apply f64_add_halves; lia.
    + cbn. rewrite Z.add_0_r. apply f64_add_halves; lia.
Qed.

Lemma accounted_names (path : Z -> string) (cs : list (Z * Z)) (pid : Z) :
  processNames (accounted path cs) !! pid
  = if decide (pid ∈ cs.*1 /\ path pid <> ""%string) then Some (path pid) else None.
Proof.
  revert pid. induction cs as [|c cs IH] using rev_ind; intros pid.
  - rewrite decide_False; [done|]. intros [H%elem_of_nil _]. done.
  - rewrite accounted_snoc, fmap_app. cbn [account processNames fmap list_fmap].
    assert (Hin : forall q, q ∈ cs.*1 ++ [c.1] <-> q ∈ cs.*1 \/ q = c.1).
    { intros q. rewrite elem_of_app, list_elem_of_singleton. done. }
    destruct (processNames (accounted path cs) !! c.1) as [n|] eqn:Hc.
    + rewrite IH. rewrite IH in Hc.
      destruct (decide (c.1 ∈ cs.*1 /\ path c.1 <> ""%string)) as [[Hc1 Hc2]|]; [|done].
      destruct (decide (pid ∈ cs.*1 /\ path pid <> ""%string)) as [[H1 H2]|Hn].
      * rewrite decide_True; [done|]. split; [apply Hin; auto|done].
      * rewrite decide_False; [done|]. intros [[H1| ->]%Hin H2]; tauto.
    + rewrite IH in Hc.
      destruct (decide (c.1 ∈ cs.*1 /\ path c.1 <> ""%string)) as [|Hnc]; [done|].
      destruct (decide (path c.1 = ""%string)) as [He|Hne].
      * rewrite IH.
        destruct (decide (pid ∈ cs.*1 /\ path pid <> ""%string)) as [[H1 H2]|Hn].
        -- rewrite decide_True; [done|]. split; [apply Hin; auto|done].
        -- rewrite decide_False; [done|]. intros [[H1| ->]%Hin H2]; tauto.
      * destruct (decide (c.1 = pid)) as [<-|Hd].
        -- rewrite lookup_insert_eq, decide_True; [done|]. split; [apply Hin; auto|done].
        -- rewrite lookup_insert_ne, IH by done.
           destruct (decide (pid ∈ cs.*1 /\ path pid <> ""%string)) as [[H1 H2]|Hn].
           ++ rewrite decide_True; [done|]. split; [apply Hin; auto|done].
           ++ rewrite decide_False; [done|]. intros [[H1| ->]%Hin H2]; tauto.
Qed.

Lemma distributed_snoc (U D : Z) (w : weights) (l : list (Z * f64)) (pid : Z) (wt : f64) :
  distributed U D w (l ++ [(pid, wt)])
  = match processNames w !! pid with
    | None => distributed U D w l
    | Some name =>
        if decide (name = ""%string) then distributed U D w l
        else <[name := attributed U D w pid wt]> (distributed U D w l)
    end.
Proof. unfold distributed. rewrite fold_left_app. done. Qed.

(** Every entry of the result was written for a visited pid of that name. *)
Lemma distributed_origin (U D : Z) (w : weights) (l : list (Z * f64))
    (name : string) (d : processData) :
  distributed U D w l !! name = Some d ->
  exists pid wt,
    (pid, wt) ∈ l /\ processNames w !! pid = Some name /\ name <> ""%string
    /\ d = attributed U D w pid wt.
Proof.
  revert d. induction l as [|[pid wt] l IH] using rev_ind; intros d.
  - unfold distributed. cbn. rewrite lookup_empty. done.
  - rewrite distributed_snoc. 
    assert (Hold : distributed U D w l !! name = Some d ->
       exists pid0 wt0, (pid0, wt0) ∈ l ++ [(pid, wt)]
         /\ processNames w !! pid0 = Some name /\ name <> ""%string
         /\ d = attributed U D w pid0 wt0).
    { intros (p & x & Hin & Hrest)%IH. exists p, x. split; [|done].
      apply elem_of_app. auto. }
    destruct (processNames w !! pid) as [n|] eqn:Hn; [|done].
    destruct (decide (n = ""%string)) as [|Hne]; [done|].
    destruct (decide (n = name)) as [->|Hd].
    + rewrite lookup_insert_eq. intros [= <-]. exists pid, wt.
      split; [|done]. apply elem_of_app. right. apply list_elem_of_singleton. done.
    + rewrite lookup_insert_ne by done. done.
Qed.

(** Every visited pid with a name has an entry under that name. *)
Lemma distributed_covers (U D : Z) (w : weights) (l : list (Z * f64))
    (pid : Z) (wt : f64) (name : string) :
  (pid, wt) ∈ l -> processNames w !! pid = Some name -> name <> ""%string ->
  is_Some (distributed U D w l !! name).
Proof.
  induction l as [|[pid' wt'] l IH] using rev_ind.
  - intros H%elem_of_nil. done.
  - intros [Hin|Hin%list_elem_of_singleton]%elem_of_app Hn Hne.
    + specialize (IH Hin Hn Hne). rewrite distributed_snoc.
      destruct (processNames w !! pid') as [n|]; [|done].
      destruct (decide (n = ""%string)); [done|].
      destruct (decide (n = name)) as [->|Hd].
      * rewrite lookup_insert_eq. done.
      * rewrite lookup_insert_ne by done. done.
    + injection Hin as <- <-. rewrite distributed_snoc, Hn.
      rewrite decide_False by done. rewrite lookup_insert_eq. done.
Qed.

(** When the visited pids all have names and no two share one, the result
    holds one entry per pid. *)
Lemma distributed_sums (U D : Z) (w : weights) (l : list (Z * f64)) :
  NoDup l.*1 ->
  (forall pid, pid ∈ l.*1 ->
     exists name, processNames w !! pid = Some name /\ name <> ""%string) ->
  (forall p1 p2 name, p1 ∈ l.*1 -> p2 ∈ l.*1 ->
     processNames w !! p1 = Some name -> processNames w !! p2 = Some name -> p1 = p2) ->
  uploaded (distributed U D w l) = sumZ ((fun e => share U e.2 (totalWeight w)) <$> l)
  /\ downloaded (distributed U D w l) = sumZ ((fun e => share D e.2 (totalWeight w)) <$> l)
  /\ size (distributed U D w l) = length l.
Proof.
  induction l as [|[pid wt] l IH] using rev_ind; intros Hnd Hres Hinj.
  - unfold uploaded, downloaded, distributed. cbn.
    rewrite map_to_list_empty, map_size_empty. done.
  - rewrite fmap_app in Hnd, Hres, Hinj. cbn [fmap list_fmap fst] in Hnd, Hres, Hinj.
    apply NoDup_app in Hnd as (Hnd & Hnot & _).
    assert (Hpid : pid ∉ l.*1).
    { intros Hin. apply (Hnot pid Hin). apply list_elem_of_singleton. done. }
    destruct IH as (IHu & IHd & IHs).
    { done. }
    { intros p Hp. apply Hres. apply elem_of_app. auto. }
    { intros p1 p2 name H1 H2. apply Hinj; apply elem_of_app; auto. }
    destruct (Hres pid) as (name & Hname & Hne).
    { apply elem_of_app. right. apply list_elem_of_singleton. done. }
    rewrite distributed_snoc, Hname, decide_False by done.
    assert (Hfresh : distributed U D w l !! name = None).
    { destruct (distributed U D w l !! name) as [d|] eqn:Hd; [|done]. exfalso.
      destruct (distributed_origin U D w l name d Hd) as (p & x & Hin & Hp & _).
      assert (Hpl : p ∈ l.*1).
      { apply list_elem_of_fmap. exists (p, x). done. }
      assert (p = pid); [|subst; done].
      apply (Hinj p pid name); [apply elem_of_app; auto| |done|done].
      apply elem_of_app. right. apply list_elem_of_singleton. done. }
    pose proof (map_to_list_insert (distributed U D w l) name
                  (attributed U D w pid wt) Hfresh) as Hperm.
    unfold uploaded, downloaded in *.
    rewrite (sumZ_perm _ _ (fmap_Permutation (fun e => uploadBytes e.2) _ _ Hperm)).
    rewrite (sumZ_perm _ _ (fmap_Permutation (fun e => downloadBytes e.2) _ _ Hperm)).
    rewrite map_size_insert_None by done.
    rewrite !fmap_app, !sumZ_app, length_app. cbn [fmap list_fmap length snd].
    rewrite !sumZ_cons. cbn [attributed uploadBytes downloadBytes].
    rewrite IHu, IHd, IHs. change (sumZ []) with 0.
    split; [lia|]. split; lia.
Qed.

(** The sum of the shares of a list of weights, against the exact
    proportional parts. *)
Lemma shares_sum_bounds (U T : Z) (hs : list Z) :
  0 <= U < 2 ^ 53 -> 0 < T < 2 ^ 53 -> Forall (fun h => 0 < h <= T) hs ->
  let S := sumZ ((fun h => share U (f64_of_halves h) (f64_of_halves T)) <$> hs) in
  (IZR S <= IZR U * (IZR (sumZ hs) / IZR T) * ((1 + eps) * (1 + eps)))%R
  /\ (IZR U * (IZR (sumZ hs) / IZR T) * ((1 - eps) * (1 - eps))
      <= IZR S + IZR (Z.of_nat (length hs)))%R.
Proof.
  intros HU HT Hhs. cbn zeta. induction Hhs as [|h hs Hh _ IH].
  - cbn. unfold Rdiv. rewrite Rmult_0_l, !Rmult_0_r, Rmult_0_l.
    change (Z.of_nat 0) with 0. split; lra.
  - cbn [fmap list_fmap length]. rewrite !sumZ_cons.
    set (S := sumZ ((fun h0 => share U (f64_of_halves h0) (f64_of_halves T)) <$> hs)) in *.
    destruct (share_bounds U h T HU) as (_ & B1 & B2); [lia|lia|].
    rewrite Nat2Z.inj_succ, !plus_IZR, succ_IZR.
    assert (PT : (0 < IZR T)%R) by (apply IZR_lt; lia).
    assert (E : ((IZR h + IZR (sumZ hs)) / IZR T = IZR h / IZR T + IZR (sumZ hs) / IZR T)%R)
      by (field; lra).
    rewrite E. split; lra.
Qed.

(** *** The weights in terms of the connection tables *)

Lemma contributions_owners (tcpConns : list tcpRow) (udpConns : list udpRow) :
  (contributions tcpConns udpConns).*1 = owners tcpConns udpConns.
Proof.
  unfold contributions, owners. rewrite fmap_app, <- !list_fmap_compose. done.
Qed.

Lemma contributions_pos (tcpConns : list tcpRow) (udpConns : list udpRow) :
  Forall (fun c => 0 < c.2) (contributions tcpConns udpConns).
Proof.
  unfold contributions. apply Forall_app. split; apply Forall_fmap, Forall_forall.
  - intros conn _. cbn. unfold tcp_halves. destruct (State conn =? 5); lia.
  - intros conn _. cbn. lia.
Qed.

Lemma contributions_total (tcpConns : list tcpRow) (udpConns : list udpRow) :
  total_halves (contributions tcpConns udpConns)
  <= 20 * Z.of_nat (length tcpConns) + Z.of_nat (length udpConns).
Proof.
  unfold contributions. rewrite total_halves_app.
  assert (H1 : total_halves ((fun conn => (OwningPid conn, tcp_halves conn)) <$> tcpConns)
               <= 20 * Z.of_nat (length tcpConns)).
  { unfold total_halves. induction tcpConns as [|c l IH]; [cbn; lia|].
    cbn [fmap list_fmap foldr length snd]. unfold tcp_halves at 1.
    destruct (State c =? 5); lia. }
  assert (H2 : total_halves ((fun conn => (UdpOwningPid conn, 1)) <$> udpConns)
               = Z.of_nat (length udpConns)).
  { unfold total_halves. induction udpConns as [|c l IH]; [done|].
    cbn [fmap list_fmap foldr length snd]. lia. }
  lia.
Qed.

Lemma halves_of_contributions (pid : Z) (tcpConns : list tcpRow) (udpConns : list udpRow) :
  halves_of pid (contributions tcpConns udpConns) = weight_halves pid tcpConns udpConns.
Proof.
  unfold contributions, weight_halves. rewrite halves_of_app.
  assert (H1 : halves_of pid ((fun conn => (OwningPid conn, tcp_halves conn)) <$> tcpConns)
               = 20 * Z.of_nat (established_of pid tcpConns)
                 + 2 * Z.of_nat (other_tcp_of pid tcpConns)).
  { unfold halves_of, established_of, other_tcp_of.
    induction tcpConns as [|c l IH]; [done|].
    cbn [fmap list_fmap foldr fst snd]. rewrite !filter_cons. unfold tcp_halves at 1.
    destruct (decide (OwningPid c = pid)) as [Ho|Ho].
    - destruct (Z.eqb_spec (State c) 5) as [Hs|Hs].
      + rewrite decide_True, decide_False by tauto. cbn [length]. lia.
      + rewrite decide_False, decide_True by tauto. cbn [length]. lia.
    - rewrite !decide_False by tauto. lia. }
  assert (H2 : halves_of pid ((fun conn => (UdpOwningPid conn, 1)) <$> udpConns)
               = Z.of_nat (udp_of pid udpConns)).
  { unfold halves_of, udp_of. induction udpConns as [|c l IH]; [done|].
    cbn [fmap list_fmap foldr fst snd]. rewrite filter_cons.
    destruct (decide (UdpOwningPid c = pid)); cbn [length]; lia. }
  lia.
Qed.

(** The weight map of [weigh]: every owner, with the float of its exact
    weight; the total is the float of the exact total. *)
Lemma weigh_weights (path : Z -> string) (tcpConns : list tcpRow) (udpConns : list udpRow) :
  Z.of_nat (length tcpConns) < 2 ^ 32 -> Z.of_nat (length udpConns) < 2 ^ 32 ->
  let w := weigh path tcpConns udpConns in
  let cs := contributions tcpConns udpConns in
  processWeights w = f64_of_halves <$> halves_map cs
  /\ totalWeight w = f64_of_halves (total_halves cs)
  /\ total_halves cs < 2 ^ 53
  /\ (forall pid, processWeights w !! pid
        = if decide (pid ∈ owners tcpConns udpConns)
          then Some (f64_of_halves (weight_halves pid tcpConns udpConns)) else None).
Proof.
  intros Ht Hu. cbn zeta. rewrite weigh_accounted.
  pose proof (contributions_total tcpConns udpConns) as Htot.
  assert (Hb : total_halves (contributions tcpConns udpConns) < 2 ^ 53).
  { change (2 ^ 53) with (2 ^ 21 * 2 ^ 32). lia. }
  destruct (accounted_weights path _ (contributions_pos tcpConns udpConns) Hb) as [Hw Hs].
  split; [done|]. split; [done|]. split; [done|].
  intros pid. rewrite Hw, lookup_fmap, halves_map_lookup, contributions_owners.
  destruct (decide (pid ∈ owners tcpConns udpConns)); [|done].
  cbn. rewrite halves_of_contributions. done.
Qed.

Lemma f64_of_halves_positive (h : Z) :
  0 < h < 2 ^ 53 -> f64_ltb f64_zero (f64_of_halves h) = true.
Proof.
  intros Hh. destruct (f64_of_halves_value h Hh) as (m & e & -> & _). done.
Qed.

Lemma getNetworkProcesses_ok (rng : range_order) (os : system) (U D : Z)
    (tcpConns : list tcpRow) (udpConns : list udpRow) :
  getSystemNetworkIO os = Ok (U, D) ->
  tcp_stats os = Ok tcpConns -> udp_stats os = Ok udpConns ->
  getNetworkProcesses rng os
  = Ok (distribute rng U D (weigh (getProcessPath os) tcpConns udpConns)).
Proof. intros HIO Ht Hu. unfold getNetworkProcesses. rewrite HIO, Ht, Hu. done. Qed.

Lemma distribute_distributed (rng : range_order) (U D : Z) (path : Z -> string)
    (tcpConns : list tcpRow) (udpConns : list udpRow) (pid : Z) :
  Z.of_nat (length tcpConns) < 2 ^ 32 -> Z.of_nat (length udpConns) < 2 ^ 32 ->
  pid ∈ owners tcpConns udpConns ->
  let w := weigh path tcpConns udpConns in
  distribute rng U D w = distributed U D w (rng _ _ _ _ (processWeights w)).
Proof.
  intros Ht Hu Hpid. cbn zeta.
  destruct (weigh_weights path tcpConns udpConns Ht Hu) as (_ & Hs & Hb & _).
  unfold distribute. rewrite Hs, f64_of_halves_positive; [done|].
  split; [|done].
  rewrite <- contributions_owners in Hpid.
  pose proof (halves_of_pos pid _ (contributions_pos tcpConns udpConns) Hpid).
  pose proof (halves_of_bounds pid _ (contributions_pos tcpConns udpConns)). lia.
Qed.

(** The entries visited by the distribution loop are the owners, each with
    the float of its exact weight. *)
Lemma visited_entries (rng : range_order) (path : Z -> string)
    (tcpConns : list tcpRow) (udpConns : list udpRow) (pid : Z) (wt : f64) :
  range_ok rng ->
  Z.of_nat (length tcpConns) < 2 ^ 32 -> Z.of_nat (length udpConns) < 2 ^ 32 ->
  (pid, wt) ∈ rng _ _ _ _ (processWeights (weigh path tcpConns udpConns))
  <-> pid ∈ owners tcpConns udpConns
      /\ wt = f64_of_halves (weight_halves pid tcpConns udpConns).
Proof.
  intros Hrng Ht Hu.
  destruct (weigh_weights path tcpConns udpConns Ht Hu) as (_ & _ & _ & Hl).
  rewrite (Hrng _ _ _ _ _), elem_of_map_to_list, Hl.
  destruct (decide (pid ∈ owners tcpConns udpConns)); split.
  - intros [= <-]. done.
  - intros [_ ->]. done.
  - done.
  - intros [? _]. done.
Qed.

Lemma owner_weight_bounds (pid : Z) (tcpConns : list tcpRow) (udpConns : list udpRow) :
  pid ∈ owners tcpConns udpConns ->
  0 < weight_halves pid tcpConns udpConns <= total_weight_halves tcpConns udpConns.
Proof.
  intros Hpid. rewrite <- contributions_owners in Hpid.
  rewrite <- halves_of_contributions. unfold total_weight_halves.
  pose proof (halves_of_pos pid _ (contributions_pos tcpConns udpConns) Hpid).
  pose proof (halves_of_bounds pid _ (contributions_pos tcpConns udpConns)). lia.
Qed.

(** A pid whose name resolves finds under that name the entry of an owner
    of the same name. *)
Lemma named_entry (rng : range_order) (path : Z -> string) (U D : Z)
    (tcpConns : list tcpRow) (udpConns : list udpRow) (pid : Z) :
  range_ok rng ->
  Z.of_nat (length tcpConns) < 2 ^ 32 -> Z.of_nat (length udpConns) < 2 ^ 32 ->
  pid ∈ owners tcpConns udpConns -> path pid <> ""%string ->
  let w := weigh path tcpConns udpConns in
  exists pid',
    pid' ∈ owners tcpConns udpConns /\ path pid' = path pid
    /\ distribute rng U D w !! path pid
       = Some (attributed U D w pid' (f64_of_halves (weight_halves pid' tcpConns udpConns))).
Proof.
  intros Hrng Ht Hu Hpid Hres. cbn zeta.
  rewrite (distribute_distributed rng U D path tcpConns udpConns pid Ht Hu Hpid).
  set (w := weigh path tcpConns udpConns) in *.
  assert (Hnames : forall q, processNames w !! q
            = if decide (q ∈ owners tcpConns udpConns /\ path q <> ""%string)
              then Some (path q) else None).
  { intros q. unfold w. rewrite weigh_accounted, accounted_names, contributions_owners. done. }
  assert (Hn : processNames w !! pid = Some (path pid)).
  { rewrite Hnames, decide_True by done. done. }
  destruct (distributed_covers U D w (rng _ _ _ _ (processWeights w)) pid
              (f64_of_halves (weight_halves pid tcpConns udpConns)) (path pid))
    as [d Hd]; [apply visited_entries; done|done|done|].
  destruct (distributed_origin U D w _ _ _ Hd) as (pid' & x & Hin & Hn' & _ & ->).
  apply visited_entries in Hin as [Hown ->]; [|done..].
  rewrite Hnames in Hn'.
  destruct (decide (pid' ∈ owners tcpConns udpConns /\ path pid' <> ""%string)); [|done].
  injection Hn' as Hn'. exists pid'. done.
Qed.

(** The attribution of one sampling. When the three queries succeed, every
    pid that owns a connection has as weight the sum of 10 per established
    TCP connection (state 5), 1 per other TCP connection and 0.5 per UDP
    endpoint. The result is keyed by process name: a pid whose name resolves
    finds under its name the entry of one pid of that name (itself when no
    other owner shares the name), holding that pid's id and its shares
    [int64(float64(total) * (weight / totalWeight))] of the upload and the
    download, each the integer part of a float within two roundings of
    total * weight / totalWeight. A pid whose name does not resolve has no
    entry, and no error is returned. *)
Theorem attribution_by_weight (rng : range_order) (os : system) (U D : Z)
    (tcpConns : list tcpRow) (udpConns : list udpRow) :
  range_ok rng ->
  getSystemNetworkIO os = Ok (U, D) ->
  tcp_stats os = Ok tcpConns -> udp_stats os = Ok udpConns ->
  Z.of_nat (length tcpConns) < 2 ^ 32 -> Z.of_nat (length udpConns) < 2 ^ 32 ->
  let w := weigh (getProcessPath os) tcpConns udpConns in
  let wh := fun pid => weight_halves pid tcpConns udpConns in
  let WH := total_weight_halves tcpConns udpConns in
  exists result,
    getNetworkProcesses rng os = Ok result
    /\ totalWeight w = f64_of_halves WH
    /\ forall pid, pid ∈ owners tcpConns udpConns ->
         processWeights w !! pid = Some (f64_of_halves (wh pid))
         /\ f64_val (f64_of_halves (wh pid))
            = (10 * IZR (Z.of_nat (established_of pid tcpConns))
               + 1 * IZR (Z.of_nat (other_tcp_of pid tcpConns))
               + 0.5 * IZR (Z.of_nat (udp_of pid udpConns)))%R
         /\ (getProcessPath os pid <> ""%string ->
             exists pid',
               pid' ∈ owners tcpConns udpConns
               /\ getProcessPath os pid' = getProcessPath os pid
               /\ result !! getProcessPath os pid
                  = Some (attributed U D w pid' (f64_of_halves (wh pid')))
               /\ ((forall q, q ∈ owners tcpConns udpConns ->
                      getProcessPath os q = getProcessPath os pid -> q = pid) ->
                   pid' = pid))
         /\ (getProcessPath os pid = ""%string ->
             forall name d, result !! name = Some d -> processID d <> pid)
         /\ (0 <= U < 2 ^ 53 ->
             proportional U (share U (f64_of_halves (wh pid)) (totalWeight w)) (wh pid) WH)
         /\ (0 <= D < 2 ^ 53 ->
             proportional D (share D (f64_of_halves (wh pid)) (totalWeight w)) (wh pid) WH).
Proof.
  intros Hrng HIO Htcp Hudp Ht Hu. cbn zeta.
  exists (distribute rng U D (weigh (getProcessPath os) tcpConns udpConns)).
  split; [apply getNetworkProcesses_ok; done|].
  destruct (weigh_weights (getProcessPath os) tcpConns udpConns Ht Hu)
    as (_ & Hs & Hb & Hl).
  split; [done|].
  intros pid Hpid.
  pose proof (owner_weight_bounds pid tcpConns udpConns Hpid) as Hwb.
  fold (total_weight_halves tcpConns udpConns) in Hb, Hs.
  rewrite (distribute_distributed rng U D (getProcessPath os) tcpConns udpConns pid Ht Hu Hpid).
  set (w := weigh (getProcessPath os) tcpConns udpConns) in *.
  set (path := getProcessPath os) in *.
  assert (Hnames : forall q, processNames w !! q
            = if decide (q ∈ owners tcpConns udpConns /\ path q <> ""%string)
              then Some (path q) else None).
  { intros q. unfold w. rewrite weigh_accounted, accounted_names, contributions_owners. done. }
  assert (Hvis : forall q x, (q, x) ∈ rng _ _ _ _ (processWeights w)
            <-> q ∈ owners tcpConns udpConns
                /\ x = f64_of_halves (weight_halves q tcpConns udpConns)).
  { intros q x. apply visited_entries; done. }
  split; [|split; [|split; [|split; [|split]]]].
  - rewrite Hl, decide_True by done. done.
  - destruct (f64_of_halves_value (weight_halves pid tcpConns udpConns)) as (m & e & -> & _ & _ & Hv);
      [lia|].
    cbn [f64_val cond_Zopp]. rewrite Hv. unfold weight_halves.
    rewrite !plus_IZR, !mult_IZR. lra.
  - intros Hres.
    destruct (named_entry rng path U D tcpConns udpConns pid Hrng Ht Hu Hpid Hres)
      as (pid' & Hown & Hsame & Hentry).
    rewrite (distribute_distributed rng U D path tcpConns udpConns pid Ht Hu Hpid) in Hentry.
    exists pid'. split; [done|]. split; [done|]. split; [done|].
    intros Huniq. apply Huniq; done.
  - intros Hunres name d Hd.
    destruct (distributed_origin U D w _ _ _ Hd) as (pid' & x & Hin & Hn' & _ & ->).
    cbn [attributed processID]. intros ->.
    rewrite Hnames in Hn'.
    destruct (decide (pid ∈ owners tcpConns udpConns /\ path pid <> ""%string)) as [[_ Hp]|];
      [|done].
    done.
  - intros HU. rewrite Hs. apply share_bounds; lia.
  - intros HD. rewrite Hs. apply share_bounds; lia.
Qed.

(** Below 2^50 the two roundings cannot move a sum of shares by a byte. *)
Lemma drift_from_bounds (U S n : Z) :
  0 <= U <= 2 ^ 50 ->
  (IZR S <= IZR U * ((1 + eps) * (1 + eps)))%R ->
  (IZR U * ((1 - eps) * (1 - eps)) <= IZR S + IZR n)%R ->
  U - n <= S <= U.
Proof.
  intros HU Hhi Hlo.
  pose proof eps_bounds as Heps.
  assert (H52 : (IZR (2 ^ 52) * eps = 1)%R).
  { unfold eps. apply Rinv_r. apply not_0_IZR. lia. }
  assert (HU0 : (0 <= IZR U)%R) by (apply IZR_le; lia).
  assert (HU50 : (IZR U <= IZR (2 ^ 50))%R) by (apply IZR_le; lia).
  assert (E : (IZR (2 ^ 52) = 4 * IZR (2 ^ 50))%R).
  { change (2 ^ 52) with (4 * 2 ^ 50). rewrite mult_IZR. done. }
  assert (HUe : (IZR U * eps <= 1 / 4)%R).
  { assert (IZR U * eps <= IZR (2 ^ 50) * eps)%R by (apply Rmult_le_compat_r; lra).
    lra. }
  assert (HUee : (0 <= IZR U * eps * eps <= 1 / 4)%R).
  { split; [apply Rmult_le_pos; [apply Rmult_le_pos|]; lra|].
    assert (IZR U * eps * eps <= IZR U * eps * 1)%R.
    { apply Rmult_le_compat_l; [apply Rmult_le_pos; lra|lra]. }
    lra. }
  split.
  - assert (H : (IZR (U - 1) < IZR (S + n))%R).
    { rewrite minus_IZR, plus_IZR. lra. }
    apply lt_IZR in H. lia.
  - assert (H : (IZR S < IZR (U + 1))%R).
    { rewrite plus_IZR. lra. }
    apply lt_IZR in H. lia.
Qed.

Lemma halves_map_values (cs : list (Z * Z)) :
  Forall (fun c => 0 < c.2) cs ->
  Forall (fun h => 0 < h <= total_halves cs) (map_to_list (halves_map cs)).*2.
Proof.
  intros Hpos. apply Forall_fmap, Forall_forall. intros [pid h] Hin.
  apply elem_of_map_to_list in Hin. rewrite halves_map_lookup in Hin.
  destruct (decide (pid ∈ cs.*1)) as [Hp|]; [|done]. injection Hin as <-.
  cbn. pose proof (halves_of_pos pid cs Hpos Hp).
  pose proof (halves_of_bounds pid cs Hpos). lia.
Qed.

(** The sums over a result in which every owner has its own name. *)
Lemma apportioned_sums (rng : range_order) (path : Z -> string) (U D : Z)
    (tcpConns : list tcpRow) (udpConns : list udpRow) :
  range_ok rng ->
  Z.of_nat (length tcpConns) < 2 ^ 32 -> Z.of_nat (length udpConns) < 2 ^ 32 ->
  owners tcpConns udpConns <> [] ->
  (forall pid, pid ∈ owners tcpConns udpConns -> path pid <> ""%string) ->
  (forall p q, p ∈ owners tcpConns udpConns -> q ∈ owners tcpConns udpConns ->
     path p = path q -> p = q) ->
  0 <= U <= 2 ^ 50 -> 0 <= D <= 2 ^ 50 ->
  let w := weigh path tcpConns udpConns in
  let result := distribute rng U D w in
  size result = size (processWeights w)
  /\ U - Z.of_nat (size result) <= uploaded result <= U
  /\ D - Z.of_nat (size result) <= downloaded result <= D.
Proof.
  intros Hrng Ht Hu Hne Hres Hinj HU HD. cbn zeta.
  destruct (owners tcpConns udpConns) as [|p0 rest] eqn:Hown; [done|].
  assert (Hp0 : p0 ∈ owners tcpConns udpConns) by (rewrite Hown; apply elem_of_cons; auto).
  rewrite <- Hown in *. clear Hown Hne rest.
  rewrite (distribute_distributed rng U D path tcpConns udpConns p0 Ht Hu Hp0).
  destruct (weigh_weights path tcpConns udpConns Ht Hu) as (Hw & Hs & Hb & Hl).
  pose proof (owner_weight_bounds p0 tcpConns udpConns Hp0) as Hwb.
  fold (total_weight_halves tcpConns udpConns) in Hb, Hs.
  set (w := weigh path tcpConns udpConns) in *.
  set (cs := contributions tcpConns udpConns) in *.
  set (l := rng _ _ _ _ (processWeights w)).
  assert (Hperm : l ≡ₚ map_to_list (processWeights w)) by apply Hrng.
  assert (Hnames : forall q, processNames w !! q
            = if decide (q ∈ owners tcpConns udpConns /\ path q <> ""%string)
              then Some (path q) else None).
  { intros q. unfold w. rewrite weigh_accounted, accounted_names, contributions_owners. done. }
  assert (Hin : forall q, q ∈ l.*1 -> q ∈ owners tcpConns udpConns).
  { intros q [[q' x] [-> Hq]]%list_elem_of_fmap.
    apply (visited_entries rng path tcpConns udpConns q' x Hrng Ht Hu) in Hq as [Hq _].
    done. }
  destruct (distributed_sums U D w l) as (Hup & Hdown & Hsize).
  { rewrite Hperm. apply NoDup_fst_map_to_list. }
  { intros q Hq%Hin. exists (path q). rewrite Hnames, decide_True; auto. }
  { intros p1 p2 name H1%Hin H2%Hin. rewrite !Hnames, !decide_True by auto.
    intros [= E1] [= E2]. apply Hinj; congruence. }
  assert (Hlen : length l = size (processWeights w)).
  { rewrite Hperm, length_map_to_list. done. }
  assert (Hsums : forall total,
    sumZ ((fun e => share total e.2 (totalWeight w)) <$> l)
    = sumZ ((fun h => share total (f64_of_halves h)
                        (f64_of_halves (total_weight_halves tcpConns udpConns)))
            <$> (map_to_list (halves_map cs)).*2)).
  { intros total.
    rewrite (sumZ_perm _ _ (fmap_Permutation _ _ _ Hperm)).
    rewrite Hw, map_to_list_fmap, Hs, <- !list_fmap_compose.
    done. }
  assert (Hvals := halves_map_values cs (contributions_pos tcpConns udpConns)).
  fold (total_weight_halves tcpConns udpConns) in Hvals.
  assert (Hsum : sumZ (map_to_list (halves_map cs)).*2 = total_weight_halves tcpConns udpConns).
  { apply map_sum_halves_map. }
  assert (Hn : length (map_to_list (halves_map cs)).*2 = size (processWeights w)).
  { rewrite length_fmap, length_map_to_list, Hw, map_size_fmap. done. }
  assert (PT : (0 < IZR (total_weight_halves tcpConns udpConns))%R) by (apply IZR_lt; lia).
  assert (E1 : (IZR (total_weight_halves tcpConns udpConns)
                / IZR (total_weight_halves tcpConns udpConns) = 1)%R) by (field; lra).
  split; [lia|]. rewrite Hsize, Hlen, Hup, Hdown, !Hsums. split.
  - destruct (shares_sum_bounds U (total_weight_halves tcpConns udpConns)
                (map_to_list (halves_map cs)).*2) as [B1 B2]; [lia|lia|done|].
    rewrite Hsum, E1, Rmult_1_r in B1, B2. rewrite Hn in B2.
    apply drift_from_bounds; done.
  - destruct (shares_sum_bounds D (total_weight_halves tcpConns udpConns)
                (map_to_list (halves_map cs)).*2) as [B1 B2]; [lia|lia|done|].
    rewrite Hsum, E1, Rmult_1_r in B1, B2. rewrite Hn in B2.
    apply drift_from_bounds; done.
Qed.

(** *** Concrete samplings *)

Lemma range_canonical_ok : range_ok range_canonical.
Proof. intros K EqK CK V m. done. Qed.

Lemma range_reversed_ok : range_ok range_reversed.
Proof. intros K EqK CK V m. apply reverse_Permutation. Qed.

Lemma entries_of (r : gmap string processData) (l : list (string * processData))
    (name : string) (d : processData) :
  map_to_list r = l -> r !! name = Some d -> (name, d) ∈ l.
Proof. intros <- H. apply elem_of_map_to_list. done. Qed.

(** C1. The distribution loop stores the share of a pid under the name of
    its process and so overwrites the share of another pid of that name.
    Pids 100 and 200 run the same executable and own one established
    connection each, of a system that uploaded 1000 bytes and downloaded
    2000: the result has the one entry of the pid that the loop visits
    last, with its half of the traffic, and the other pid, whose name
    resolves and whose weight is half of the total, receives nothing. *)
Theorem shared_name_drops_a_pid :
  getSystemNetworkIO scenario_shared = Ok (1000, 2000)
  /\ map_to_list (result_of (getNetworkProcesses range_canonical scenario_shared))
     = [("chrome.exe"%string,
         {| processID := 200; uploadBytes := 500; downloadBytes := 1000 |})]
  /\ map_to_list (result_of (getNetworkProcesses range_reversed scenario_shared))
     = [("chrome.exe"%string,
         {| processID := 100; uploadBytes := 500; downloadBytes := 1000 |})]
  /\ (exists pid,
        pid ∈ owners [conn 5 100; conn 5 200] [] /\ path_shared pid <> ""%string
        /\ forall name d,
             result_of (getNetworkProcesses range_canonical scenario_shared) !! name = Some d ->
             processID d <> pid)
  /\ (exists pid,
        pid ∈ owners [conn 5 100; conn 5 200] [] /\ path_shared pid <> ""%string
        /\ forall name d,
             result_of (getNetworkProcesses range_reversed scenario_shared) !! name = Some d ->
             processID d <> pid).
Proof.
  assert (E1 : map_to_list (result_of (getNetworkProcesses range_canonical scenario_shared))
               = [("chrome.exe"%string,
                   {| processID := 200; uploadBytes := 500; downloadBytes := 1000 |})])
    by (vm_compute; reflexivity).
  assert (E2 : map_to_list (result_of (getNetworkProcesses range_reversed scenario_shared))
               = [("chrome.exe"%string,
                   {| processID := 100; uploadBytes := 500; downloadBytes := 1000 |})])
    by (vm_compute; reflexivity).
  split; [vm_compute; reflexivity|]. split; [exact E1|]. split; [exact E2|].
  split.
  - exists 100. split; [apply elem_of_cons; auto|]. split; [done|].
    intros name d Hd. apply (entries_of _ _ _ _ E1) in Hd.
    apply list_elem_of_singleton in Hd. injection Hd as _ ->. done.
  - exists 200. split; [apply elem_of_cons; right; apply elem_of_cons; auto|]. split; [done|].
    intros name d Hd. apply (entries_of _ _ _ _ E2) in Hd.
    apply list_elem_of_singleton in Hd. injection Hd as _ ->. done.
Qed.

Lemma owners_AB (pid : Z) :
  pid ∈ owners [conn 5 100; conn 5 100] [endpoint 200] -> pid = 100 \/ pid = 200.
Proof.
  cbn. intros H. repeat (apply elem_of_cons in H as [H|H]; [auto|]).
  apply elem_of_nil in H. done.
Qed.

(** C3 (amended). When every pid that owns a connection has a name of its
    own and the byte totals are at most 2^50, the shares handed out add up
    to the total less at most one byte per process, for the upload and for
    the download; each share is computed on its own and nobody receives
    the remainder. With two established TCP connections of A, one UDP
    endpoint of B and totals (1000, 2000), A receives
    floor(1000 * 20 / 20.5) = 975 upload bytes and B receives
    floor(1000 * 0.5 / 20.5) = 24, one byte short of the remainder. *)
Theorem apportioned_sum_within_drift :
  (forall (rng : range_order) (os : system) (U D : Z)
          (tcpConns : list tcpRow) (udpConns : list udpRow),
     range_ok rng ->
     getSystemNetworkIO os = Ok (U, D) ->
     tcp_stats os = Ok tcpConns -> udp_stats os = Ok udpConns ->
     Z.of_nat (length tcpConns) < 2 ^ 32 -> Z.of_nat (length udpConns) < 2 ^ 32 ->
     owners tcpConns udpConns <> [] ->
     (forall pid, pid ∈ owners tcpConns udpConns -> getProcessPath os pid <> ""%string) ->
     (forall p q, p ∈ owners tcpConns udpConns -> q ∈ owners tcpConns udpConns ->
        getProcessPath os p = getProcessPath os q -> p = q) ->
     0 <= U <= 2 ^ 50 -> 0 <= D <= 2 ^ 50 ->
     exists result,
       getNetworkProcesses rng os = Ok result
       /\ size result
          = size (processWeights (weigh (getProcessPath os) tcpConns udpConns))
       /\ U - Z.of_nat (size result) <= uploaded result <= U
       /\ D - Z.of_nat (size result) <= downloaded result <= D)
  /\ (forall rng : range_order,
        range_ok rng ->
        exists result,
          getNetworkProcesses rng scenario_AB = Ok result
          /\ result !! "A.exe"%string
             = Some {| processID := 100; uploadBytes := 975; downloadBytes := 1951 |}
          /\ result !! "B.exe"%string
             = Some {| processID := 200; uploadBytes := 24; downloadBytes := 48 |}
          /\ 975 = 1000 * 40 / 41 /\ 24 = 1000 * 1 / 41).
Proof.
  split.
  - intros rng os U D tcpConns udpConns Hrng HIO Htcp Hudp Ht Hu Hne Hres Hinj HU HD.
    exists (distribute rng U D (weigh (getProcessPath os) tcpConns udpConns)).
    split; [apply getNetworkProcesses_ok; done|].
    apply apportioned_sums; done.
  - intros rng Hrng.
    exists (distribute rng 1000 2000 (weigh path_AB [conn 5 100; conn 5 100] [endpoint 200])).
    split; [done|].
    assert (Hlen : Z.of_nat (length [conn 5 100; conn 5 100]) < 2 ^ 32
                   /\ Z.of_nat (length [endpoint 200]) < 2 ^ 32) by (cbn; lia).
    destruct Hlen as [Ht Hu].
    split; [|split; [|done]].
    + destruct (named_entry rng path_AB 1000 2000 _ _ 100 Hrng Ht Hu)
        as (pid' & Hown & Hsame & Hentry); [apply elem_of_cons; auto|done|].
      apply owners_AB in Hown as [-> | ->]; [|done]. exact Hentry.
    + destruct (named_entry rng path_AB 1000 2000 _ _ 200 Hrng Ht Hu)
        as (pid' & Hown & Hsame & Hentry);
        [do 2 (apply elem_of_cons; right); apply elem_of_cons; auto|done|].
      apply owners_AB in Hown as [-> | ->]; [done|]. exact Hentry.
Qed.

(** C3, counterexample. In the scenario of the claim B receives 24 bytes,
    not the remainder 1000 - 975 = 25. Two further samplings show what the
    bound on the drift depends on: two pids of one executable leave one
    entry holding 500 of 1000 bytes, and an upload counter of 2^60 + 127
    bytes, which float64 rounds to 2^60, loses 127 bytes to one process. *)
Lemma apportionment_counterexample :
  (exists a b,
     result_of (getNetworkProcesses range_canonical scenario_AB) !! "A.exe"%string = Some a
     /\ result_of (getNetworkProcesses range_canonical scenario_AB) !! "B.exe"%string = Some b
     /\ uploadBytes a = 1000 * 40 / 41
     /\ uploadBytes b <> 1000 - uploadBytes a)
  /\ (size (result_of (getNetworkProcesses range_canonical scenario_shared)) = 1%nat
      /\ uploaded (result_of (getNetworkProcesses range_canonical scenario_shared)) = 500
      /\ size (result_of (getNetworkProcesses range_reversed scenario_shared)) = 1%nat
      /\ uploaded (result_of (getNetworkProcesses range_reversed scenario_shared)) = 500)
  /\ (size (result_of (getNetworkProcesses range_canonical scenario_large)) = 1%nat
      /\ uploaded (result_of (getNetworkProcesses range_canonical scenario_large))
         = 2 ^ 60 + 127 - 127).
Proof.
  split; [|split].
  - exists {| processID := 100; uploadBytes := 975; downloadBytes := 1951 |},
           {| processID := 200; uploadBytes := 24; downloadBytes := 48 |}.
    split; [vm_compute; reflexivity|]. split; [vm_compute; reflexivity|].
    split; [reflexivity|]. cbn. lia.
  - repeat split; vm_compute; reflexivity.
  - split; vm_compute; reflexivity.
Qed.

(** The theorem of C3 at the scenario of the claim. *)
Lemma apportioned_sum_witness :
  exists result,
    getNetworkProcesses range_canonical scenario_AB = Ok result
    /\ size result
       = size (processWeights (weigh path_AB [conn 5 100; conn 5 100] [endpoint 200]))
    /\ 1000 - Z.of_nat (size result) <= uploaded result <= 1000
    /\ 2000 - Z.of_nat (size result) <= downloaded result <= 2000.
Proof.
  apply (proj1 apportioned_sum_within_drift range_canonical scenario_AB 1000 2000
           [conn 5 100; conn 5 100] [endpoint 200]).
  - apply range_canonical_ok.
  - vm_compute. reflexivity.
  - reflexivity.
  - reflexivity.
  - cbn. lia.
  - cbn. lia.
  - discriminate.
  - intros pid [-> | ->]%owners_AB; discriminate.
  - intros p q [-> | ->]%owners_AB [-> | ->]%owners_AB; try reflexivity; discriminate.
  - lia.
  - lia.
Defined.

(** [attribution_by_weight] at the scenario of A and B: the weights are 20
    and 0.5 of 20.5, A and B have their entries. *)
Lemma attribution_by_weight_witness :
  exists result,
    getNetworkProcesses range_canonical scenario_AB = Ok result
    /\ processWeights (weigh path_AB [conn 5 100; conn 5 100] [endpoint 200]) !! 100
       = Some (f64_of_halves 40)
    /\ processWeights (weigh path_AB [conn 5 100; conn 5 100] [endpoint 200]) !! 200
       = Some (f64_of_halves 1)
    /\ totalWeight (weigh path_AB [conn 5 100; conn 5 100] [endpoint 200])
       = f64_of_halves 41
    /\ proportional 1000 975 40 41.
Proof.
  destruct (attribution_by_weight range_canonical scenario_AB 1000 2000
              [conn 5 100; conn 5 100] [endpoint 200])
    as (result & Hok & Htotal & Hpid).
  - apply range_canonical_ok.
  - vm_compute. reflexivity.
  - reflexivity.
  - reflexivity.
  - cbn. lia.
  - cbn. lia.
  - exists result. split; [exact Hok|].
    destruct (Hpid 100) as (Hw100 & _ & _ & _ & Hprop & _); [apply elem_of_cons; auto|].
    destruct (Hpid 200) as (Hw200 & _); [do 2 (apply elem_of_cons; right); apply elem_of_cons; auto|].
    split; [exact Hw100|]. split; [exact Hw200|]. split; [exact Htotal|].
    apply Hprop. lia.
Defined.

End CounterFacts.

(** ** The monitor *)

Module MonitorFacts.
Import Float64 GoTime Counter Monitor Attribution Lifetime Float64Facts CounterFacts.

(** *** The inactivity sweep *)

Lemma Sub_exceeds (now last : Time) (d : Duration) :
  d < maxDuration -> d < now - last -> d < Sub now last.
Proof.
  intros Hd Hlt. unfold Sub, minDuration, maxDuration, Int64.int64_min, Int64.int64_max in *.
  destruct (Z.ltb_spec (now - last) (- 2 ^ 63)); [lia|].
  destruct (Z.ltb_spec (2 ^ 63 - 1) (now - last)); lia.
Qed.

(** C5. An entry whose [LastUpdate] lies more than 3 seconds before the
    time of the inactivity sweep is deleted by the sweep and absent from
    the map [GetStats] returns afterwards; in particular after one turn of
    the monitor loop, whose sweep follows its [collect]. *)
Theorem inactive_entry_removed :
  (forall (m : Monitor) (now : Time) (name : string) (stat : NetworkStat),
     stats m !! name = Some stat ->
     3 * Second < now - LastUpdate stat ->
     GetStats (cleanupInactive now m) !! name = None)
  /\ (forall (rng : range_order) (os : system) (now now' : Time) (m : Monitor)
             (name : string) (stat : NetworkStat),
        paused m = false ->
        stats (collect rng os now m).1 !! name = Some stat ->
        3 * Second < now' - LastUpdate stat ->
        GetStats (tick rng os now now' m) !! name = None).
Proof.
  assert (Hsweep : forall (m : Monitor) (now : Time) (name : string) (stat : NetworkStat),
     stats m !! name = Some stat ->
     3 * Second < now - LastUpdate stat ->
     GetStats (cleanupInactive now m) !! name = None).
  { intros m now name stat Hst Hold. unfold GetStats, cleanupInactive.
    cbn [stats set_stats]. rewrite lookup_fmap.
    rewrite map_lookup_filter, Hst. cbn.
    rewrite option_guard_False; [done|]. cbn. intros Hkeep. apply Hkeep.
    apply Sub_exceeds; [done|]. unfold CLEANUP_THRESHOLD. lia. }
  split; [exact Hsweep|].
  intros rng os now now' m name stat Hp Hst Hold. unfold tick. rewrite Hp.
  apply (Hsweep _ _ _ stat); done.
Qed.

(** C5 at a concrete entry, last updated four seconds before the sweep. *)
Lemma inactive_entry_removed_witness :
  GetStats
    (cleanupInactive (63900000004 * Second)
       {| db := None;
          stats := {[ "app.exe"%string :=
                      {| AppName := "app.exe"; ProcessID := 100; UploadSpeed := 10;
                         DownloadSpeed := 20; TotalUpload := 1000; TotalDownload := 2000;
                         LastUpdate := 63900000000 * Second |} ]};
          batch := []; paused := false; lastUpdate := 63900000000 * Second;
          saveEnabled := true |}) !! "app.exe"%string = None.
Proof.
  apply (proj1 inactive_entry_removed _ _ _
           {| AppName := "app.exe"; ProcessID := 100; UploadSpeed := 10;
              DownloadSpeed := 20; TotalUpload := 1000; TotalDownload := 2000;
              LastUpdate := 63900000000 * Second |}).
  - apply lookup_singleton_eq.
  - vm_compute. reflexivity.
Defined.

(** *** Flushing with persistence disabled *)

(** C8. After [SetSaveEnabled(false)] the flag is off, and a flush with
    the flag off empties the pending buffer and touches nothing else: the
    store, if any, keeps its usage records, its metadata and its daily
    summaries, so its record count is the same before and after. *)
Theorem flush_disabled_discards :
  (forall m0 : Monitor,
     saveEnabled (SetSaveEnabled false m0) = false
     /\ batch (SetSaveEnabled false m0) = batch m0
     /\ db (SetSaveEnabled false m0) = db m0)
  /\ (forall (rng : range_order) (env : storage) (now : Z) (today : string) (m : Monitor),
        saveEnabled m = false ->
        batch (flushBatch rng env now today m) = []
        /\ db (flushBatch rng env now today m) = db m
        /\ stats (flushBatch rng env now today m) = stats m
        /\ saveEnabled (flushBatch rng env now today m) = false
        /\ forall store, db m = Some store ->
             exists store',
               db (flushBatch rng env now today m) = Some store'
               /\ Database.usage_records store' = Database.usage_records store
               /\ Database.app_metadata store' = Database.app_metadata store
               /\ Database.daily_summaries store' = Database.daily_summaries store
               /\ Database.GetRecordCount store' = Database.GetRecordCount store).
Proof.
  split; [done|].
  intros rng env now today m Hoff. unfold flushBatch. rewrite Hoff. cbn.
  repeat split; try done.
  intros store ->. exists store. done.
Qed.

(** C8 on a monitor with one pending record and an empty store. *)
Lemma flush_disabled_discards_witness :
  let m := SetSaveEnabled false
             {| db := Some Database.empty_db; stats := ∅; batch := [pending];
                paused := false; lastUpdate := t0; saveEnabled := true |} in
  batch (flushBatch range_canonical no_faults (Unix t0) "2025-12-01" m) = []
  /\ db (flushBatch range_canonical no_faults (Unix t0) "2025-12-01" m)
     = Some Database.empty_db.
Proof.
  cbn zeta.
  destruct (proj2 flush_disabled_discards range_canonical no_faults (Unix t0)
              "2025-12-01"%string
              (SetSaveEnabled false
                 {| db := Some Database.empty_db; stats := ∅; batch := [pending];
                    paused := false; lastUpdate := t0; saveEnabled := true |}))
    as (Hb & Hd & _).
  - reflexivity.
  - split; [exact Hb|exact Hd].
Defined.

(** *** What a tick attributes (C2, C6) *)

(** C2, the code at the failing input. The interface counters stand at
    (1000, 2000) at the first sample and at (1300, 2500) half a second
    later. The first sample attributes 1000 and 2000 bytes to the only
    process, and the second the whole 1300 and 2500: the cumulative
    counters themselves are apportioned, never their growth. *)
Theorem cumulative_counters_are_attributed :
  let m1 := (collect range_canonical scenario_first t0 (New None)).1 in
  let m2 := (collect range_canonical scenario_second (t0 + UPDATE_INTERVAL) m1).1 in
  getNetworkProcesses range_canonical scenario_first
  = Ok {[ "A.exe"%string := {| processID := 100; uploadBytes := 1000; downloadBytes := 2000 |} ]}
  /\ getNetworkProcesses range_canonical scenario_second
     = Ok {[ "A.exe"%string := {| processID := 100; uploadBytes := 1300; downloadBytes := 2500 |} ]}
  /\ stats m1 !! "A.exe"%string
     = Some {| AppName := "A.exe"; ProcessID := 100; UploadSpeed := 1000;
               DownloadSpeed := 2000; TotalUpload := 1000; TotalDownload := 2000;
               LastUpdate := t0 |}
  /\ stats m2 !! "A.exe"%string
     = Some {| AppName := "A.exe"; ProcessID := 100; UploadSpeed := 2600;
               DownloadSpeed := 5000; TotalUpload := 2300; TotalDownload := 4500;
               LastUpdate := t0 + UPDATE_INTERVAL |}.
Proof. cbn zeta. repeat split; vm_compute; reflexivity. Qed.

(** C6, the code at the failing input. a.exe is attributed zero bytes in
    both directions, so the first loop skips it; the second loop resets the
    speeds only of names that are not keys of [processes], and a.exe is
    one: its entry keeps the speeds of the tick before. *)
Theorem zero_delta_entry_keeps_speeds :
  let m' := (collect range_canonical scenario_idle (t0 + UPDATE_INTERVAL) busy_before).1 in
  result_of (getNetworkProcesses range_canonical scenario_idle) !! "a.exe"%string
  = Some {| processID := 100; uploadBytes := 0; downloadBytes := 0 |}
  /\ stats m' !! "a.exe"%string
     = Some {| AppName := "a.exe"; ProcessID := 100; UploadSpeed := 100;
               DownloadSpeed := 200; TotalUpload := 1000; TotalDownload := 2000;
               LastUpdate := t0 |}.
Proof. cbn zeta. split; vm_compute; reflexivity. Qed.

(** *** The running totals (C4) *)

Lemma wrap64_in_int64 (z : Z) : Int64.in_int64 (Int64.wrap64 z).
Proof.
  unfold Int64.in_int64, Int64.wrap64, Int64.int64_min, Int64.int64_max.
  pose proof (Z.mod_pos_bound (z + 2 ^ 63) (2 ^ 64) ltac:(lia)).
  change (2 ^ 64) with (2 * 2 ^ 63) in *. lia.
Qed.

Lemma add64_exact (a d : Z) :
  Int64.in_int64 a -> 0 <= d -> a + d <= Int64.int64_max -> Int64.add64 a d = a + d.
Proof.
  unfold Int64.in_int64, Int64.add64, Int64.wrap64, Int64.int64_min, Int64.int64_max.
  intros Ha Hd Hsum. rewrite Z.mod_small; [lia|].
  change (2 ^ 64) with (2 * 2 ^ 63). lia.
Qed.

Lemma collect_fold_miss (now : Time) (l : list (string * processData))
    (acc : gmap string NetworkStat * list batchRecord) (name : string) :
  name ∉ l.*1 ->
  (fold_left (collect_step now) l acc).1 !! name = acc.1 !! name.
Proof.
  revert acc. induction l as [|[n0 d0] l IH]; intros acc Hnot; [done|].
  cbn [fold_left]. rewrite IH.
  - unfold collect_step.
    destruct ((uploadBytes d0 =? 0) && (downloadBytes d0 =? 0)); [done|].
    cbn [fst]. apply lookup_insert_ne. intros ->. apply Hnot.
    cbn. apply elem_of_cons. auto.
  - intros Hin. apply Hnot. cbn. apply elem_of_cons. auto.
Qed.

Lemma collect_fold_hit (now : Time) (l : list (string * processData))
    (acc : gmap string NetworkStat * list batchRecord) (name : string)
    (data : processData) :
  NoDup l.*1 -> (name, data) ∈ l ->
  (fold_left (collect_step now) l acc).1 !! name
  = if zero_delta data then acc.1 !! name
    else Some (touch now name data (acc.1 !! name)).
Proof.
  revert acc. induction l as [|[n0 d0] l IH]; intros acc Hnd Hin.
  - apply elem_of_nil in Hin. done.
  - cbn [fmap list_fmap fst] in Hnd. apply NoDup_cons in Hnd as [Hn0 Hnd].
    cbn [fold_left]. apply elem_of_cons in Hin as [Heq|Hin].
    + injection Heq as <- <-. rewrite collect_fold_miss by done.
      unfold collect_step, zero_delta.
      destruct ((uploadBytes data =? 0) && (downloadBytes data =? 0)); [done|].
      cbn [fst]. apply lookup_insert_eq.
    + assert (Hne : n0 <> name).
      { intros ->. apply Hn0. apply list_elem_of_fmap. exists (name, data). done. }
      rewrite IH by done.
      assert (E : (collect_step now acc (n0, d0)).1 !! name = acc.1 !! name).
      { unfold collect_step.
        destruct ((uploadBytes d0 =? 0) && (downloadBytes d0 =? 0)); [done|].
        cbn [fst]. apply lookup_insert_ne. done. }
      rewrite E. done.
Qed.

(** The entry of [name] after a [collect] that sampled [processes]. *)
Lemma collect_lookup (rng : range_order) (os : system) (now : Time) (m : Monitor)
    (processes : gmap string processData) (name : string) :
  range_ok rng -> paused m = false ->
  getNetworkProcesses rng os = Ok processes ->
  stats (collect rng os now m).1 !! name
  = match processes !! name with
    | Some data =>
        if zero_delta data then stats m !! name
        else Some (touch now name data (stats m !! name))
    | None => reset_idle processes name <$> stats m !! name
    end.
Proof.
  intros Hrng Hp Hok. unfold collect. rewrite Hp, Hok.
  pose proof (Hrng _ _ _ _ processes) as Hperm.
  set (l := rng _ _ _ _ processes) in *.
  assert (Hnd : NoDup l.*1).
  { rewrite Hperm. apply NoDup_fst_map_to_list. }
  destruct (fold_left (collect_step now) l (stats m, batch m)) as [s1 b1] eqn:Hfold.
  cbn [fst stats]. rewrite map_lookup_imap.
  assert (Hs1 : s1 = (fold_left (collect_step now) l (stats m, batch m)).1)
    by (rewrite Hfold; done).
  destruct (processes !! name) as [data|] eqn:Hdata.
  - assert (Hin : (name, data) ∈ l).
    { rewrite Hperm. apply elem_of_map_to_list. done. }
    rewrite Hs1, (collect_fold_hit now l _ name data Hnd Hin). cbn [fst].
    destruct (zero_delta data).
    + destruct (stats m !! name) as [st|]; [|done]. cbn.
      unfold reset_idle. rewrite Hdata. done.
    + cbn. unfold reset_idle. rewrite Hdata. done.
  - assert (Hnot : name ∉ l.*1).
    { intros [[n d] [-> Hin]]%list_elem_of_fmap.
      rewrite Hperm in Hin. apply elem_of_map_to_list in Hin. cbn in Hdata. congruence. }
    rewrite Hs1, collect_fold_miss by done. cbn [fst].
    destruct (stats m !! name) as [st|]; done.
Qed.

(** In range, every share is non-negative. *)
Lemma processes_nonneg (rng : range_order) (os : system)
    (processes : gmap string processData) (name : string) (data : processData) :
  range_ok rng -> sampling_in_range os ->
  getNetworkProcesses rng os = Ok processes ->
  processes !! name = Some data ->
  0 <= uploadBytes data /\ 0 <= downloadBytes data.
Proof.
  intros Hrng (HIO & Htcp & Hudp) Hok Hdata.
  unfold getNetworkProcesses in Hok.
  destruct (getSystemNetworkIO os) as [[U D]|] eqn:EIO; [|done].
  destruct (tcp_stats os) as [tcpConns|] eqn:Et; [|done].
  destruct (udp_stats os) as [udpConns|] eqn:Eu; [|done].
  injection Hok as <-.
  destruct (HIO U D eq_refl) as [HU HD].
  specialize (Htcp tcpConns eq_refl). specialize (Hudp udpConns eq_refl).
  unfold distribute in Hdata.
  destruct (f64_ltb f64_zero _); [|rewrite lookup_empty in Hdata; done].
  destruct (distributed_origin U D _ _ _ _ Hdata) as (pid & wt & Hin & _ & _ & ->).
  apply visited_entries in Hin as [Hown ->]; [|done..].
  destruct (weigh_weights (getProcessPath os) tcpConns udpConns Htcp Hudp)
    as (_ & Hs & Hb & _).
  pose proof (owner_weight_bounds pid tcpConns udpConns Hown) as Hwb.
  unfold total_weight_halves in Hwb.
  cbn [attributed uploadBytes downloadBytes]. rewrite Hs. split.
  - apply (share_bounds U); [done|done|lia].
  - apply (share_bounds D); [done|done|lia].
Qed.

Lemma collect_idle (rng : range_order) (os : system) (now : Time) (m : Monitor) :
  paused m = true \/ (exists e, getNetworkProcesses rng os = Err e) ->
  (collect rng os now m).1 = m.
Proof.
  intros [Hp|[e He]]; unfold collect.
  - rewrite Hp. done.
  - rewrite He. destruct (paused m); done.
Qed.

Lemma collect_cases (rng : range_order) (os : system) (now : Time) (m : Monitor) :
  (collect rng os now m).1 = m
  \/ (paused m = false /\ exists processes, getNetworkProcesses rng os = Ok processes).
Proof.
  destruct (paused m) eqn:Hp; [left; apply collect_idle; auto|].
  destruct (getNetworkProcesses rng os) as [processes|e] eqn:Hok.
  - right. split; [done|]. exists processes. done.
  - left. apply collect_idle. right. exists e. done.
Qed.

(** One [collect] in range does not lower the totals of an entry. *)
Lemma collect_totals (rng : range_order) (os : system) (now : Time) (m : Monitor)
    (name : string) (stat stat' : NetworkStat) :
  range_ok rng -> sampling_in_range os -> int64_totals m ->
  (forall processes, getNetworkProcesses rng os = Ok processes -> no_overflow processes m) ->
  stats m !! name = Some stat ->
  stats (collect rng os now m).1 !! name = Some stat' ->
  TotalUpload stat <= TotalUpload stat' /\ TotalDownload stat <= TotalDownload stat'.
Proof.
  intros Hrng Hin Hwf Hno Hst Hst'.
  destruct (collect_cases rng os now m) as [E|(Hp & processes & Hok)].
  { rewrite E in Hst'. simplify_eq. lia. }
  rewrite (collect_lookup rng os now m processes name Hrng Hp Hok), Hst in Hst'.
  destruct (processes !! name) as [data|] eqn:Hdata.
  - destruct (zero_delta data); [simplify_eq; lia|].
    injection Hst' as <-. cbn [touch TotalUpload TotalDownload].
    destruct (processes_nonneg rng os processes name data Hrng Hin Hok Hdata) as [Hu Hd].
    destruct (Hno processes Hok name stat data Hst Hdata) as [Ou Od].
    destruct (Hwf name stat Hst) as [Wu Wd].
    rewrite !add64_exact by done. lia.
  - cbn in Hst'. injection Hst' as <-. unfold reset_idle. rewrite Hdata. cbn. lia.
Qed.

Lemma collect_int64_totals (rng : range_order) (os : system) (now : Time) (m : Monitor) :
  range_ok rng -> int64_totals m -> int64_totals (collect rng os now m).1.
Proof.
  intros Hrng Hwf.
  destruct (collect_cases rng os now m) as [E|(Hp & processes & Hok)].
  { rewrite E. done. }
  intros name stat' Hst'.
  rewrite (collect_lookup rng os now m processes name Hrng Hp Hok) in Hst'.
  destruct (processes !! name) as [data|] eqn:Hdata.
  - destruct (zero_delta data); [apply (Hwf name); done|].
    injection Hst' as <-. cbn [touch TotalUpload TotalDownload].
    split; apply wrap64_in_int64.
  - destruct (stats m !! name) as [stat|] eqn:Hst; [|done].
    cbn in Hst'. injection Hst' as <-. unfold reset_idle. rewrite Hdata. cbn.
    apply (Hwf name); done.
Qed.

Lemma flushBatch_stats (rng : range_order) (env : storage) (now : Z) (today : string)
    (m : Monitor) :
  stats (flushBatch rng env now today m) = stats m.
Proof.
  unfold flushBatch. repeat case_match; done.
Qed.

Lemma op_step_int64_totals (rng : range_order) (m m' : Monitor) :
  range_ok rng -> op_step rng m m' -> int64_totals m -> int64_totals m'.
Proof.
  intros Hrng Hstep Hwf. destruct Hstep; try done.
  - apply collect_int64_totals; done.
  - intros name stat Hst. cbn in Hst.
    apply map_lookup_filter_Some in Hst as [Hst _]. apply (Hwf name); done.
  - intros name stat Hst. rewrite flushBatch_stats in Hst. apply (Hwf name); done.
Qed.

Lemma op_step_totals (rng : range_order) (m m' : Monitor) (name : string)
    (stat stat' : NetworkStat) :
  range_ok rng -> op_step rng m m' -> int64_totals m ->
  stats m !! name = Some stat -> stats m' !! name = Some stat' ->
  TotalUpload stat <= TotalUpload stat' /\ TotalDownload stat <= TotalDownload stat'.
Proof.
  intros Hrng Hstep Hwf Hst Hst'. destruct Hstep.
  - apply (collect_totals rng os now m name); done.
  - cbn in Hst'. apply map_lookup_filter_Some in Hst' as [Hst' _]. simplify_eq. lia.
  - rewrite flushBatch_stats in Hst'. simplify_eq. lia.
  - cbn in Hst'. simplify_eq. lia.
  - cbn in Hst'. simplify_eq. lia.
  - cbn in Hst'. simplify_eq. lia.
Qed.

(** C4 (amended). Along the life of an entry in the stats map, through
    any sequence of collections, sweeps, flushes and flag changes, its
    [TotalUpload] and [TotalDownload] never decrease, as long as every
    sampling reads interface totals between 0 and 2^53 and no addition
    takes a total beyond the largest int64. *)
Theorem totals_non_decreasing (rng : range_order) (name : string) (m m' : Monitor)
    (stat stat' : NetworkStat) :
  range_ok rng -> int64_totals m ->
  lifetime rng name m m' ->
  stats m !! name = Some stat -> stats m' !! name = Some stat' ->
  TotalUpload stat <= TotalUpload stat' /\ TotalDownload stat <= TotalDownload stat'.
Proof.
  intros Hrng Hwf Hlife Hst. revert stat'.
  assert (H : int64_totals m'
              /\ forall stat', stats m' !! name = Some stat' ->
                   TotalUpload stat <= TotalUpload stat'
                   /\ TotalDownload stat <= TotalDownload stat');
    [|apply H].
  induction Hlife as [m|m1 m2 m3 Hlife IH [stat2 Hst2] Hstep].
  - split; [done|]. intros stat' Hst'. simplify_eq. lia.
  - destruct (IH Hwf Hst) as [Hwf2 Hmono]. split.
    + apply (op_step_int64_totals rng m2); done.
    + intros stat' Hst'.
      pose proof (Hmono stat2 Hst2).
      pose proof (op_step_totals rng m2 m3 name stat2 stat' Hrng Hstep Hwf2 Hst2 Hst').
      lia.
Qed.

(** C4, counterexample. Two turns of the monitor loop half a second
    apart, the upload counter at 2^62: the entry of A.exe holds 2^62 after
    the first and, the int64 addition wrapping around, -2^63 after the
    second. *)
Lemma totals_wrap_around :
  let m1 := tick range_canonical scenario_huge t0 t0 (New None) in
  let m2 := tick range_canonical scenario_huge (t0 + UPDATE_INTERVAL)
              (t0 + UPDATE_INTERVAL) m1 in
  exists stat1 stat2,
    stats m1 !! "A.exe"%string = Some stat1
    /\ stats m2 !! "A.exe"%string = Some stat2
    /\ TotalUpload stat1 = 2 ^ 62
    /\ TotalUpload stat2 = - 2 ^ 63
    /\ TotalUpload stat2 < TotalUpload stat1.
Proof.
  cbn zeta.
  exists {| AppName := "A.exe"; ProcessID := 100; UploadSpeed := 2 ^ 62;
            DownloadSpeed := 0; TotalUpload := 2 ^ 62; TotalDownload := 0;
            LastUpdate := t0 |},
         {| AppName := "A.exe"; ProcessID := 100; UploadSpeed := - 2 ^ 63;
            DownloadSpeed := 0; TotalUpload := - 2 ^ 63; TotalDownload := 0;
            LastUpdate := t0 + UPDATE_INTERVAL |}.
  split; [vm_compute; reflexivity|]. split; [vm_compute; reflexivity|].
  split; [reflexivity|]. split; [reflexivity|]. cbn. lia.
Qed.

Lemma seen_once_stats :
  stats seen_once
  = {[ "A.exe"%string :=
       {| AppName := "A.exe"; ProcessID := 100; UploadSpeed := 1000;
          DownloadSpeed := 2000; TotalUpload := 1000; TotalDownload := 2000;
          LastUpdate := t0 |} ]}.
Proof. vm_compute. reflexivity. Qed.

Lemma scenario_second_in_range : sampling_in_range scenario_second.
Proof.
  split; [|split].
  - intros U D H. vm_compute in H. injection H as <- <-. lia.
  - intros tcpConns H. injection H as <-. cbn. lia.
  - intros udpConns H. injection H as <-. cbn. lia.
Qed.

Lemma scenario_second_no_overflow (processes : gmap string processData) :
  getNetworkProcesses range_canonical scenario_second = Ok processes ->
  no_overflow processes seen_once.
Proof.
  intros H name stat data Hst Hdata.
  assert (E : getNetworkProcesses range_canonical scenario_second
              = Ok {[ "A.exe"%string :=
                      {| processID := 100; uploadBytes := 1300; downloadBytes := 2500 |} ]})
    by (vm_compute; reflexivity).
  rewrite E in H. injection H as <-.
  rewrite seen_once_stats in Hst.
  apply lookup_singleton_Some in Hst as [<- <-].
  apply lookup_singleton_Some in Hdata as [_ <-].
  unfold Int64.int64_max. cbn. lia.
Qed.

(** C4 over one turn of the loop, a collection and a sweep, on the monitor
    that has seen A.exe once: its totals go from (1000, 2000) to
    (2300, 4500). *)
Lemma totals_non_decreasing_witness :
  1000 <= 2300 /\ 2000 <= 4500.
Proof.
  apply (totals_non_decreasing range_canonical "A.exe" seen_once
           (cleanupInactive (t0 + UPDATE_INTERVAL)
              (collect range_canonical scenario_second (t0 + UPDATE_INTERVAL) seen_once).1)
           {| AppName := "A.exe"; ProcessID := 100; UploadSpeed := 1000;
              DownloadSpeed := 2000; TotalUpload := 1000; TotalDownload := 2000;
              LastUpdate := t0 |}
           {| AppName := "A.exe"; ProcessID := 100; UploadSpeed := 2600;
              DownloadSpeed := 5000; TotalUpload := 2300; TotalDownload := 4500;
              LastUpdate := t0 + UPDATE_INTERVAL |}).
  - apply range_canonical_ok.
  - intros name stat Hst. rewrite seen_once_stats in Hst.
    apply lookup_singleton_Some in Hst as [_ <-].
    unfold Int64.in_int64, Int64.int64_min, Int64.int64_max. cbn. lia.
  - eapply lifetime_step; [eapply lifetime_step; [apply lifetime_start| |]| |].
    + exists {| AppName := "A.exe"; ProcessID := 100; UploadSpeed := 1000;
                DownloadSpeed := 2000; TotalUpload := 1000; TotalDownload := 2000;
                LastUpdate := t0 |}.
      vm_compute. reflexivity.
    + apply (step_collect range_canonical scenario_second (t0 + UPDATE_INTERVAL) seen_once).
      * apply scenario_second_in_range.
      * apply scenario_second_no_overflow.
    + exists {| AppName := "A.exe"; ProcessID := 100; UploadSpeed := 2600;
                DownloadSpeed := 5000; TotalUpload := 2300; TotalDownload := 4500;
                LastUpdate := t0 + UPDATE_INTERVAL |}.
      vm_compute. reflexivity.
    + apply step_cleanup.
  - vm_compute. reflexivity.
  - vm_compute. reflexivity.
Defined.

(** *** A flush that reaches the store *)

Lemma insert_rows_summaries (records : list Database.UsageRecord) (store : Database.DB) :
  Database.daily_summaries (fold_left Database.insert_row records store)
  = Database.daily_summaries store
  /\ Database.summary_seq (fold_left Database.insert_row records store)
     = Database.summary_seq store.
Proof.
  revert store. induction records as [|r records IH]; intros store; [done|].
  cbn [fold_left]. destruct (IH (Database.insert_row store r)) as [-> ->]. done.
Qed.

Lemma upserts_summaries (env : storage)
    (entries : list (string * Database.AppMetadata)) (store : Database.DB) :
  let store' :=
    fold_left
      (fun s entry =>
         (Database.UpsertAppMetadata (st_meta_fault env entry.1) s entry.2).1)
      entries store in
  Database.daily_summaries store' = Database.daily_summaries store
  /\ Database.summary_seq store' = Database.summary_seq store.
Proof.
  cbn zeta. revert store. induction entries as [|e entries IH]; intros store; [done|].
  cbn [fold_left]. destruct (IH (Database.UpsertAppMetadata (st_meta_fault env e.1) store e.2).1)
    as [-> ->].
  unfold Database.UpsertAppMetadata. destruct (st_meta_fault env e.1); done.
Qed.

(** A flush whose transaction and summary update meet no error adds the
    totals of the batch to the summary of the day. *)
Lemma flush_adds_batch_totals (rng : range_order) (env : storage) (now : Z)
    (today : string) (m : Monitor) (store : Database.DB) :
  saveEnabled m = true -> db m = Some store -> batch m <> [] ->
  (Database.BatchInsertUsageRecords (st_disk env) (st_batch_fault env) store
     (to_usage_record <$> batch m)).2 = None ->
  st_summary_fault env = None ->
  exists store',
    db (flushBatch rng env now today m) = Some store'
    /\ batch (flushBatch rng env now today m) = []
    /\ Database.daily_summaries store'
       = Database.daily_summaries
           (Database.UpdateDailySummary None store today
              (batch_upload (batch m)) (batch_download (batch m))).1.
Proof.
  intros Hon Hdb Hne Hins Hsum. unfold flushBatch. rewrite Hon, Hdb. cbn [negb].
  destruct (batch m) as [|rec recs] eqn:Hb; [done|].
  unfold Database.BatchInsertUsageRecords in *.
  cbn [fmap list_fmap] in *.
  destruct (if (100 <? length _)%nat then _ else None) as [e|]; [done|].
  destruct (st_batch_fault env) as [e|]; [done|].
  eexists. split; [done|]. split; [done|].
  rewrite Hsum.
  match goal with
  | |- context [Database.UpdateDailySummary None (fold_left ?f ?entries ?s1) today] =>
      pose proof (upserts_summaries env entries s1) as Hs;
      assert (Hi : Database.daily_summaries s1 = Database.daily_summaries store
                   /\ Database.summary_seq s1 = Database.summary_seq store)
        by apply insert_rows_summaries;
      set (s2 := fold_left f entries s1) in *
  end.
  cbn zeta in Hs. destruct Hs as [Hs1 Hs2]. destruct Hi as [Hi1 Hi2].
  rewrite Hi1 in Hs1. rewrite Hi2 in Hs2.
  unfold Database.UpdateDailySummary. rewrite Hs1, Hs2.
  destruct (Database.daily_summaries store !! today); done.
Qed.

End MonitorFacts.

(** ** The store *)

Module DatabaseFacts.
Import GoTime Database Retry.

(** The text of a lock error is recognised wherever it stands in the
    message; other errors are not taken for one. *)
Lemma is_lock_error_examples :
  is_lock_error "database is locked" = true
  /\ is_lock_error "database is locked (5) (SQLITE_BUSY)" = true
  /\ is_lock_error "sqlite: SQLITE_BUSY" = true
  /\ is_lock_error "step: database is locked, retry" = true
  /\ is_lock_error "disk I/O error" = false
  /\ is_lock_error "" = false.
Proof. repeat split; vm_compute; reflexivity. Qed.

(** The loop started at iteration [i] with [r] iterations left. *)
Lemma insert_loop_spec (exec : Z -> option error) (db : DB) (record : UsageRecord)
    (r : nat) (i : Z) :
  (1 <= r)%nat -> i + Z.of_nat r = maxRetries ->
  let o := insert_loop exec db record r i in
  let n := out_attempts o in
  (1 <= n <= r)%nat
  /\ out_sleeps o = (fun j => backoff (i + Z.of_nat j)) <$> seq 0 (n - 1)
  /\ (forall j, (j < n - 1)%nat ->
        exists err, exec (i + Z.of_nat j) = Some err /\ is_lock_error err = true)
  /\ match exec (i + Z.of_nat (n - 1)) with
     | None => out_err o = None /\ out_db o = insert_row db record
     | Some err =>
         out_err o = Some err /\ out_db o = db
         /\ (is_lock_error err = false \/ i + Z.of_nat n = maxRetries)
     end.
Proof.
  revert i. induction r as [|r IH]; intros i Hr Hi; [lia|].
  cbn zeta. cbn [insert_loop].
  destruct (exec i) as [err|] eqn:Ei.
  - destruct ((i <? maxRetries - 1) && is_lock_error err) eqn:Hretry.
    + apply andb_true_iff in Hretry as [Hlt%Z.ltb_lt Hlock].
      destruct (IH (i + 1)) as (Hn & Hsl & Hbusy & Hlast); [lia|lia|].
      cbn zeta in Hn, Hsl, Hbusy, Hlast.
      set (o := insert_loop exec db record r (i + 1)) in *.
      cbn [out_attempts out_sleeps out_err out_db].
      replace (S (out_attempts o) - 1)%nat with (S (out_attempts o - 1)) by lia.
      split; [lia|]. split; [|split].
      * cbn [seq fmap list_fmap]. rewrite Z.add_0_r. f_equal.
        rewrite Hsl, <- fmap_S_seq, <- list_fmap_compose.
        apply list_fmap_ext. intros _ j _. cbn. f_equal. lia.
      * intros [|j] Hj.
        -- rewrite Z.add_0_r. eauto.
        -- destruct (Hbusy j) as (e & He & Hl); [lia|]. exists e. split; [|done].
           rewrite <- He. f_equal. lia.
      * replace (i + Z.of_nat (S (out_attempts o - 1)))
          with (i + 1 + Z.of_nat (out_attempts o - 1)) by lia.
        destruct (exec (i + 1 + Z.of_nat (out_attempts o - 1))); [|done].
        destruct Hlast as (H1 & H2 & H3). split; [done|]. split; [done|].
        destruct H3; [auto|right; lia].
    + cbn [out_attempts out_sleeps out_err out_db]. cbn [Nat.sub seq fmap list_fmap].
      split; [lia|]. split; [done|]. split; [intros j Hj; lia|].
      rewrite Z.add_0_r, Ei. split; [done|]. split; [done|].
      apply andb_false_iff in Hretry as [Hge%Z.ltb_ge|Hl]; [right; lia|auto].
  - cbn [out_attempts out_sleeps out_err out_db]. cbn [Nat.sub seq fmap list_fmap].
    split; [lia|]. split; [done|]. split; [intros j Hj; lia|].
    rewrite Z.add_0_r, Ei. done.
Qed.

(** C9. [InsertUsageRecord] executes the INSERT between one and five
    times. Every execution but the last failed with a busy or locked error
    and was followed by a pause of 50ms, 100ms, 200ms, 400ms in turn. The
    last execution either succeeded, and then the row is stored and nil is
    returned, or failed, and then its error is returned and nothing is
    stored; a failure that is not a busy or locked error is always the
    last execution, and a busy or locked one is the last only at the fifth
    attempt. *)
Theorem insert_retries_on_busy (exec : Z -> option error) (db : DB)
    (record : UsageRecord) :
  let o := InsertUsageRecord exec db record in
  let n := out_attempts o in
  (1 <= n <= 5)%nat
  /\ out_sleeps o = take (n - 1) backoff_schedule
  /\ (forall i, (i < n - 1)%nat ->
        exists err, exec (Z.of_nat i) = Some err /\ is_lock_error err = true)
  /\ match exec (Z.of_nat (n - 1)) with
     | None => out_err o = None /\ out_db o = insert_row db record
     | Some err =>
         out_err o = Some err /\ out_db o = db
         /\ (is_lock_error err = false \/ n = 5%nat)
     end.
Proof.
  cbn zeta. unfold InsertUsageRecord.
  destruct (insert_loop_spec exec db record (Z.to_nat maxRetries) 0)
    as (Hn & Hsl & Hbusy & Hlast); [unfold maxRetries; lia|reflexivity|].
  cbn zeta in Hn, Hsl, Hbusy, Hlast.
  set (o := insert_loop exec db record (Z.to_nat maxRetries) 0) in *.
  change (Z.to_nat maxRetries) with 5%nat in Hn.
  split; [done|]. split; [|split].
  - rewrite Hsl. destruct Hn as [H1 H5].
    destruct (out_attempts o) as [|[|[|[|[|[|k]]]]]]; try lia; reflexivity.
  - intros i Hi. apply (Hbusy i Hi).
  - change (0 + Z.of_nat (out_attempts o - 1)) with (Z.of_nat (out_attempts o - 1)) in Hlast.
    destruct (exec (Z.of_nat (out_attempts o - 1))); [|done].
    destruct Hlast as (H1 & H2 & H3). split; [done|]. split; [done|].
    destruct H3 as [H3|H3]; [auto|]. right. unfold maxRetries in H3. lia.
Qed.

(** An addition of INTEGERs that stays within int64 is stored as the
    INTEGER of the sum. *)
Lemma sql_add_within_int64 (x y : Z) :
  Int64.in_int64 (x + y) ->
  integer_affinity (sql_add (Integer x) (Integer y)) = Integer (x + y).
Proof.
  intros [Hlo Hhi]. unfold sql_add.
  apply Z.leb_le in Hlo, Hhi. rewrite Hlo, Hhi. done.
Qed.

(** The row that [scan_summary] reads without an error holds the totals of
    the summary as INTEGERs. *)
Lemma scan_summary_Ok (scan_error : string -> Float64.f64 -> error)
    (date : string) (row : summary_row) (summary : DailySummary) :
  scan_summary scan_error (date, row) = Ok summary ->
  total_upload row = Integer (TotalUpload summary)
  /\ total_download row = Integer (TotalDownload summary)
  /\ SummaryID summary = row_id row /\ Date summary = date.
Proof.
  unfold scan_summary. cbn [fst snd].
  destruct (total_upload row) as [upload|x]; [|done].
  destruct (total_download row) as [download|x]; [|done].
  intros [= <-]. done.
Qed.

(** C7. Two updates of the daily summary of one date, contributing
    (u1, d1) and (u2, d2), leave for that date the totals it had before
    (zero when it had no row) plus (u1 + u2, d1 + d2), as long as the
    summary could be read before and the sums of the totals, after the
    first update and after the second, are int64 values: a date without a
    row ends at exactly (u1 + u2, d1 + d2). The rows of other dates are left
    as they were. *)
Theorem daily_summary_additive (scan_error : string -> Float64.f64 -> error)
    (db : DB) (date : string) (before : DailySummary) (u1 d1 u2 d2 : Z) :
  GetDailySummary scan_error None db date = Ok before ->
  Int64.in_int64 (TotalUpload before + u1) ->
  Int64.in_int64 (TotalUpload before + u1 + u2) ->
  Int64.in_int64 (TotalDownload before + d1) ->
  Int64.in_int64 (TotalDownload before + d1 + d2) ->
  let db1 := (UpdateDailySummary None db date u1 d1).1 in
  let db2 := (UpdateDailySummary None db1 date u2 d2).1 in
  (exists after,
     GetDailySummary scan_error None db2 date = Ok after
     /\ Date after = date
     /\ TotalUpload after = TotalUpload before + (u1 + u2)
     /\ TotalDownload after = TotalDownload before + (d1 + d2))
  /\ (daily_summaries db !! date = None ->
      exists after,
        GetDailySummary scan_error None db2 date = Ok after
        /\ TotalUpload after = u1 + u2 /\ TotalDownload after = d1 + d2)
  /\ (forall other, other <> date ->
        daily_summaries db2 !! other = daily_summaries db !! other)
  /\ usage_records db2 = usage_records db.
Proof.
  intros Hbefore Hu1 Hu2 Hd1 Hd2. cbn zeta.
  unfold GetDailySummary in Hbefore. unfold UpdateDailySummary, GetDailySummary.
  destruct (daily_summaries db !! date) as [row|] eqn:Hrow;
    cbn [fst daily_summaries usage_records]; rewrite lookup_insert_eq;
    cbn [fst daily_summaries usage_records]; rewrite lookup_insert_eq;
    cbn [total_upload total_download row_id].
  - apply scan_summary_Ok in Hbefore as (Hup & Hdown & _).
    rewrite Hup, Hdown.
    rewrite (sql_add_within_int64 _ u1), (sql_add_within_int64 _ d1) by done.
    rewrite (sql_add_within_int64 _ u2), (sql_add_within_int64 _ d2) by done.
    split; [|split; [done|split]].
    + eexists. split; [reflexivity|]. cbn. split; [done|lia].
    + intros other Hne. rewrite !lookup_insert_ne by done. done.
    + done.
  - injection Hbefore as <-. cbn [TotalUpload TotalDownload] in *.
    rewrite (sql_add_within_int64 u1 u2), (sql_add_within_int64 d1 d2)
      by (rewrite ?Z.add_0_l in *; done).
    split; [|split; [|split]].
    + eexists. split; [reflexivity|]. cbn. split; [done|lia].
    + intros _. eexists. split; [reflexivity|]. cbn. lia.
    + intros other Hne. rewrite !lookup_insert_ne by done. done.
    + done.
Qed.

(** C7 on a day that has 100 and 200 bytes in its summary, with two
    updates of (10, 20) and (30, 40). *)
Lemma daily_summary_additive_witness :
  let db := (UpdateDailySummary None empty_db "2025-12-01" 100 200).1 in
  let db1 := (UpdateDailySummary None db "2025-12-01" 10 20).1 in
  let db2 := (UpdateDailySummary None db1 "2025-12-01" 30 40).1 in
  (exists after,
     GetDailySummary Summaries.column_error None db2 "2025-12-01" = Ok after
     /\ Date after = "2025-12-01"
     /\ TotalUpload after = 100 + (10 + 30)
     /\ TotalDownload after = 200 + (20 + 40))
  /\ (daily_summaries db !! "2025-12-01" = None ->
      exists after,
        GetDailySummary Summaries.column_error None db2 "2025-12-01" = Ok after
        /\ TotalUpload after = 10 + 30 /\ TotalDownload after = 20 + 40)
  /\ (forall other, other <> "2025-12-01" ->
        daily_summaries db2 !! other = daily_summaries db !! other)
  /\ usage_records db2 = usage_records db.
Proof.
  exact (daily_summary_additive Summaries.column_error
           (UpdateDailySummary None empty_db "2025-12-01" 100 200).1 "2025-12-01"
           {| SummaryID := 1; Date := "2025-12-01";
              TotalUpload := 100; TotalDownload := 200 |}
           10 20 30 40 eq_refl
           ltac:(vm_compute; split; discriminate)
           ltac:(vm_compute; split; discriminate)
           ltac:(vm_compute; split; discriminate)
           ltac:(vm_compute; split; discriminate)).
Defined.

(** C7, counterexample. On a date without a row, two updates of 2^62
    uploaded bytes each do not leave the total 2^63: the second addition
    leaves int64, SQLite stores the REAL 9223372036854775808.0 in the place
    of the total, and reading the summary ends in the error of the Scan. *)
Lemma daily_summary_overflow :
  let db1 := (UpdateDailySummary None empty_db "2025-12-01" (2 ^ 62) 0).1 in
  let db2 := (UpdateDailySummary None db1 "2025-12-01" (2 ^ 62) 0).1 in
  GetDailySummary Summaries.column_error None db1 "2025-12-01"
  = Ok {| SummaryID := 1; Date := "2025-12-01";
          TotalUpload := 2 ^ 62; TotalDownload := 0 |}
  /\ daily_summaries db2 !! "2025-12-01"
     = Some {| row_id := 1; total_upload := Real (Float64.f64_of_int64 (2 ^ 63));
               total_download := Integer 0 |}
  /\ (forall scan_error,
        GetDailySummary scan_error None db2 "2025-12-01"
        = Err (scan_error "total_upload" (Float64.f64_of_int64 (2 ^ 63))))
  /\ ~ (exists after,
          GetDailySummary Summaries.column_error None db2 "2025-12-01" = Ok after
          /\ TotalUpload after = 2 ^ 62 + 2 ^ 62).
Proof.
  cbn zeta.
  assert (Hrow : daily_summaries
                   (UpdateDailySummary None
                      (UpdateDailySummary None empty_db "2025-12-01" (2 ^ 62) 0).1
                      "2025-12-01" (2 ^ 62) 0).1 !! "2025-12-01"
                 = Some {| row_id := 1;
                           total_upload := Real (Float64.f64_of_int64 (2 ^ 63));
                           total_download := Integer 0 |}).
  { vm_compute. reflexivity. }
  split; [vm_compute; reflexivity|]. split; [exact Hrow|]. split.
  - intros scan_error. unfold GetDailySummary. rewrite Hrow. reflexivity.
  - intros (after & Hafter & _). unfold GetDailySummary in Hafter.
    rewrite Hrow in Hafter. discriminate.
Qed.

(** C10. Asking for the summary of a date that has no row returns, without
    error, the summary of that date with both totals zero. *)
Theorem missing_summary_is_zero (scan_error : string -> Float64.f64 -> error)
    (db : DB) (date : string) :
  daily_summaries db !! date = None ->
  GetDailySummary scan_error None db date
  = Ok {| SummaryID := 0; Date := date; TotalUpload := 0; TotalDownload := 0 |}.
Proof. intros Hnone. unfold GetDailySummary. rewrite Hnone. done. Qed.

(** C10 on the empty store. *)
Lemma missing_summary_is_zero_witness :
  GetDailySummary Summaries.column_error None empty_db "2025-12-01"
  = Ok {| SummaryID := 0; Date := "2025-12-01"; TotalUpload := 0; TotalDownload := 0 |}.
Proof. apply missing_summary_is_zero. apply lookup_empty. Defined.

End DatabaseFacts.

(** ** The counter source, further *)

Module SamplingFacts.
Import Float64 Counter Attribution Float64Facts CounterFacts.

Lemma wrap64_id (z : Z) : Int64.in_int64 z -> Int64.wrap64 z = z.
Proof.
  unfold Int64.in_int64, Int64.int64_min, Int64.int64_max, Int64.wrap64. intros H.
  rewrite Z.mod_small by lia. lia.
Qed.

Lemma system_io_fold (entries : list mibIfRow2) (u d : Z) :
  Forall (fun entry => 0 <= OutOctets entry < 2 ^ 63 /\ 0 <= InOctets entry < 2 ^ 63)
    entries ->
  0 <= u -> 0 <= d ->
  u + sumZ (OutOctets <$> entries) < 2 ^ 63 ->
  d + sumZ (InOctets <$> entries) < 2 ^ 63 ->
  fold_left
    (fun '(upload, download) entry =>
       (Int64.add64 upload (Int64.int64_of_uint64 (OutOctets entry)),
        Int64.add64 download (Int64.int64_of_uint64 (InOctets entry))))
    entries (u, d)
  = (u + sumZ (OutOctets <$> entries), d + sumZ (InOctets <$> entries)).
Proof.
  intros Hall. revert u d. induction Hall as [|entry entries [Ho Hi] Hall IH];
    intros u d Hu Hd Hsu Hsd.
  - cbn. f_equal; lia.
  - cbn [fold_left fmap list_fmap] in *. rewrite !sumZ_cons in *.
    assert (Hso : 0 <= sumZ (OutOctets <$> entries)).
    { clear -Hall. induction Hall as [|e es [? ?] _ IH]; [done|].
      cbn [fmap list_fmap]. rewrite sumZ_cons. lia. }
    assert (Hsi : 0 <= sumZ (InOctets <$> entries)).
    { clear -Hall. induction Hall as [|e es [? ?] _ IH]; [done|].
      cbn [fmap list_fmap]. rewrite sumZ_cons. lia. }
    unfold Int64.add64, Int64.int64_of_uint64.
    rewrite (wrap64_id (OutOctets entry)), (wrap64_id (InOctets entry))
      by (unfold Int64.in_int64, Int64.int64_min, Int64.int64_max; lia).
    rewrite (wrap64_id (u + OutOctets entry)), (wrap64_id (d + InOctets entry))
      by (unfold Int64.in_int64, Int64.int64_min, Int64.int64_max; lia).
    rewrite IH by lia. f_equal; lia.
Qed.

Lemma system_io_int64 (entries : list mibIfRow2) (u d : Z) :
  Int64.in_int64 u -> Int64.in_int64 d ->
  let r := fold_left
             (fun '(upload, download) entry =>
                (Int64.add64 upload (Int64.int64_of_uint64 (OutOctets entry)),
                 Int64.add64 download (Int64.int64_of_uint64 (InOctets entry))))
             entries (u, d) in
  Int64.in_int64 r.1 /\ Int64.in_int64 r.2.
Proof.
  cbn zeta. revert u d. induction entries as [|entry entries IH]; intros u d Hu Hd.
  - done.
  - cbn [fold_left]. apply IH; apply MonitorFacts.wrap64_in_int64.
Qed.

(** X1. [getSystemNetworkIO] fails when GetIfTable2 does, reads a nil
    table as no traffic, and otherwise returns the sums of the interfaces'
    octet counters, exactly so while the counters and their sums stay below
    2^63; what it returns is an int64 in every case. *)
Theorem system_io_sums_counters (os : system) :
  (if_table_ret os <> 0 ->
     getSystemNetworkIO os
     = Err ("GetIfTable2 failed with code " +:+ decimal (if_table_ret os)))
  /\ (if_table_ret os = 0 -> if_table os = None -> getSystemNetworkIO os = Ok (0, 0))
  /\ (forall entries,
        if_table_ret os = 0 -> if_table os = Some entries ->
        Forall (fun entry => 0 <= OutOctets entry < 2 ^ 63 /\ 0 <= InOctets entry < 2 ^ 63)
          entries ->
        sumZ (OutOctets <$> entries) < 2 ^ 63 ->
        sumZ (InOctets <$> entries) < 2 ^ 63 ->
        getSystemNetworkIO os
        = Ok (sumZ (OutOctets <$> entries), sumZ (InOctets <$> entries)))
  /\ (forall U D,
        getSystemNetworkIO os = Ok (U, D) -> Int64.in_int64 U /\ Int64.in_int64 D).
Proof.
  unfold getSystemNetworkIO. split; [|split; [|split]].
  - intros Hret. rewrite decide_False by done. done.
  - intros Hret Hnil. rewrite decide_True, Hnil by done. done.
  - intros entries Hret Htable Hall Hu Hd. rewrite decide_True, Htable by done.
    rewrite (system_io_fold entries 0 0) by (done || lia). done.
  - intros U D. destruct (decide (if_table_ret os = 0)); [|done].
    destruct (if_table os) as [entries|].
    + intros [= Heq].
      pose proof (system_io_int64 entries 0 0) as Hr. cbn zeta in Hr.
      rewrite Heq in Hr. apply Hr;
        unfold Int64.in_int64, Int64.int64_min, Int64.int64_max; lia.
    + intros [= <- <-]. unfold Int64.in_int64, Int64.int64_min, Int64.int64_max. lia.
Qed.

Lemma owners_nil (tcpConns : list tcpRow) (udpConns : list udpRow) :
  owners tcpConns udpConns = [] -> tcpConns = [] /\ udpConns = [].
Proof.
  unfold owners. intros [H1 H2]%app_eq_nil.
  apply fmap_nil_inv in H1, H2. done.
Qed.

(** X2. The keys of the result of [getNetworkProcesses] are the names,
    other than the empty one, that [getProcessPath] gives to the pids owning
    a connection; each entry carries a pid of its name, and without any
    connection the result is empty whatever the counters say. *)
Theorem result_names_are_resolved_owners (rng : range_order) (os : system) (U D : Z)
    (tcpConns : list tcpRow) (udpConns : list udpRow) :
  range_ok rng ->
  getSystemNetworkIO os = Ok (U, D) ->
  tcp_stats os = Ok tcpConns -> udp_stats os = Ok udpConns ->
  Z.of_nat (length tcpConns) < 2 ^ 32 -> Z.of_nat (length udpConns) < 2 ^ 32 ->
  exists result,
    getNetworkProcesses rng os = Ok result
    /\ (forall name,
          is_Some (result !! name)
          <-> name <> ""%string
              /\ exists pid, pid ∈ owners tcpConns udpConns /\ getProcessPath os pid = name)
    /\ (forall name d,
          result !! name = Some d ->
          processID d ∈ owners tcpConns udpConns
          /\ getProcessPath os (processID d) = name)
    /\ (owners tcpConns udpConns = [] -> result = ∅).
Proof.
  intros Hrng HIO Htcp Hudp Hlt Hlu. eexists.
  split; [apply (getNetworkProcesses_ok rng os U D tcpConns udpConns); done|].
  set (path := getProcessPath os). set (w := weigh path tcpConns udpConns).
  assert (Hempty : owners tcpConns udpConns = [] -> distribute rng U D w = ∅).
  { intros [-> ->]%owners_nil. done. }
  assert (Horigin : forall name d,
            distribute rng U D w !! name = Some d ->
            name <> ""%string /\ processID d ∈ owners tcpConns udpConns
            /\ path (processID d) = name).
  { intros name d Hd.
    destruct (owners tcpConns udpConns) as [|pid0 rest] eqn:Hown.
    { rewrite Hempty in Hd by done. done. }
    assert (Hpid0 : pid0 ∈ owners tcpConns udpConns)
      by (rewrite Hown; apply elem_of_cons; auto).
    rewrite <- Hown. unfold w in Hd.
    rewrite (distribute_distributed rng U D path tcpConns udpConns pid0 Hlt Hlu Hpid0) in Hd.
    destruct (distributed_origin U D _ _ _ _ Hd) as (pid & wt & Hin & Hname & Hne & ->).
    apply visited_entries in Hin as [Hpid _]; [|done..].
    rewrite weigh_accounted, accounted_names in Hname.
    destruct (decide _) as [[_ Hp]|]; [|done]. injection Hname as <-.
    cbn [attributed processID]. done. }
  split; [|split].
  - intros name. split.
    + intros [d Hd]. destruct (Horigin name d Hd) as (Hne & Hpid & Hpath).
      split; [done|]. exists (processID d). done.
    + intros (Hne & pid & Hpid & Hpath). unfold w.
      rewrite (distribute_distributed rng U D path tcpConns udpConns pid Hlt Hlu Hpid).
      apply (distributed_covers U D _ _ pid
               (f64_of_halves (weight_halves pid tcpConns udpConns))); [|  |done].
      * apply visited_entries; done.
      * rewrite weigh_accounted, accounted_names, contributions_owners.
        rewrite decide_True; [congruence|]. split; [done|]. fold path. congruence.
  - intros name d Hd. destruct (Horigin name d Hd) as (_ & ? & ?). done.
  - exact Hempty.
Qed.

Lemma result_names_are_resolved_owners_witness :
  exists result,
    getNetworkProcesses range_canonical scenario_AB = Ok result
    /\ (forall name,
          is_Some (result !! name)
          <-> name <> ""%string
              /\ exists pid, pid ∈ owners [conn 5 100; conn 5 100] [endpoint 200]
                             /\ path_AB pid = name).
Proof.
  destruct (result_names_are_resolved_owners range_canonical scenario_AB 1000 2000
              [conn 5 100; conn 5 100] [endpoint 200]) as (result & H1 & H2 & _).
  - apply range_canonical_ok.
  - vm_compute. reflexivity.
  - reflexivity.
  - reflexivity.
  - cbn. lia.
  - cbn. lia.
  - exists result. split; [exact H1|exact H2].
Defined.

Lemma share_at_most_total (U a A : Z) :
  0 <= U <= 2 ^ 50 -> 0 < a <= A -> A < 2 ^ 53 ->
  0 <= share U (f64_of_halves a) (f64_of_halves A) <= U.
Proof.
  intros HU Ha HA.
  destruct (share_bounds U a A) as (H0 & Hhi & _); [lia|done|done|].
  set (s := share U (f64_of_halves a) (f64_of_halves A)) in *.
  split; [done|].
  pose proof eps_bounds as Heps.
  assert (HU0 : (0 <= IZR U)%R) by (apply IZR_le; lia).
  assert (Hs0 : (0 <= IZR s)%R) by (apply IZR_le; lia).
  assert (PA : (0 < IZR A)%R) by (apply IZR_lt; lia).
  assert (Pa : (0 < IZR a)%R) by (apply IZR_lt; lia).
  assert (Hratio : (0 <= IZR a / IZR A <= 1)%R).
  { split.
    - apply Rmult_le_pos; [lra|]. apply Rlt_le, Rinv_0_lt_compat. done.
    - apply (Rmult_le_reg_r (IZR A)); [done|].
      unfold Rdiv. rewrite Rmult_assoc, Rinv_l by lra.
      rewrite Rmult_1_r, Rmult_1_l. apply IZR_le. lia. }
  assert (Hpart : (IZR U * (IZR a / IZR A) <= IZR U)%R).
  { rewrite <- (Rmult_1_r (IZR U)) at 2. apply Rmult_le_compat_l; lra. }
  assert (Hsq : (0 <= (1 + eps) * (1 + eps))%R) by (apply Rmult_le_pos; lra).
  assert (Hhi' : (IZR s <= IZR U * ((1 + eps) * (1 + eps)))%R).
  { etransitivity; [exact Hhi|]. apply Rmult_le_compat_r; done. }
  assert (Hlo' : (IZR U * ((1 - eps) * (1 - eps)) <= IZR s + IZR U)%R).
  { assert (Hm : ((1 - eps) * (1 - eps) <= 1)%R).
    { assert ((1 - eps) * (1 - eps) <= 1 * 1)%R
        by (apply Rmult_le_compat; lra). lra. }
    assert (IZR U * ((1 - eps) * (1 - eps)) <= IZR U * 1)%R
      by (apply Rmult_le_compat_l; lra).
    lra. }
  pose proof (drift_from_bounds U s U HU Hhi' Hlo'). lia.
Qed.

(** X3. No process is attributed a negative number of bytes or more than
    the system-wide total of the sampling, for totals up to 2^50, whether or
    not two pids share a name. *)
Theorem share_within_total (rng : range_order) (os : system) (U D : Z)
    (tcpConns : list tcpRow) (udpConns : list udpRow) :
  range_ok rng ->
  getSystemNetworkIO os = Ok (U, D) ->
  tcp_stats os = Ok tcpConns -> udp_stats os = Ok udpConns ->
  Z.of_nat (length tcpConns) < 2 ^ 32 -> Z.of_nat (length udpConns) < 2 ^ 32 ->
  0 <= U <= 2 ^ 50 -> 0 <= D <= 2 ^ 50 ->
  exists result,
    getNetworkProcesses rng os = Ok result
    /\ forall name d,
         result !! name = Some d ->
         0 <= uploadBytes d <= U /\ 0 <= downloadBytes d <= D.
Proof.
  intros Hrng HIO Htcp Hudp Hlt Hlu HU HD. eexists.
  split; [apply (getNetworkProcesses_ok rng os U D tcpConns udpConns); done|].
  intros name d Hd. unfold distribute in Hd.
  destruct (f64_ltb f64_zero _); [|rewrite lookup_empty in Hd; done].
  destruct (distributed_origin U D _ _ _ _ Hd) as (pid & wt & Hin & _ & _ & ->).
  apply visited_entries in Hin as [Hown ->]; [|done..].
  destruct (weigh_weights (getProcessPath os) tcpConns udpConns Hlt Hlu)
    as (_ & Hs & Hb & _).
  pose proof (owner_weight_bounds pid tcpConns udpConns Hown) as Hwb.
  unfold total_weight_halves in Hwb.
  cbn [attributed uploadBytes downloadBytes]. rewrite Hs. split.
  - apply share_at_most_total; [done|done|lia].
  - apply share_at_most_total; [done|done|lia].
Qed.

Lemma share_within_total_witness :
  exists result,
    getNetworkProcesses range_canonical scenario_AB = Ok result
    /\ forall name d,
         result !! name = Some d ->
         0 <= uploadBytes d <= 1000 /\ 0 <= downloadBytes d <= 2000.
Proof.
  apply (share_within_total range_canonical scenario_AB 1000 2000
           [conn 5 100; conn 5 100] [endpoint 200]).
  - apply range_canonical_ok.
  - vm_compute. reflexivity.
  - reflexivity.
  - reflexivity.
  - cbn. lia.
  - cbn. lia.
  - lia.
  - lia.
Defined.

End SamplingFacts.

(** ** The store, further *)

Module StoreFacts.
Import GoTime Database.

Lemma substring_whole (s : string) : String.substring 0 (String.length s) s = s.
Proof. induction s as [|c s IH]; [done|]. cbn. rewrite IH. done. Qed.

Lemma findSubstring_window (s substr : string) (i : nat) :
  (i + String.length substr <= String.length s)%nat ->
  String.substring i (String.length substr) s = substr ->
  findSubstring s substr = true.
Proof.
  intros Hi Hw. unfold findSubstring.
  destruct (String.length s <? String.length substr)%nat eqn:Hlt.
  { apply Nat.ltb_lt in Hlt. lia. }
  apply existsb_exists. exists i. split.
  - apply in_seq. lia.
  - rewrite Hw. apply String.eqb_refl.
Qed.

Lemma findSubstring_found (s substr : string) :
  findSubstring s substr = true ->
  exists i, (i + String.length substr <= String.length s)%nat
            /\ String.substring i (String.length substr) s = substr.
Proof.
  unfold findSubstring.
  destruct (String.length s <? String.length substr)%nat eqn:Hlt; [done|].
  apply Nat.ltb_ge in Hlt.
  intros (i & Hin & Heq)%existsb_exists. apply in_seq in Hin.
  apply String.eqb_eq in Heq. exists i. split; [lia|done].
Qed.

(** X4. [contains] decides whether [substr] occurs in [s]: the shortcuts
    taken before [findSubstring] change nothing. *)
Theorem contains_iff_substring (s substr : string) :
  contains s substr = true
  <-> exists i, (i + String.length substr <= String.length s)%nat
                /\ String.substring i (String.length substr) s = substr.
Proof.
  unfold contains. cbn zeta. split.
  - intros [Hle H]%andb_true_iff. apply Nat.leb_le in Hle.
    apply orb_true_iff in H as [Heq|[Hlt H]%andb_true_iff].
    { apply String.eqb_eq in Heq. subst substr. exists 0%nat.
      split; [lia|apply substring_whole]. }
    apply Nat.ltb_lt in Hlt.
    apply orb_true_iff in H as [H|[_ H]%andb_true_iff].
    + apply orb_true_iff in H as [H|H]; apply String.eqb_eq in H.
      * exists 0%nat. split; [lia|done].
      * exists (String.length s - String.length substr)%nat. split; [lia|done].
    + apply findSubstring_found. done.
  - intros (i & Hi & Hw).
    apply andb_true_iff. split; [apply Nat.leb_le; lia|].
    destruct (decide (String.length s = String.length substr)) as [E|Hne].
    + assert (i = 0%nat) by lia. subst i. rewrite <- E, substring_whole in Hw.
      subst substr. rewrite String.eqb_refl. done.
    + apply orb_true_iff. right.
      assert (Hlt : (String.length substr <? String.length s)%nat = true)
        by (apply Nat.ltb_lt; lia).
      rewrite Hlt, (findSubstring_window s substr i Hi Hw). cbn.
      apply orb_true_r.
Qed.

(** X5. A setting that was written is read back, the other keys read as
    before, and a key that was never written reads as the empty string,
    without an error. *)
Theorem setting_round_trip (db : DB) (key value : string) :
  let db' := (SetSetting None db key value).1 in
  GetSetting None db' key = (value, None)
  /\ (forall other, other <> key -> GetSetting None db' other = GetSetting None db other)
  /\ (settings db !! key = None -> GetSetting None db key = (""%string, None))
  /\ (forall e, SetSetting (Some e) db key value = (db, Some e))
  /\ usage_records db' = usage_records db
  /\ daily_summaries db' = daily_summaries db
  /\ app_metadata db' = app_metadata db.
Proof.
  cbn zeta. unfold GetSetting, SetSetting, set_settings. cbn [fst settings].
  split; [rewrite lookup_insert_eq; done|].
  split; [intros other Hne; rewrite lookup_insert_ne by done; done|].
  split; [intros ->; done|].
  repeat split.
Qed.

(** X6. The first upsert of an application stores its row as given; a
    later one replaces the path and last_seen and keeps first_seen. An
    application without a row is reported as [sql.ErrNoRows]. *)
Theorem first_seen_is_kept (db : DB) (first second : AppMetadata) :
  MetaAppName second = MetaAppName first ->
  app_metadata db !! MetaAppName first = None ->
  let db1 := (UpsertAppMetadata None db first).1 in
  let db2 := (UpsertAppMetadata None db1 second).1 in
  GetAppMetadata None db (MetaAppName first) = Err ErrNoRows
  /\ GetAppMetadata None db1 (MetaAppName first) = Ok first
  /\ GetAppMetadata None db2 (MetaAppName first)
     = Ok {| MetaAppName := MetaAppName first;
             ExecutablePath := ExecutablePath second;
             FirstSeen := FirstSeen first; LastSeen := LastSeen second |}
  /\ (forall other, other <> MetaAppName first ->
        GetAppMetadata None db2 other = GetAppMetadata None db other).
Proof.
  intros Hname Hnew. cbn zeta.
  unfold GetAppMetadata, UpsertAppMetadata. cbn [fst app_metadata].
  rewrite Hname, Hnew, !lookup_insert_eq.
  split; [done|]. split; [done|]. split; [done|].
  intros other Hne. rewrite !lookup_insert_ne by done. done.
Qed.

Lemma first_seen_is_kept_witness :
  let first := {| MetaAppName := "a.exe"; ExecutablePath := "a.exe";
                  FirstSeen := 100; LastSeen := 110 |} in
  let second := {| MetaAppName := "a.exe"; ExecutablePath := "C:\a.exe";
                   FirstSeen := 200; LastSeen := 210 |} in
  GetAppMetadata None
    (UpsertAppMetadata None (UpsertAppMetadata None empty_db first).1 second).1 "a.exe"
  = Ok {| MetaAppName := "a.exe"; ExecutablePath := "C:\a.exe";
          FirstSeen := 100; LastSeen := 210 |}.
Proof.
  cbn zeta.
  apply (first_seen_is_kept empty_db
           {| MetaAppName := "a.exe"; ExecutablePath := "a.exe";
              FirstSeen := 100; LastSeen := 110 |}
           {| MetaAppName := "a.exe"; ExecutablePath := "C:\a.exe";
              FirstSeen := 200; LastSeen := 210 |}); reflexivity.
Defined.

(** The rows that a run of INSERTs appends. *)
Lemma insert_rows (records : list UsageRecord) (db : DB) :
  let db' := fold_left insert_row records db in
  usage_records db'
  = usage_records db ++ imap (fun i r => stored_row (usage_seq db + Z.of_nat i) r) records
  /\ usage_seq db' = usage_seq db + Z.of_nat (length records)
  /\ daily_summaries db' = daily_summaries db
  /\ summary_seq db' = summary_seq db
  /\ app_metadata db' = app_metadata db
  /\ settings db' = settings db.
Proof.
  cbn zeta. revert db. induction records as [|r records IH]; intros db.
  - cbn. rewrite app_nil_r. repeat split; lia.
  - cbn [fold_left]. destruct (IH (insert_row db r)) as (Hu & Hs & Hd & Hq & Ha & Ht).
    rewrite Hu, Hs, Hd, Hq, Ha, Ht. cbn [insert_row usage_records usage_seq
      daily_summaries summary_seq app_metadata settings length imap].
    rewrite <- app_assoc. cbn [app].
    split; [|repeat split; lia].
    f_equal. f_equal; [f_equal; lia|].
    apply imap_ext. intros i x _. cbn. f_equal. lia.
Qed.

(** X7. [BatchInsertUsageRecords] writes all the records or none. It
    succeeds on an empty batch whatever the state of the storage; a batch
    of at most 100 records is written without a look at the disk; a
    successful batch appends one row per record, in order, with the next
    ids of the table, and touches no other table. *)
Theorem batch_insert_all_or_nothing (d : disk) (tx_fault : option error) (db : DB)
    (records : list UsageRecord) :
  let out := BatchInsertUsageRecords d tx_fault db records in
  (out.2 = None
   <-> records = []
       \/ (((length records <= 100)%nat \/ checkDiskSpace d = None) /\ tx_fault = None))
  /\ (out.2 <> None -> out.1 = db)
  /\ (out.2 = None ->
      usage_records out.1
      = usage_records db
        ++ imap (fun i r => stored_row (usage_seq db + Z.of_nat i) r) records
      /\ GetRecordCount out.1 = GetRecordCount db + Z.of_nat (length records)
      /\ daily_summaries out.1 = daily_summaries db
      /\ app_metadata out.1 = app_metadata db
      /\ settings out.1 = settings db).
Proof.
  cbn zeta. unfold BatchInsertUsageRecords.
  destruct records as [|r records].
  { cbn. rewrite app_nil_r. split; [split; auto|]. split; [done|].
    intros _. repeat split; lia. }
  set (rs := r :: records).
  destruct (100 <? length rs)%nat eqn:Hbig.
  - apply Nat.ltb_lt in Hbig.
    destruct (checkDiskSpace d) as [e|] eqn:Hdisk.
    + cbn [fst snd]. split; [|split; [done|done]].
      split; [done|]. intros [?|[[?|?] _]]; [done|lia|done].
    + destruct tx_fault as [e|]; cbn [fst snd].
      * split; [|split; [done|done]]. split; [done|]. intros [?|[_ ?]]; done.
      * split; [split; auto|]. split; [done|]. intros _.
        destruct (insert_rows rs db) as (Hu & _ & Hd & _ & Ha & Ht).
        unfold GetRecordCount. rewrite Hu, length_app, length_imap.
        repeat split; try done. lia.
  - apply Nat.ltb_ge in Hbig.
    destruct tx_fault as [e|]; cbn [fst snd].
    + split; [|split; [done|done]]. split; [done|]. intros [?|[_ ?]]; done.
    + split; [split; auto|]. split; [done|]. intros _.
      destruct (insert_rows rs db) as (Hu & _ & Hd & _ & Ha & Ht).
      unfold GetRecordCount. rewrite Hu, length_app, length_imap.
      repeat split; try done. lia.
Qed.

(** X8. [DeleteOldRecords] removes the usage rows older than the cutoff
    that are not temporary, keeps the others in their order, removes the
    summaries of the days before the cutoff day and keeps that of the
    cutoff day itself. The two DELETEs are not one transaction: when the
    second fails, the usage rows are gone already. *)
Theorem delete_old_records_effect (date_of : Z -> string) (before : Z) (db : DB) :
  (forall e fault,
     DeleteOldRecords (Some e) fault date_of before db
     = (db, Some ("failed to delete old usage records: " +:+ e)))
  /\ (let out := DeleteOldRecords None None date_of before db in
      out.2 = None
      /\ (forall r, r ∈ usage_records out.1
            <-> r ∈ usage_records db /\ (before <= Timestamp r \/ IsTemporary r = true))
      /\ usage_records out.1 `sublist_of` usage_records db
      /\ (forall date,
            daily_summaries out.1 !! date
            = if String.ltb date (date_of before) then None
              else daily_summaries db !! date)
      /\ (forall scan_error,
            GetDailySummary scan_error None out.1 (date_of before)
            = GetDailySummary scan_error None db (date_of before))
      /\ app_metadata out.1 = app_metadata db
      /\ settings out.1 = settings db)
  /\ (forall e,
        let out := DeleteOldRecords None (Some e) date_of before db in
        out.2 = Some ("failed to delete old daily summaries: " +:+ e)
        /\ usage_records out.1
           = usage_records (DeleteOldRecords None None date_of before db).1
        /\ daily_summaries out.1 = daily_summaries db).
Proof.
  split; [done|]. split; [|done].
  cbn zeta. unfold DeleteOldRecords. cbn [fst snd].
  unfold set_daily_summaries, set_usage_records.
  cbn [usage_records daily_summaries app_metadata settings].
  assert (Hsum : forall date,
            filter (fun entry : string * summary_row =>
                      ¬ (String.ltb entry.1 (date_of before) = true))
              (daily_summaries db) !! date
            = if String.ltb date (date_of before) then None
              else daily_summaries db !! date).
  { intros date. destruct (String.ltb date (date_of before)) eqn:Hlt.
    - apply map_lookup_filter_None. right. intros row _ Hkeep.
      cbn [fst] in Hkeep. apply Hkeep. done.
    - destruct (daily_summaries db !! date) as [row|] eqn:Hrow.
      + apply map_lookup_filter_Some. split; [done|]. cbn [fst]. rewrite Hlt. done.
      + apply map_lookup_filter_None. left. done. }
  split; [done|]. split.
  { intros r. rewrite list_elem_of_filter. split.
    - intros [Hkeep Hin]. split; [done|].
      destruct (IsTemporary r); [auto|]. left.
      destruct (decide (before <= Timestamp r)); [done|]. exfalso. apply Hkeep. split; [lia|done].
    - intros [Hin Hkeep]. split; [|done]. intros [Hlt Htmp].
      destruct Hkeep as [?|Ht]; [lia|]. rewrite Htmp in Ht. done. }
  split; [apply sublist_filter|].
  split; [exact Hsum|].
  split; [|done].
  intros scan_error. unfold GetDailySummary. cbn [daily_summaries]. rewrite Hsum.
  assert (Hirr : String.ltb (date_of before) (date_of before) = false).
  { unfold String.ltb.
    destruct (String.compare (date_of before) (date_of before)) eqn:Hc; try done.
    pose proof (String.compare_antisym (date_of before) (date_of before)) as Ha.
    rewrite Hc in Ha. done. }
  rewrite Hirr. done.
Qed.

Lemma set_usage_records_eq (db : DB) (l l' : list UsageRecord) :
  l = l' -> set_usage_records db l = set_usage_records db l'.
Proof. intros ->. done. Qed.

(** X9. The two cleanups can run in either order, and running one of
    them again on the same clock reading changes nothing. *)
Theorem cleanups_commute (date_of : Z -> string) (before : Z) (now : Time) (db : DB) :
  let expire := fun s => (DeleteExpiredRecords None now s).1 in
  let old := fun s => (DeleteOldRecords None None date_of before s).1 in
  expire (old db) = old (expire db)
  /\ expire (expire db) = expire db
  /\ old (old db) = old db.
Proof.
  cbn zeta. unfold DeleteExpiredRecords, DeleteOldRecords. cbn [fst].
  unfold set_daily_summaries, set_usage_records.
  cbn [usage_records usage_seq daily_summaries summary_seq app_metadata settings].
  split; [|split].
  - f_equal. rewrite !list_filter_filter. apply list_filter_iff. intros r. tauto.
  - f_equal. rewrite list_filter_filter. apply list_filter_iff. intros r. tauto.
  - f_equal.
    + rewrite list_filter_filter. apply list_filter_iff. intros r. tauto.
    + rewrite map_filter_filter. apply map_filter_ext. intros date row _. tauto.
Qed.

Lemma foldr_min_le (t : Z) (ts : list Z) :
  foldr Z.min t ts <= t /\ Forall (fun x => foldr Z.min t ts <= x) ts.
Proof.
  induction ts as [|x ts [IH1 IH2]]; cbn; [split; [lia|constructor]|].
  split; [lia|]. constructor; [lia|].
  eapply Forall_impl; [exact IH2|]. cbn. intros y Hy. lia.
Qed.

Lemma foldr_min_in (t : Z) (ts : list Z) : foldr Z.min t ts ∈ t :: ts.
Proof.
  induction ts as [|x ts IH]; cbn; [apply list_elem_of_singleton; done|].
  destruct (Z.min_spec x (foldr Z.min t ts)) as [[_ ->]|[_ ->]].
  - apply elem_of_cons. right. apply elem_of_cons. left. done.
  - apply elem_of_cons in IH as [->|IH].
    + apply elem_of_cons. left. done.
    + apply elem_of_cons. right. apply elem_of_cons. right. done.
Qed.

(** X10. [GetOldestRecord] returns the smallest timestamp of the table,
    which some row carries, and 0 for an empty table; an error of the
    query comes with 0. *)
Theorem oldest_record_is_minimum (db : DB) :
  let out := GetOldestRecord None db in
  out.2 = None
  /\ (usage_records db = [] -> out.1 = 0)
  /\ (usage_records db <> [] ->
      (exists r, r ∈ usage_records db /\ Timestamp r = out.1)
      /\ forall r, r ∈ usage_records db -> out.1 <= Timestamp r)
  /\ (forall e, GetOldestRecord (Some e) db = (0, Some e)).
Proof.
  cbn zeta. unfold GetOldestRecord.
  destruct (usage_records db) as [|r rows] eqn:Hrows; cbn [fmap list_fmap fst snd].
  { repeat split; done. }
  split; [done|]. split; [done|]. split; [|done]. intros _.
  destruct (foldr_min_le (Timestamp r) (Timestamp <$> rows)) as [Hle Hall].
  split.
  - pose proof (foldr_min_in (Timestamp r) (Timestamp <$> rows)) as Hin.
    change (Timestamp r :: (Timestamp <$> rows)) with (Timestamp <$> (r :: rows)) in Hin.
    apply list_elem_of_fmap in Hin as (r' & Heq & Hin). exists r'. split; [done|]. done.
  - intros r' [->|Hin]%elem_of_cons; [done|].
    rewrite Forall_forall in Hall. apply Hall.
    apply list_elem_of_fmap. exists r'. done.
Qed.

(** The order of TEXT cells. *)
Lemma string_compare_lt_trans (a b c : string) :
  String.compare a b = Lt -> String.compare b c = Lt -> String.compare a c = Lt.
Proof.
  revert b c. induction a as [|x a IH]; intros [|y b] [|z c]; cbn; try done.
  unfold Ascii.compare.
  destruct (N.compare_spec (N_of_ascii x) (N_of_ascii y)) as [Exy|Lxy|Gxy]; try done;
    destruct (N.compare_spec (N_of_ascii y) (N_of_ascii z)) as [Eyz|Lyz|Gyz]; try done;
    destruct (N.compare_spec (N_of_ascii x) (N_of_ascii z)) as [Exz|Lxz|Gxz];
    try done; try lia.
  apply IH.
Qed.

Lemma string_leb_cases (a b : string) :
  String.leb a b = true <-> String.ltb a b = true \/ a = b.
Proof.
  unfold String.leb, String.ltb.
  destruct (String.compare a b) eqn:Hc.
  - apply String.compare_eq_iff in Hc. split; auto.
  - split; auto.
  - split; [done|]. intros [?| ->]; [done|].
    pose proof (String.compare_antisym b b) as Ha. rewrite Hc in Ha. done.
Qed.

Lemma string_ltb_trans (a b c : string) :
  String.ltb a b = true -> String.ltb b c = true -> String.ltb a c = true.
Proof.
  unfold String.ltb.
  destruct (String.compare a b) eqn:Hab; try done.
  destruct (String.compare b c) eqn:Hbc; try done.
  rewrite (string_compare_lt_trans a b c Hab Hbc). done.
Qed.

#[local] Instance date_desc_transitive : Transitive date_desc.
Proof.
  intros x y z. unfold date_desc. rewrite !string_leb_cases.
  intros [Hyx|Eyx] [Hzy|Ezy].
  - left. apply (string_ltb_trans _ y.1); done.
  - left. rewrite Ezy. done.
  - left. rewrite <- Eyx. done.
  - right. congruence.
Qed.

#[local] Instance date_desc_total : Total date_desc.
Proof. intros x y. unfold date_desc. destruct (String.leb_total y.1 x.1); auto. Qed.

Lemma sorted_dates_strict (l : list (string * summary_row)) :
  NoDup l.*1 -> StronglySorted date_desc l ->
  StronglySorted (fun x y => String.ltb y.1 x.1 = true) l.
Proof.
  induction l as [|x l IH]; intros Hnd Hs; [constructor|].
  cbn [fmap list_fmap] in Hnd. apply NoDup_cons in Hnd as [Hx Hnd].
  apply StronglySorted_inv in Hs as [Hs Hall].
  constructor; [apply IH; done|].
  rewrite Forall_forall in Hall. apply Forall_forall. intros y Hy.
  specialize (Hall y Hy). unfold date_desc in Hall.
  apply string_leb_cases in Hall as [?|Heq]; [done|].
  exfalso. apply Hx. rewrite <- Heq. apply list_elem_of_fmap. exists y. done.
Qed.

Lemma limit_take {A : Type} (n : Z) (l : list A) :
  exists k, limit n l = take k l
            /\ length (limit n l)
               = if n <? 0 then length l else Nat.min (Z.to_nat n) (length l).
Proof.
  unfold limit. destruct (n <? 0).
  - exists (length l). rewrite firstn_all. done.
  - exists (Z.to_nat n). rewrite length_take. done.
Qed.

Lemma scan_summary_inv (scan_error : string -> Float64.f64 -> error)
    (entry : string * summary_row) :
  match scan_summary scan_error entry with
  | Ok s => s = Summaries.summary_of entry /\ Summaries.readable entry.2
  | Err e => ~ Summaries.readable entry.2
  end.
Proof.
  unfold scan_summary, Summaries.summary_of, Summaries.readable.
  destruct (total_upload entry.2) as [upload|x].
  - destruct (total_download entry.2) as [download|y].
    + split; [done|]. eexists _, _. done.
    + intros (? & ? & _ & ?). done.
  - intros (? & ? & ? & _). done.
Qed.

Lemma scan_rows_inv (scan_error : string -> Float64.f64 -> error)
    (rows : list (string * summary_row)) :
  match scan_rows scan_error rows with
  | Ok summaries =>
      summaries = Summaries.summary_of <$> rows
      /\ (forall entry, entry ∈ rows ->
            scan_summary scan_error entry = Ok (Summaries.summary_of entry))
  | Err e => exists entry, entry ∈ rows /\ scan_summary scan_error entry = Err e
  end.
Proof.
  induction rows as [|entry rows IH]; cbn [scan_rows].
  { split; [done|]. intros entry Hin. inversion Hin. }
  pose proof (scan_summary_inv scan_error entry) as Hentry.
  destruct (scan_summary scan_error entry) as [s|e] eqn:Hs.
  - destruct Hentry as [-> _].
    destruct (scan_rows scan_error rows) as [summaries|e].
    + destruct IH as [-> IH]. split; [done|].
      intros entry' [->|Hin]%elem_of_cons; [done|]. apply IH. done.
    + destruct IH as (entry' & Hin & Herr). exists entry'. split; [|done].
      apply elem_of_cons. right. done.
  - exists entry. split; [|done]. apply elem_of_cons. left. done.
Qed.

(** X11. [GetRecentSummaries] returns the summaries of the most recent
    days, newest first: as many as asked for or as there are (all of them
    for a negative count), each as [GetDailySummary] returns it, and every
    day that is left out is older than every day returned. It does so
    whenever no total of the table is a REAL; the only error of a query
    that meets no fault is that of the Scan of a row with a REAL total, the
    error [GetDailySummary] returns for the day of that row, and nil is
    returned with it. *)
Theorem recent_summaries_newest_first (scan_error : string -> Float64.f64 -> error)
    (db : DB) (days : Z) :
  let out := GetRecentSummaries scan_error None None db days in
  ((forall date row, daily_summaries db !! date = Some row -> Summaries.readable row) ->
   out.2 = None)
  /\ (forall e, out.2 = Some e ->
        out.1 = []
        /\ exists date row,
             daily_summaries db !! date = Some row
             /\ ~ Summaries.readable row
             /\ GetDailySummary scan_error None db date = Err e)
  /\ (out.2 = None ->
      length out.1
      = (if days <? 0 then size (daily_summaries db)
         else Nat.min (Z.to_nat days) (size (daily_summaries db)))
      /\ StronglySorted (fun a b => String.ltb (Date b) (Date a) = true) out.1
      /\ (forall s, s ∈ out.1 -> GetDailySummary scan_error None db (Date s) = Ok s)
      /\ (forall date s,
            is_Some (daily_summaries db !! date) -> s ∈ out.1 ->
            (forall s', s' ∈ out.1 -> Date s' <> date) ->
            String.ltb date (Date s) = true)).
Proof.
  cbn zeta. unfold GetRecentSummaries. cbn [fst snd].
  set (rows := merge_sort date_desc (map_to_list (daily_summaries db))).
  assert (Hperm : rows ≡ₚ map_to_list (daily_summaries db))
    by apply merge_sort_Permutation.
  assert (Hsorted : StronglySorted (fun x y => String.ltb y.1 x.1 = true) rows).
  { apply sorted_dates_strict.
    - rewrite Hperm. apply NoDup_fst_map_to_list.
    - apply StronglySorted_merge_sort; apply _. }
  assert (Hrow : forall entry, entry ∈ rows -> daily_summaries db !! entry.1 = Some entry.2).
  { intros [date row] Hin. rewrite Hperm in Hin. apply elem_of_map_to_list in Hin. done. }
  destruct (limit_take days rows) as (k & -> & Hlen).
  rewrite <- (take_drop k rows) in Hsorted.
  assert (Htake : forall entry, entry ∈ take k rows -> entry ∈ rows).
  { intros entry Hin. apply elem_of_take in Hin as (i & Hin & _).
    apply list_elem_of_lookup_2 in Hin. done. }
  pose proof (scan_rows_inv scan_error (take k rows)) as Hscan.
  destruct (scan_rows scan_error (take k rows)) as [summaries|e]; cbn [fst snd fmap option_fmap option_map].
  2:{ destruct Hscan as ([date row] & Hin & Herr).
      pose proof (Hrow _ (Htake _ Hin)) as Hlookup. cbn [fst snd] in Hlookup.
      pose proof (scan_summary_inv scan_error (date, row)) as Hbad.
      rewrite Herr in Hbad. cbn [snd] in Hbad.
      split; [|split; [|done]].
      - intros Hall. exfalso. apply Hbad. apply (Hall date). done.
      - intros e' [= <-]. split; [done|]. exists date, row.
        split; [done|]. split; [done|].
        unfold GetDailySummary. rewrite Hlookup. done. }
  destruct Hscan as [-> Hok].
  split; [done|]. split; [done|]. intros _. split.
  { assert (Hsize : length rows = size (daily_summaries db))
      by (rewrite Hperm; apply length_map_to_list).
    rewrite length_fmap, Hlen, Hsize. done. }
  split.
  { apply (StronglySorted_fmap _ (fun x y => String.ltb y.1 x.1 = true));
      [intros x y H; exact H|].
    apply StronglySorted_app_1_l in Hsorted. done. }
  split.
  { intros s (entry & -> & Hin)%list_elem_of_fmap.
    pose proof (Hok _ Hin) as Hentry.
    destruct entry as [date row]. specialize (Hrow _ (Htake _ Hin)). cbn [fst snd] in Hrow.
    unfold GetDailySummary. cbn [Summaries.summary_of Date fst snd]. rewrite Hrow. done. }
  intros date s [row Hdate] (entry & -> & Hin)%list_elem_of_fmap Hother.
  assert (Hall : (date, row) ∈ take k rows ++ drop k rows).
  { rewrite take_drop, Hperm. apply elem_of_map_to_list. done. }
  apply elem_of_app in Hall as [Hintake|Hdrop].
  - exfalso. apply (Hother (Summaries.summary_of (date, row))); [|done].
    apply list_elem_of_fmap. exists (date, row). done.
  - apply (StronglySorted_app_1_elem_of _ _ _ _ _ Hsorted Hin Hdrop).
Qed.

End StoreFacts.

(** ** The monitor, further *)

Module EngineFacts.
Import Float64 GoTime Counter Monitor Attribution Lifetime Batch.
Import Float64Facts CounterFacts MonitorFacts StoreFacts.

Lemma pow1024 (k : Z) : 0 <= k -> 1024 ^ k = 2 ^ (10 * k).
Proof. intros Hk. rewrite Z.pow_mul_r by lia. done. Qed.

Lemma unit_loop_spec (j : nat) (n e : Z) :
  0 <= e -> e + Z.of_nat j <= 5 ->
  n < 1024 ^ (Z.of_nat j + 1) -> (j <> 0%nat -> 1024 ^ Z.of_nat j <= n) ->
  unit_loop n (1024 ^ (e + 1)) e = (1024 ^ (e + Z.of_nat j + 1), e + Z.of_nat j).
Proof.
  revert n e. induction j as [|j IH]; intros n e He Hej Hhi Hlo.
  - rewrite unit_loop_equation_1. unfold unit.
    change (1024 ^ (Z.of_nat 0 + 1)) with 1024 in Hhi.
    destruct (decide (1024 <= n)); [lia|]. rewrite Z.add_0_r. done.
  - rewrite unit_loop_equation_1. unfold unit.
    specialize (Hlo ltac:(done)).
    assert (H1 : 1024 <= 1024 ^ Z.of_nat (S j)).
    { change 1024 with (1024 ^ 1) at 1. apply Z.pow_le_mono_r; lia. }
    destruct (decide (1024 <= n)); [|lia].
    assert (Hdiv : Int64.mul64 (1024 ^ (e + 1)) 1024 = 1024 ^ (e + 1 + 1)).
    { rewrite (Z.pow_add_r 1024 (e + 1) 1) by lia. change (1024 ^ 1) with 1024.
      unfold Int64.mul64. apply SamplingFacts.wrap64_id.
      unfold Int64.in_int64, Int64.int64_min, Int64.int64_max.
      assert (0 < 1024 ^ (e + 1)) by (apply Z.pow_pos_nonneg; lia).
      assert (1024 ^ (e + 1) <= 1024 ^ 5) by (apply Z.pow_le_mono_r; lia).
      lia. }
    rewrite Hdiv, Z.quot_div_nonneg by lia.
    replace (Z.of_nat (S j) + 1) with (Z.of_nat j + 1 + 1) in Hhi by lia.
    rewrite (Z.pow_add_r 1024 (Z.of_nat j + 1) 1) in Hhi by lia.
    replace (Z.of_nat (S j)) with (Z.of_nat j + 1) in Hlo by lia.
    rewrite (Z.pow_add_r 1024 (Z.of_nat j) 1) in Hlo by lia.
    change (1024 ^ 1) with 1024 in *.
    rewrite (IH (n / 1024) (e + 1)).
    + f_equal; [f_equal|]; lia.
    + lia.
    + lia.
    + apply Z.div_lt_upper_bound; lia.
    + intros _. apply Z.div_le_lower_bound; lia.
Qed.

(** X12. [formatBytes] never indexes past "KMGTPE": for every int64 of at
    least 1024 bytes it divides by the largest power of 1024 that is not above
    the number and names it by the letter of that power, E (1024^6) being
    the last one an int64 reaches; below 1024 the number is printed as it
    is. *)
Theorem format_bytes_unit (bytes : Z) :
  bytes <= Int64.int64_max ->
  (bytes < 1024 ->
   formatBytes bytes
   = Some (if bytes =? 0 then Verbatim "0 B" else Sprintf_d_B bytes))
  /\ (1024 <= bytes ->
      exists k c,
        0 <= k <= 5
        /\ 1024 ^ (k + 1) <= bytes < 1024 ^ (k + 2)
        /\ String.get (Z.to_nat k) "KMGTPE" = Some c
        /\ formatBytes bytes
           = Some (Sprintf_f_cB
                     (f64_div (f64_of_int64 bytes) (f64_of_int64 (1024 ^ (k + 1)))) c)).
Proof.
  intros Hmax. unfold formatBytes, unit. split.
  - intros Hlt. destruct (bytes =? 0); [done|].
    destruct (bytes <? 1024) eqn:E; [done|]. apply Z.ltb_ge in E. lia.
  - intros Hge.
    destruct (bytes =? 0) eqn:E0; [apply Z.eqb_eq in E0; lia|].
    destruct (bytes <? 1024) eqn:E1; [apply Z.ltb_lt in E1; lia|].
    set (L := Z.log2 bytes).
    destruct (Z.log2_spec bytes ltac:(lia)) as [HL1 HL2]. fold L in HL1, HL2.
    assert (HL10 : 10 <= L).
    { apply Z.log2_le_pow2; [lia|]. change (2 ^ 10) with 1024. lia. }
    assert (HL63 : L < 63).
    { apply Z.log2_lt_pow2; [lia|]. unfold Int64.int64_max in Hmax. lia. }
    set (k := L / 10 - 1).
    assert (Hk : 0 <= k <= 5).
    { unfold k. split.
      - assert (1 <= L / 10) by (apply Z.div_le_lower_bound; lia). lia.
      - assert (L / 10 < 7) by (apply Z.div_lt_upper_bound; lia). lia. }
    assert (HkL : 10 * (k + 1) <= L < 10 * (k + 2)).
    { unfold k. pose proof (Z.div_mod L 10 ltac:(lia)).
      pose proof (Z.mod_pos_bound L 10 ltac:(lia)). lia. }
    assert (Hrange : 1024 ^ (k + 1) <= bytes < 1024 ^ (k + 2)).
    { rewrite !pow1024 by lia. split.
      - etransitivity; [|exact HL1]. apply Z.pow_le_mono_r; lia.
      - eapply Z.lt_le_trans; [exact HL2|]. apply Z.pow_le_mono_r; lia. }
    assert (Hget : exists c, String.get (Z.to_nat k) "KMGTPE" = Some c).
    { assert (Hcases : k = 0 \/ k = 1 \/ k = 2 \/ k = 3 \/ k = 4 \/ k = 5) by lia.
      destruct Hcases as [->|[->|[->|[->|[->| ->]]]]]; eexists; reflexivity. }
    destruct Hget as [c Hc]. exists k, c.
    split; [done|]. split; [done|]. split; [done|].
    rewrite Z.quot_div_nonneg by lia.
    change 1024 with (1024 ^ (0 + 1)) at 2.
    assert (Hloop : unit_loop (bytes / 1024) (1024 ^ (0 + 1)) 0
                    = (1024 ^ (0 + Z.of_nat (Z.to_nat k) + 1), 0 + Z.of_nat (Z.to_nat k))).
    { apply unit_loop_spec.
      - lia.
      - lia.
      - rewrite Z2Nat.id by lia. apply Z.div_lt_upper_bound; [lia|].
        replace (k + 2) with (1 + (k + 1)) in Hrange by lia.
        rewrite (Z.pow_add_r 1024 1 (k + 1)) in Hrange by lia. lia.
      - intros _. rewrite Z2Nat.id by lia. apply Z.div_le_lower_bound; [lia|].
        rewrite (Z.pow_add_r 1024 k 1) in Hrange by lia. lia. }
    rewrite Hloop, Z2Nat.id by lia. rewrite !Z.add_0_l. cbv beta iota zeta.
    rewrite Hc. done.
Qed.

Lemma format_bytes_unit_witness :
  formatBytes 1536
  = Some (Sprintf_f_cB (f64_div (f64_of_int64 1536) (f64_of_int64 1024)) "K"%char)
  /\ f64_div (f64_of_int64 1536) (f64_of_int64 1024) = f64_of_halves 3.
Proof.
  split; [|vm_compute; reflexivity].
  destruct (format_bytes_unit 1536) as [_ H]; [unfold Int64.int64_max; lia|].
  destruct (H ltac:(lia)) as (k & c & Hk & Hrange & Hc & ->).
  assert (k = 0).
  { destruct (Z.eq_dec k 0) as [|Hne]; [done|]. exfalso.
    assert (1024 ^ 2 <= 1024 ^ (k + 1)) by (apply Z.pow_le_mono_r; lia). lia. }
  subst k. cbn in Hc. injection Hc as <-. reflexivity.
Defined.

Lemma Sub_le (now last : Time) (d : Duration) :
  minDuration <= d < maxDuration -> (Sub now last <= d <-> now - last <= d).
Proof.
  intros Hd. unfold Sub.
  destruct (now - last <? minDuration) eqn:E1; [apply Z.ltb_lt in E1; lia|].
  apply Z.ltb_ge in E1.
  destruct (maxDuration <? now - last) eqn:E2; [apply Z.ltb_lt in E2; lia|].
  done.
Qed.

Lemma cleanupInactive_lookup (m : Monitor) (now : Time) (name : string) :
  stats (cleanupInactive now m) !! name
  = match stats m !! name with
    | Some stat =>
        if decide (now - LastUpdate stat <= 3 * Second) then Some stat else None
    | None => None
    end.
Proof.
  unfold cleanupInactive, set_stats. cbn [stats].
  assert (Hd : minDuration <= 3 * Second < maxDuration).
  { unfold minDuration, maxDuration, Int64.int64_min, Int64.int64_max, Second. lia. }
  destruct (stats m !! name) as [stat|] eqn:Hst.
  - destruct (decide (now - LastUpdate stat <= 3 * Second)) as [Hle|Hgt].
    + apply map_lookup_filter_Some. split; [done|]. cbn [snd].
      unfold CLEANUP_THRESHOLD. apply (Sub_le now (LastUpdate stat)) in Hle; [lia|done].
    + apply map_lookup_filter_None. right. intros stat' Hst' Hkeep.
      rewrite Hst in Hst'. injection Hst' as <-.
      cbn [snd] in Hkeep. unfold CLEANUP_THRESHOLD in Hkeep.
      apply Hgt, (Sub_le now (LastUpdate stat)); [done|lia].
  - apply map_lookup_filter_None. left. done.
Qed.

(** X13. [cleanupInactive] keeps, as it is, every entry whose last update
    is at most 3 seconds before the reading of the clock (or after it),
    removes the others, adds none, and touches nothing else of the
    monitor. *)
Theorem active_entry_kept (m : Monitor) (now : Time) :
  (forall name stat,
     stats m !! name = Some stat -> now - LastUpdate stat <= 3 * Second ->
     stats (cleanupInactive now m) !! name = Some stat)
  /\ (forall name stat,
        stats (cleanupInactive now m) !! name = Some stat ->
        stats m !! name = Some stat /\ now - LastUpdate stat <= 3 * Second)
  /\ batch (cleanupInactive now m) = batch m
  /\ db (cleanupInactive now m) = db m
  /\ paused (cleanupInactive now m) = paused m
  /\ lastUpdate (cleanupInactive now m) = lastUpdate m
  /\ saveEnabled (cleanupInactive now m) = saveEnabled m.
Proof.
  split; [|split; [|done]].
  - intros name stat Hst Hle. rewrite cleanupInactive_lookup, Hst.
    rewrite decide_True by done. done.
  - intros name stat. rewrite cleanupInactive_lookup.
    destruct (stats m !! name) as [stat'|]; [|done].
    destruct (decide (now - LastUpdate stat' <= 3 * Second)); [|done].
    intros [= <-]. done.
Qed.

(** X14. An application to which a tick attributes traffic is in the
    statistics after the tick, updated at the time of the sampling, when the
    sweep of the same tick reads the clock at most 3 seconds later; an entry
    that existed keeps the process id it was created with. *)
Theorem sampled_entry_survives_tick (rng : range_order) (os : system) (now now' : Time)
    (m : Monitor) (processes : gmap string processData) (name : string)
    (data : processData) :
  range_ok rng -> paused m = false ->
  getNetworkProcesses rng os = Ok processes ->
  processes !! name = Some data -> zero_delta data = false ->
  now' - now <= 3 * Second ->
  stats (tick rng os now now' m) !! name = Some (touch now name data (stats m !! name))
  /\ LastUpdate (touch now name data (stats m !! name)) = now
  /\ (forall old, stats m !! name = Some old ->
        ProcessID (touch now name data (stats m !! name)) = ProcessID old)
  /\ (stats m !! name = None ->
        ProcessID (touch now name data (stats m !! name)) = processID data).
Proof.
  intros Hrng Hp Hok Hdata Hnz Hsoon.
  split; [|split; [done|split]].
  - unfold tick. rewrite Hp.
    rewrite cleanupInactive_lookup, (collect_lookup rng os now m processes name Hrng Hp Hok), Hdata, Hnz.
    cbn [touch LastUpdate]. rewrite decide_True by done. done.
  - intros old ->. done.
  - intros ->. done.
Qed.

Lemma sampled_entry_survives_tick_witness :
  stats (tick range_canonical scenario_first t0 (t0 + 1 * Second) (New None)) !! "A.exe"%string
  = Some {| AppName := "A.exe"; ProcessID := 100; UploadSpeed := 1000;
            DownloadSpeed := 2000; TotalUpload := 1000; TotalDownload := 2000;
            LastUpdate := t0 |}.
Proof.
  assert (Hok : getNetworkProcesses range_canonical scenario_first
                = Ok {[ "A.exe"%string :=
                        {| processID := 100; uploadBytes := 1000; downloadBytes := 2000 |} ]})
    by (vm_compute; reflexivity).
  destruct (sampled_entry_survives_tick range_canonical scenario_first t0 (t0 + 1 * Second)
              (New None) _ "A.exe"
              {| processID := 100; uploadBytes := 1000; downloadBytes := 2000 |}
              range_canonical_ok eq_refl Hok) as [H _].
  - reflexivity.
  - reflexivity.
  - unfold Second. lia.
  - rewrite H. vm_compute. reflexivity.
Defined.

(** X15. [collect] does nothing on a paused monitor. It returns an error
    exactly when the monitor runs and GetIfTable2, the TCP table or the UDP
    table fails, and then leaves the monitor as it was, the time of the last
    update included; otherwise that time becomes the time of the sampling. *)
Theorem collect_failure_changes_nothing (rng : range_order) (os : system) (now : Time)
    (m : Monitor) :
  (paused m = true -> collect rng os now m = (m, None))
  /\ (forall e,
        (collect rng os now m).2 = Some e ->
        (collect rng os now m).1 = m /\ paused m = false
        /\ getNetworkProcesses rng os = Err e
        /\ (if_table_ret os <> 0
            \/ (exists e', tcp_stats os = Err e') \/ (exists e', udp_stats os = Err e')))
  /\ (paused m = false ->
      (if_table_ret os <> 0
       \/ (exists e', tcp_stats os = Err e') \/ (exists e', udp_stats os = Err e')) ->
      exists e, collect rng os now m = (m, Some e))
  /\ (paused m = false -> if_table_ret os = 0 ->
      (exists tcpConns, tcp_stats os = Ok tcpConns) ->
      (exists udpConns, udp_stats os = Ok udpConns) ->
      (collect rng os now m).2 = None /\ lastUpdate (collect rng os now m).1 = now).
Proof.
  assert (Hsys : if_table_ret os = 0 -> exists io, getSystemNetworkIO os = Ok io).
  { intros Hret. unfold getSystemNetworkIO. rewrite decide_True by done.
    destruct (if_table os); eexists; done. }
  assert (Hfail : if_table_ret os <> 0 -> exists e, getSystemNetworkIO os = Err e).
  { intros Hret. unfold getSystemNetworkIO. rewrite decide_False by done. eexists. done. }
  split; [|split; [|split]].
  - intros Hp. unfold collect. rewrite Hp. done.
  - intros e. unfold collect. destruct (paused m); [done|].
    destruct (getNetworkProcesses rng os) as [processes|e'] eqn:Hnp.
    { destruct (fold_left _ _ _). done. }
    cbn [fst snd]. intros [= ->]. split; [done|]. split; [done|]. split; [done|].
    unfold getNetworkProcesses in Hnp.
    destruct (decide (if_table_ret os = 0)) as [Hret|Hret]; [|auto].
    destruct (Hsys Hret) as [[U D] HIO]. rewrite HIO in Hnp.
    destruct (tcp_stats os) as [tcpConns|e1]; [|right; left; eexists; done].
    destruct (udp_stats os) as [udpConns|e2]; [done|right; right; eexists; done].
  - intros Hp Hbad. unfold collect, getNetworkProcesses. rewrite Hp.
    destruct (decide (if_table_ret os = 0)) as [Hret|Hret].
    + destruct (Hsys Hret) as [[U D] ->].
      destruct Hbad as [?|[[e' He]|[e' He]]]; [done|..].
      * rewrite He. eexists. done.
      * rewrite He. destruct (tcp_stats os); eexists; done.
    + destruct (Hfail Hret) as [e ->]. eexists. done.
  - intros Hp Hret [tcpConns Ht] [udpConns Hu]. unfold collect, getNetworkProcesses.
    destruct (Hsys Hret) as [[U D] ->]. rewrite Hp, Ht, Hu.
    destruct (fold_left _ _ _). done.
Qed.

(** X16. What a sampling that succeeds does to an entry of the
    statistics. With traffic attributed to its name, the entry is created
    or updated: the totals grow by the bytes attributed (as int64 additions),
    the update time is that of the sampling. With its name in the sampling
    but no traffic, it is left as it is, speeds included. With its name not
    in the sampling, its speeds are set to zero and nothing else changes. No
    entry is removed. *)
Theorem collect_updates_each_entry (rng : range_order) (os : system) (now : Time)
    (m : Monitor) (processes : gmap string processData) (name : string) :
  range_ok rng -> paused m = false ->
  getNetworkProcesses rng os = Ok processes ->
  let m' := (collect rng os now m).1 in
  (forall data,
     processes !! name = Some data -> zero_delta data = false ->
     exists stat,
       stats m' !! name = Some stat
       /\ LastUpdate stat = now
       /\ TotalUpload stat
          = Int64.add64 (from_option TotalUpload 0 (stats m !! name)) (uploadBytes data)
       /\ TotalDownload stat
          = Int64.add64 (from_option TotalDownload 0 (stats m !! name)) (downloadBytes data))
  /\ (forall data,
        processes !! name = Some data -> zero_delta data = true ->
        stats m' !! name = stats m !! name)
  /\ (processes !! name = None ->
      forall old,
        stats m !! name = Some old ->
        stats m' !! name
        = Some {| AppName := AppName old; ProcessID := ProcessID old;
                  UploadSpeed := 0; DownloadSpeed := 0;
                  TotalUpload := TotalUpload old; TotalDownload := TotalDownload old;
                  LastUpdate := LastUpdate old |})
  /\ (is_Some (stats m !! name) -> is_Some (stats m' !! name)).
Proof.
  intros Hrng Hp Hok. cbn zeta.
  pose proof (collect_lookup rng os now m processes name Hrng Hp Hok) as Hl.
  split; [|split; [|split]].
  - intros data Hdata Hnz. rewrite Hdata, Hnz in Hl. eexists. split; [exact Hl|].
    destruct (stats m !! name) as [old|]; done.
  - intros data Hdata Hz. rewrite Hdata, Hz in Hl. done.
  - intros Hnone old Hold. rewrite Hnone, Hold in Hl. rewrite Hl.
    unfold reset_idle. rewrite Hnone. done.
  - intros [old Hold]. rewrite Hl, Hold.
    destruct (processes !! name) as [data|]; [|done].
    destruct (zero_delta data); done.
Qed.

Lemma collect_updates_each_entry_witness :
  exists stat,
    stats (collect range_canonical scenario_second (t0 + UPDATE_INTERVAL) seen_once).1
      !! "A.exe"%string = Some stat
    /\ LastUpdate stat = t0 + UPDATE_INTERVAL
    /\ TotalUpload stat = 2300 /\ TotalDownload stat = 4500.
Proof.
  assert (Hok : getNetworkProcesses range_canonical scenario_second
                = Ok {[ "A.exe"%string :=
                        {| processID := 100; uploadBytes := 1300; downloadBytes := 2500 |} ]})
    by (vm_compute; reflexivity).
  destruct (collect_updates_each_entry range_canonical scenario_second
              (t0 + UPDATE_INTERVAL) seen_once _ "A.exe"
              range_canonical_ok eq_refl Hok) as [H _].
  destruct (H {| processID := 100; uploadBytes := 1300; downloadBytes := 2500 |}
              eq_refl eq_refl) as (stat & Hs & Ht & Hu & Hd).
  exists stat. split; [exact Hs|]. split; [exact Ht|].
  rewrite Hu, Hd, seen_once_stats. split; vm_compute; reflexivity.
Defined.

Lemma Unix_a_day_later (now : Time) : Unix (Add now (24 * Hour)) = Unix now + 86400.
Proof.
  unfold Unix, Add, Hour, Second.
  replace (now + 24 * (3600 * 1000000000)) with (now + 86400 * 1000000000) by lia.
  rewrite Z.div_add by lia. lia.
Qed.

Lemma collect_fold_batch (now : Time) (l : list (string * processData))
    (acc : gmap string NetworkStat * list batchRecord) :
  (fold_left (collect_step now) l acc).2 = acc.2 ++ (record_of now <$> filter active l).
Proof.
  revert acc. induction l as [|[name data] l IH]; intros acc.
  - cbn. rewrite app_nil_r. done.
  - cbn [fold_left]. rewrite IH. unfold collect_step.
    destruct ((uploadBytes data =? 0) && (downloadBytes data =? 0)) eqn:Hz.
    + apply andb_true_iff in Hz as [Hu%Z.eqb_eq Hd%Z.eqb_eq].
      rewrite filter_cons_False; [done|]. unfold active. cbn [snd]. tauto.
    + rewrite filter_cons_True.
      2:{ unfold active. cbn [snd]. intros [Hu Hd]. rewrite Hu, Hd in Hz. done. }
      cbn [snd fmap list_fmap]. rewrite <- app_assoc. cbn [app]. f_equal. f_equal.
      unfold record_of. cbn [fst snd]. rewrite Unix_a_day_later. done.
Qed.

(** X17. A sampling that succeeds appends to the batch one record for
    each application of the sampling with traffic, and none for the others:
    the record carries the bytes attributed, the Unix time of the sampling,
    an expiry 24 hours later, and is not marked temporary. *)
Theorem collect_appends_active_records (rng : range_order) (os : system) (now : Time)
    (m : Monitor) (processes : gmap string processData) :
  range_ok rng -> paused m = false ->
  getNetworkProcesses rng os = Ok processes ->
  let entries := filter active (rng _ _ _ _ processes) in
  batch (collect rng os now m).1 = batch m ++ (record_of now <$> entries)
  /\ NoDup entries.*1
  /\ (forall name data,
        (name, data) ∈ entries
        <-> processes !! name = Some data /\ active (name, data)).
Proof.
  intros Hrng Hp Hok. cbn zeta.
  pose proof (Hrng _ _ _ _ processes) as Hperm.
  split; [|split].
  - unfold collect. rewrite Hp, Hok.
    pose proof (collect_fold_batch now (rng _ _ _ _ processes) (stats m, batch m)) as Hb.
    destruct (fold_left _ _ _) as [s1 b1]. cbn [fst snd batch] in *. done.
  - apply (NoDup_fmap_fst _). 
    + intros name d1 d2 [_ H1]%list_elem_of_filter [_ H2]%list_elem_of_filter.
      rewrite Hperm in H1, H2. apply elem_of_map_to_list in H1, H2. congruence.
    + apply NoDup_filter. rewrite Hperm. apply NoDup_map_to_list.
  - intros name data. rewrite list_elem_of_filter, Hperm, elem_of_map_to_list. tauto.
Qed.

Lemma collect_appends_active_records_witness :
  batch (collect range_canonical scenario_first t0 (New None)).1
  = [ {| appName := "A.exe"; recProcessID := 100; upload := 1000; download := 2000;
         timestamp := Unix t0; isTemporary := false; expiresAt := Unix t0 + 86400 |} ].
Proof.
  assert (Hok : getNetworkProcesses range_canonical scenario_first
                = Ok {[ "A.exe"%string :=
                        {| processID := 100; uploadBytes := 1000; downloadBytes := 2000 |} ]})
    by (vm_compute; reflexivity).
  destruct (collect_appends_active_records range_canonical scenario_first t0 (New None) _
              range_canonical_ok eq_refl Hok) as [H _].
  rewrite H. vm_compute. reflexivity.
Defined.

Lemma batch_sum (f : batchRecord -> Z) (recs : list batchRecord) (total : Z) :
  Forall (fun rec => 0 <= f rec) recs -> 0 <= total ->
  total + sumZ (f <$> recs) <= Int64.int64_max ->
  fold_left (fun total rec => Int64.add64 total (f rec)) recs total
  = total + sumZ (f <$> recs).
Proof.
  intros Hall. revert total. induction Hall as [|rec recs Hrec Hall IH]; intros total H0 Hmax.
  - cbn. lia.
  - cbn [fold_left fmap list_fmap] in *. rewrite sumZ_cons in *.
    assert (Hs : 0 <= sumZ (f <$> recs)).
    { clear -Hall. induction Hall as [|r rs ? _ IH]; [done|].
      cbn [fmap list_fmap]. rewrite sumZ_cons. lia. }
    unfold Int64.add64. rewrite SamplingFacts.wrap64_id.
    + rewrite IH by lia. lia.
    + unfold Int64.in_int64, Int64.int64_min, Int64.int64_max in *. lia.
Qed.

(** X18. The totals that a flush adds to the daily summary are the sums
    of the bytes of the records of the batch, as long as these are not
    negative and their sums are int64 numbers. *)
Theorem batch_totals_are_sums (recs : list batchRecord) :
  Forall (fun rec => 0 <= upload rec /\ 0 <= download rec) recs ->
  sumZ (upload <$> recs) <= Int64.int64_max ->
  sumZ (download <$> recs) <= Int64.int64_max ->
  batch_upload recs = sumZ (upload <$> recs)
  /\ batch_download recs = sumZ (download <$> recs)
  /\ sumZ (upload <$> recs) = sumZ (Database.UploadBytes <$> rows_of 0 recs)
  /\ sumZ (download <$> recs) = sumZ (Database.DownloadBytes <$> rows_of 0 recs).
Proof.
  intros Hall Hu Hd. unfold batch_upload, batch_download.
  rewrite (batch_sum upload), (batch_sum download); try lia.
  - split; [lia|]. split; [lia|]. unfold rows_of.
    split; f_equal; rewrite fmap_imap; clear; generalize 0;
      induction recs as [|rec recs IH]; intros k; try done;
      cbn [fmap list_fmap imap]; f_equal;
      rewrite (IH (k + 1)); apply imap_ext; intros i x _; cbn; done.
  - eapply Forall_impl; [exact Hall|]. cbn. intros rec [_ ?]. done.
  - eapply Forall_impl; [exact Hall|]. cbn. intros rec [? _]. done.
Qed.

Lemma batch_totals_are_sums_witness :
  batch_upload [pending; pending] = 20 /\ batch_download [pending; pending] = 40.
Proof.
  destruct (batch_totals_are_sums [pending; pending]) as (Hu & Hd & _).
  - repeat constructor; cbn; lia.
  - vm_compute. discriminate.
  - vm_compute. discriminate.
  - rewrite Hu, Hd. split; reflexivity.
Defined.

(** The store after a flush whose transaction succeeds. *)
Lemma flushBatch_success (rng : range_order) (env : storage) (now : Z) (today : string)
    (m : Monitor) (store : Database.DB) :
  saveEnabled m = true -> db m = Some store -> batch m <> [] ->
  (Database.BatchInsertUsageRecords (st_disk env) (st_batch_fault env) store
     (to_usage_record <$> batch m)).2 = None ->
  flushBatch rng env now today m
  = set_batch_db m []
      (Some (Database.UpdateDailySummary (st_summary_fault env)
               (fold_left
                  (fun s entry =>
                     (Database.UpsertAppMetadata (st_meta_fault env entry.1) s entry.2).1)
                  (rng _ _ _ _ (batch_metadata now (batch m)))
                  (fold_left Database.insert_row (to_usage_record <$> batch m) store))
               today (batch_upload (batch m)) (batch_download (batch m))).1).
Proof.
  intros Hon Hdb Hne Hins. unfold flushBatch. rewrite Hon, Hdb. cbn [negb].
  destruct (batch m) as [|rec recs] eqn:Hb; [done|].
  unfold Database.BatchInsertUsageRecords in *.
  cbn [fmap list_fmap] in *.
  destruct (if (100 <? length _)%nat then _ else None) as [e|]; [done|].
  destruct (st_batch_fault env) as [e|]; [done|].
  done.
Qed.

Lemma upserts_frame (env : storage)
    (entries : list (string * Database.AppMetadata)) (store : Database.DB) :
  let store' :=
    fold_left
      (fun s entry =>
         (Database.UpsertAppMetadata (st_meta_fault env entry.1) s entry.2).1)
      entries store in
  Database.usage_records store' = Database.usage_records store
  /\ Database.usage_seq store' = Database.usage_seq store
  /\ Database.settings store' = Database.settings store.
Proof.
  cbn zeta. revert store. induction entries as [|e entries IH]; intros store; [done|].
  cbn [fold_left].
  destruct (IH (Database.UpsertAppMetadata (st_meta_fault env e.1) store e.2).1)
    as (-> & -> & ->).
  unfold Database.UpsertAppMetadata. destruct (st_meta_fault env e.1); done.
Qed.

Lemma update_summary_frame (fault : option error) (store : Database.DB) (date : string)
    (u d : Z) :
  let store' := (Database.UpdateDailySummary fault store date u d).1 in
  Database.usage_records store' = Database.usage_records store
  /\ Database.usage_seq store' = Database.usage_seq store
  /\ Database.app_metadata store' = Database.app_metadata store
  /\ Database.settings store' = Database.settings store
  /\ (fault <> None -> store' = store).
Proof.
  cbn zeta. unfold Database.UpdateDailySummary.
  destruct fault; [done|]. destruct (Database.daily_summaries store !! date); done.
Qed.

(** X19. [flushBatch] leaves an empty batch in every case, also when the
    rows could not be written: a batch whose transaction fails is dropped,
    with the store as it was. The statistics and the flags are not
    touched. *)
Theorem flush_always_empties_batch (rng : range_order) (env : storage) (now : Z)
    (today : string) (m : Monitor) :
  batch (flushBatch rng env now today m) = []
  /\ stats (flushBatch rng env now today m) = stats m
  /\ paused (flushBatch rng env now today m) = paused m
  /\ lastUpdate (flushBatch rng env now today m) = lastUpdate m
  /\ saveEnabled (flushBatch rng env now today m) = saveEnabled m
  /\ (forall store e,
        saveEnabled m = true -> db m = Some store ->
        (Database.BatchInsertUsageRecords (st_disk env) (st_batch_fault env) store
           (to_usage_record <$> batch m)).2 = Some e ->
        batch m <> [] /\ flushBatch rng env now today m = set_batch_db m [] (Some store))
  /\ (db m = None -> db (flushBatch rng env now today m) = None).
Proof.
  split; [|split; [|split; [|split; [|split; [|split]]]]].
  - unfold flushBatch. repeat case_match; done.
  - apply flushBatch_stats.
  - unfold flushBatch. repeat case_match; done.
  - unfold flushBatch. repeat case_match; done.
  - unfold flushBatch. repeat case_match; done.
  - intros store e Hon Hdb Hins.
    destruct (batch m) as [|rec recs] eqn:Hb; [done|]. split; [done|].
    unfold flushBatch. rewrite Hon, Hdb, Hb. cbn [negb].
    destruct (Database.BatchInsertUsageRecords _ _ _ _) as [s1 [e1|]]; done.
  - intros Hdb. unfold flushBatch. rewrite Hdb. repeat case_match; done.
Qed.

(** The tables after a flush whose transaction succeeds. *)
Lemma flushBatch_rows (rng : range_order) (env : storage) (now : Z)
    (today : string) (m : Monitor) (store : Database.DB) :
  saveEnabled m = true -> db m = Some store -> batch m <> [] ->
  (Database.BatchInsertUsageRecords (st_disk env) (st_batch_fault env) store
     (to_usage_record <$> batch m)).2 = None ->
  exists store',
    db (flushBatch rng env now today m) = Some store'
    /\ Database.usage_records store'
       = Database.usage_records store ++ rows_of (Database.usage_seq store) (batch m)
    /\ Database.settings store' = Database.settings store
    /\ (st_summary_fault env <> None ->
        Database.daily_summaries store' = Database.daily_summaries store).
Proof.
  intros Hon Hdb Hne Hins.
  rewrite (flushBatch_success rng env now today m store Hon Hdb Hne Hins).
  eexists. split; [reflexivity|].
  match goal with
  | |- context [Database.UpdateDailySummary ?f (fold_left ?g ?entries ?s1) today ?u ?d] =>
      destruct (update_summary_frame f (fold_left g entries s1) today u d)
        as (Hu3 & _ & _ & Ht3 & Hf3);
      destruct (upserts_frame env entries s1) as (Hu2 & _ & Ht2);
      pose proof (upserts_summaries env entries s1) as [Hd2 _];
      set (s2 := fold_left g entries s1) in *;
      set (s3 := (Database.UpdateDailySummary f s2 today u d).1) in *
  end.
  destruct (insert_rows (to_usage_record <$> batch m) store) as (Hu1 & _ & Hd1 & _ & _ & Ht1).
  split.
  { rewrite Hu3, Hu2, Hu1. f_equal. unfold rows_of. rewrite imap_fmap. done. }
  split; [rewrite Ht3, Ht2, Ht1; done|].
  intros Hf. rewrite (Hf3 Hf), Hd2, Hd1. done.
Qed.

(** X20. A flush whose transaction succeeds stores one usage row for each
    record of the batch, in the order of the batch and under the next ids of
    the table, whether or not the updates of the metadata and of the daily
    summary succeed after it; when the summary update fails, the summaries
    stay as they were. *)
Theorem flush_stores_every_record (rng : range_order) (env : storage) (now : Z)
    (today : string) (m : Monitor) (store : Database.DB) :
  saveEnabled m = true -> db m = Some store -> batch m <> [] ->
  (Database.BatchInsertUsageRecords (st_disk env) (st_batch_fault env) store
     (to_usage_record <$> batch m)).2 = None ->
  exists store',
    db (flushBatch rng env now today m) = Some store'
    /\ Database.usage_records store'
       = Database.usage_records store ++ rows_of (Database.usage_seq store) (batch m)
    /\ Database.GetRecordCount store'
       = Database.GetRecordCount store + Z.of_nat (length (batch m))
    /\ Database.settings store' = Database.settings store
    /\ (st_summary_fault env <> None ->
        Database.daily_summaries store' = Database.daily_summaries store).
Proof.
  intros Hon Hdb Hne Hins.
  destruct (flushBatch_rows rng env now today m store Hon Hdb Hne Hins)
    as (store' & Hs & Hrows & Hset & Hsum).
  exists store'. split; [done|]. split; [done|]. split; [|done].
  unfold Database.GetRecordCount. rewrite Hrows, length_app.
  unfold rows_of. rewrite length_imap. lia.
Qed.

Lemma flush_stores_every_record_witness :
  let m := {| db := Some Database.empty_db; stats := ∅; batch := [pending];
              paused := false; lastUpdate := t0; saveEnabled := true |} in
  exists store',
    db (flushBatch range_canonical no_faults (Unix t0) "2025-12-01" m) = Some store'
    /\ Database.usage_records store' = [Database.stored_row 0 (to_usage_record pending)]
    /\ Database.GetRecordCount store' = 1.
Proof.
  cbn zeta.
  destruct (flush_stores_every_record range_canonical no_faults (Unix t0) "2025-12-01"
              {| db := Some Database.empty_db; stats := ∅; batch := [pending];
                 paused := false; lastUpdate := t0; saveEnabled := true |}
              Database.empty_db) as (store' & H1 & H2 & H3 & _).
  - reflexivity.
  - reflexivity.
  - discriminate.
  - reflexivity.
  - exists store'. split; [exact H1|]. split; [exact H2|exact H3].
Defined.

Lemma first_record_cons (name : string) (rec : batchRecord) (recs : list batchRecord) :
  first_record name (rec :: recs)
  = if decide (appName rec = name) then Some rec else first_record name recs.
Proof.
  unfold first_record. cbn [list_find].
  destruct (decide (appName rec = name)); [done|].
  destruct (list_find _ recs) as [[i r]|]; done.
Qed.

Lemma batch_metadata_fold (now : Z) (recs : list batchRecord)
    (acc : gmap string Database.AppMetadata) (name : string) :
  fold_left
    (fun acc rec =>
       match acc !! appName rec with
       | Some _ => acc
       | None =>
           <[appName rec := {| Database.MetaAppName := appName rec;
                               Database.ExecutablePath := appName rec;
                               Database.FirstSeen := timestamp rec;
                               Database.LastSeen := now |}]> acc
       end)
    recs acc !! name
  = match acc !! name with
    | Some meta => Some meta
    | None =>
        (fun rec => {| Database.MetaAppName := name; Database.ExecutablePath := name;
                       Database.FirstSeen := timestamp rec;
                       Database.LastSeen := now |}) <$> first_record name recs
    end.
Proof.
  revert acc. induction recs as [|rec recs IH]; intros acc.
  - cbn. destruct (acc !! name); done.
  - cbn [fold_left]. rewrite IH, first_record_cons.
    destruct (acc !! appName rec) as [old|] eqn:Hold.
    + destruct (decide (appName rec = name)) as [<-|Hne]; [rewrite Hold; done|done].
    + destruct (decide (appName rec = name)) as [<-|Hne].
      * rewrite lookup_insert_eq, Hold. done.
      * rewrite lookup_insert_ne by done. done.
Qed.

Lemma batch_metadata_lookup (now : Z) (recs : list batchRecord) (name : string) :
  batch_metadata now recs !! name
  = (fun rec => {| Database.MetaAppName := name; Database.ExecutablePath := name;
                   Database.FirstSeen := timestamp rec;
                   Database.LastSeen := now |}) <$> first_record name recs.
Proof. unfold batch_metadata. rewrite batch_metadata_fold, lookup_empty. done. Qed.

Lemma upserts_miss (env : storage) (entries : list (string * Database.AppMetadata))
    (store : Database.DB) (name : string) :
  Forall (fun entry => Database.MetaAppName entry.2 <> name) entries ->
  Database.app_metadata
    (fold_left
       (fun s entry =>
          (Database.UpsertAppMetadata (st_meta_fault env entry.1) s entry.2).1)
       entries store) !! name
  = Database.app_metadata store !! name.
Proof.
  intros Hall. revert store. induction Hall as [|e entries He _ IH]; intros store; [done|].
  cbn [fold_left]. rewrite IH. unfold Database.UpsertAppMetadata.
  destruct (st_meta_fault env e.1); [done|]. cbn [fst Database.app_metadata].
  rewrite lookup_insert_ne by done. done.
Qed.

Lemma upserts_hit (env : storage) (entries : list (string * Database.AppMetadata))
    (store : Database.DB) (name : string) (metadata : Database.AppMetadata) :
  (forall key, st_meta_fault env key = None) ->
  Forall (fun entry => Database.MetaAppName entry.2 = entry.1) entries ->
  NoDup entries.*1 -> (name, metadata) ∈ entries ->
  exists meta,
    Database.app_metadata
      (fold_left
         (fun s entry =>
            (Database.UpsertAppMetadata (st_meta_fault env entry.1) s entry.2).1)
         entries store) !! name = Some meta
    /\ Database.ExecutablePath meta = Database.ExecutablePath metadata
    /\ Database.LastSeen meta = Database.LastSeen metadata
    /\ Database.FirstSeen meta
       = match Database.app_metadata store !! name with
         | Some old => Database.FirstSeen old
         | None => Database.FirstSeen metadata
         end.
Proof.
  intros Hfault Hkeys. revert store.
  induction Hkeys as [|e entries He Hkeys IH]; intros store Hnd Hin.
  { apply elem_of_nil in Hin. done. }
  cbn [fmap list_fmap] in Hnd. apply NoDup_cons in Hnd as [Hfresh Hnd].
  cbn [fold_left].
  apply elem_of_cons in Hin as [<-|Hin].
  - cbn [fst snd] in *.
    rewrite upserts_miss.
    2:{ rewrite Forall_forall in Hkeys. apply Forall_forall. intros e' Hin' Heq.
        apply Hfresh. apply list_elem_of_fmap. exists e'. split; [|done].
        rewrite <- Heq. apply (Hkeys e' Hin'). }
    unfold Database.UpsertAppMetadata. rewrite Hfault, He.
    cbn [fst Database.app_metadata]. rewrite lookup_insert_eq.
    destruct (Database.app_metadata store !! name) as [old|]; eexists; done.
  - assert (Hne : Database.MetaAppName e.2 <> name).
    { rewrite He. intros Heq. apply Hfresh. rewrite Heq.
      apply list_elem_of_fmap. exists (name, metadata). done. }
    destruct (IH (Database.UpsertAppMetadata (st_meta_fault env e.1) store e.2).1 Hnd Hin)
      as (meta & Hm & Hp & Hl & Hf).
    exists meta. split; [done|]. split; [done|]. split; [done|].
    rewrite Hf. unfold Database.UpsertAppMetadata. rewrite Hfault.
    cbn [fst Database.app_metadata]. rewrite lookup_insert_ne by done. done.
Qed.

(** X21. After a flush whose writes succeed, every application of the
    batch has a metadata row whose path is its name and whose last_seen is
    the time of the flush; its first_seen is the one it had, or for a new
    application the time of its first record in the batch. The rows of other
    applications are as before. The order in which the map of the batch is
    visited does not matter. *)
Theorem flush_records_metadata (rng : range_order) (env : storage) (now : Z)
    (today : string) (m : Monitor) (store : Database.DB) :
  range_ok rng ->
  saveEnabled m = true -> db m = Some store -> batch m <> [] ->
  (Database.BatchInsertUsageRecords (st_disk env) (st_batch_fault env) store
     (to_usage_record <$> batch m)).2 = None ->
  (forall name, st_meta_fault env name = None) ->
  exists store',
    db (flushBatch rng env now today m) = Some store'
    /\ (forall name rec,
          first_record name (batch m) = Some rec ->
          exists meta,
            Database.app_metadata store' !! name = Some meta
            /\ Database.ExecutablePath meta = name
            /\ Database.LastSeen meta = now
            /\ Database.FirstSeen meta
               = match Database.app_metadata store !! name with
                 | Some old => Database.FirstSeen old
                 | None => timestamp rec
                 end)
    /\ (forall name,
          first_record name (batch m) = None ->
          Database.app_metadata store' !! name = Database.app_metadata store !! name).
Proof.
  intros Hrng Hon Hdb Hne Hins Hfault.
  rewrite (flushBatch_success rng env now today m store Hon Hdb Hne Hins).
  eexists. split; [reflexivity|].
  pose proof (Hrng _ _ _ _ (batch_metadata now (batch m))) as Hperm.
  set (entries := rng _ _ _ _ (batch_metadata now (batch m))) in *.
  set (s1 := fold_left Database.insert_row (to_usage_record <$> batch m) store).
  assert (Hs1 : Database.app_metadata s1 = Database.app_metadata store).
  { destruct (insert_rows (to_usage_record <$> batch m) store) as (_ & _ & _ & _ & H & _).
    exact H. }
  assert (Hentry : forall name metadata,
            (name, metadata) ∈ entries
            <-> exists rec, first_record name (batch m) = Some rec
                  /\ metadata = {| Database.MetaAppName := name;
                                   Database.ExecutablePath := name;
                                   Database.FirstSeen := timestamp rec;
                                   Database.LastSeen := now |}).
  { intros name metadata. rewrite Hperm, elem_of_map_to_list, batch_metadata_lookup.
    destruct (first_record name (batch m)) as [rec|]; cbn.
    - split; [intros [= <-]; eexists; done|intros (r & [= <-] & ->); done].
    - split; [done|intros (r & ? & _); done]. }
  assert (Hkeys : Forall (fun entry => Database.MetaAppName entry.2 = entry.1) entries).
  { apply Forall_forall. intros [name metadata] Hin.
    apply Hentry in Hin as (rec & _ & ->). done. }
  assert (Hnd : NoDup entries.*1).
  { rewrite Hperm. apply NoDup_fst_map_to_list. }
  split.
  - intros name rec Hfirst.
    destruct (update_summary_frame (st_summary_fault env)
                (fold_left
                   (fun s entry =>
                      (Database.UpsertAppMetadata (st_meta_fault env entry.1) s entry.2).1)
                   entries s1)
                today (batch_upload (batch m)) (batch_download (batch m)))
      as (_ & _ & -> & _).
    destruct (upserts_hit env entries s1 name
                {| Database.MetaAppName := name; Database.ExecutablePath := name;
                   Database.FirstSeen := timestamp rec; Database.LastSeen := now |}
                Hfault Hkeys Hnd) as (meta & Hm & Hp & Hl & Hf).
    { apply Hentry. exists rec. done. }
    exists meta. rewrite Hs1 in Hf. done.
  - intros name Hnone.
    destruct (update_summary_frame (st_summary_fault env)
                (fold_left
                   (fun s entry =>
                      (Database.UpsertAppMetadata (st_meta_fault env entry.1) s entry.2).1)
                   entries s1)
                today (batch_upload (batch m)) (batch_download (batch m)))
      as (_ & _ & -> & _).
    rewrite upserts_miss, Hs1; [done|].
    apply Forall_forall. intros [key metadata] Hin.
    apply Hentry in Hin as (rec & Hrec & ->). cbn. intros ->. congruence.
Qed.

Lemma flush_records_metadata_witness :
  let m := {| db := Some Database.empty_db; stats := ∅; batch := [pending];
              paused := false; lastUpdate := t0; saveEnabled := true |} in
  exists store' meta,
    db (flushBatch range_canonical no_faults (Unix t0 + 10) "2025-12-01" m) = Some store'
    /\ Database.app_metadata store' !! "app.exe"%string = Some meta
    /\ Database.ExecutablePath meta = "app.exe"%string
    /\ Database.LastSeen meta = Unix t0 + 10
    /\ Database.FirstSeen meta = Unix t0.
Proof.
  cbn zeta.
  destruct (flush_records_metadata range_canonical no_faults (Unix t0 + 10) "2025-12-01"
              {| db := Some Database.empty_db; stats := ∅; batch := [pending];
                 paused := false; lastUpdate := t0; saveEnabled := true |}
              Database.empty_db) as (store' & H1 & H2 & _).
  - apply range_canonical_ok.
  - reflexivity.
  - reflexivity.
  - discriminate.
  - reflexivity.
  - reflexivity.
  - destruct (H2 "app.exe"%string pending eq_refl) as (meta & Hm & Hp & Hl & Hf).
    exists store', meta. split; [exact H1|]. split; [exact Hm|].
    split; [exact Hp|]. split; [exact Hl|exact Hf].
Defined.

End EngineFacts.

(** ** The application *)

Module AppFacts.
Import GoTime Counter Monitor Attribution Lifetime Batch.
Import CounterFacts MonitorFacts StoreFacts EngineFacts.

Lemma today_stats_totals (scan_error : string -> Float64.f64 -> error)
    (store : Database.DB) (today : string) (summary : Database.DailySummary) :
  Database.GetDailySummary scan_error None store today = Ok summary ->
  App.GetTodayStats scan_error None store today
  = {[ "upload"%string := Database.TotalUpload summary;
       "download"%string := Database.TotalDownload summary ]}.
Proof. intros Hs. unfold App.GetTodayStats. rewrite Hs. done. Qed.

(** X22. After a flush that writes its rows and the summary, the figures
    of [GetTodayStats] for the day of the flush are those of the summary
    read before plus the totals of the batch, as long as these sums are
    int64 values; the figures of other days are unchanged. A summary that
    cannot be read is shown as zero traffic. *)
Theorem today_stats_after_flush (scan_error : string -> Float64.f64 -> error)
    (rng : range_order) (env : storage) (now : Z) (today : string) (m : Monitor)
    (store : Database.DB) (before : Database.DailySummary) :
  saveEnabled m = true -> db m = Some store -> batch m <> [] ->
  (Database.BatchInsertUsageRecords (st_disk env) (st_batch_fault env) store
     (to_usage_record <$> batch m)).2 = None ->
  st_summary_fault env = None ->
  Database.GetDailySummary scan_error None store today = Ok before ->
  Int64.in_int64 (Database.TotalUpload before + batch_upload (batch m)) ->
  Int64.in_int64 (Database.TotalDownload before + batch_download (batch m)) ->
  exists store',
    db (flushBatch rng env now today m) = Some store'
    /\ App.GetTodayStats scan_error None store today
       = {[ "upload"%string := Database.TotalUpload before;
            "download"%string := Database.TotalDownload before ]}
    /\ App.GetTodayStats scan_error None store' today
       = {[ "upload"%string := Database.TotalUpload before + batch_upload (batch m);
            "download"%string := Database.TotalDownload before + batch_download (batch m) ]}
    /\ (forall other, other <> today ->
          App.GetTodayStats scan_error None store' other
          = App.GetTodayStats scan_error None store other)
    /\ (forall fault date e,
          Database.GetDailySummary scan_error fault store' date = Err e ->
          App.GetTodayStats scan_error fault store' date
          = {[ "upload"%string := 0; "download"%string := 0 ]}).
Proof.
  intros Hon Hdb Hne Hins Hsum Hbefore Hup Hdown.
  destruct (flush_adds_batch_totals rng env now today m store Hon Hdb Hne Hins Hsum)
    as (store' & Hs & _ & Hrows).
  exists store'. split; [done|].
  split; [apply today_stats_totals; done|].
  split; [|split].
  - unfold App.GetTodayStats, Database.GetDailySummary. rewrite Hrows.
    unfold Database.GetDailySummary in Hbefore. unfold Database.UpdateDailySummary.
    destruct (Database.daily_summaries store !! today) as [row|];
      cbn [fst Database.daily_summaries]; rewrite lookup_insert_eq.
    + apply DatabaseFacts.scan_summary_Ok in Hbefore as (Hu & Hd & _).
      unfold Database.scan_summary.
      cbn [fst snd Database.total_upload Database.total_download].
      rewrite Hu, Hd, !DatabaseFacts.sql_add_within_int64 by done. done.
    + injection Hbefore as <-. cbn. rewrite !Z.add_0_l. done.
  - intros other Hother. unfold App.GetTodayStats, Database.GetDailySummary.
    rewrite Hrows. unfold Database.UpdateDailySummary.
    destruct (Database.daily_summaries store !! today) as [row|];
      cbn [fst Database.daily_summaries]; rewrite lookup_insert_ne by done; done.
  - intros fault date e He. unfold App.GetTodayStats. rewrite He. done.
Qed.

Lemma today_stats_after_flush_witness :
  let m := {| db := Some Database.empty_db; stats := ∅; batch := [pending];
              paused := false; lastUpdate := t0; saveEnabled := true |} in
  exists store',
    db (flushBatch range_canonical no_faults (Unix t0) "2025-12-01" m) = Some store'
    /\ App.GetTodayStats Summaries.column_error None store' "2025-12-01"
       = {[ "upload"%string := 10; "download"%string := 20 ]}.
Proof.
  cbn zeta.
  destruct (today_stats_after_flush Summaries.column_error range_canonical no_faults
              (Unix t0) "2025-12-01"
              {| db := Some Database.empty_db; stats := ∅; batch := [pending];
                 paused := false; lastUpdate := t0; saveEnabled := true |}
              Database.empty_db
              {| Database.SummaryID := 0; Database.Date := "2025-12-01";
                 Database.TotalUpload := 0; Database.TotalDownload := 0 |})
    as (store' & H1 & _ & H2 & _).
  - reflexivity.
  - reflexivity.
  - discriminate.
  - reflexivity.
  - reflexivity.
  - reflexivity.
  - vm_compute. split; discriminate.
  - vm_compute. split; discriminate.
  - exists store'. split; [exact H1|]. rewrite H2. reflexivity.
Defined.

(** A flush that takes the total of the day beyond int64: the day had
    2^63 - 10 uploaded bytes, the batch adds 10, and the figures of the day
    read as zero traffic from then on. *)
Lemma today_stats_after_overflow :
  let store := (Database.UpdateDailySummary None Database.empty_db
                  "2025-12-01" (2 ^ 63 - 10) 0).1 in
  let m := {| db := Some store; stats := ∅; batch := [pending];
              paused := false; lastUpdate := t0; saveEnabled := true |} in
  App.GetTodayStats Summaries.column_error None store "2025-12-01"
  = {[ "upload"%string := 2 ^ 63 - 10; "download"%string := 0 ]}
  /\ exists store',
       db (flushBatch range_canonical no_faults (Unix t0) "2025-12-01" m) = Some store'
       /\ Database.daily_summaries store' !! "2025-12-01"
          = Some {| Database.row_id := 1;
                    Database.total_upload :=
                      Database.Real (Float64.f64_of_int64 (2 ^ 63));
                    Database.total_download := Database.Integer 20 |}
       /\ App.GetTodayStats Summaries.column_error None store' "2025-12-01"
          = {[ "upload"%string := 0; "download"%string := 0 ]}.
Proof.
  cbn zeta. split; [vm_compute; reflexivity|].
  eexists. split; [vm_compute; reflexivity|].
  assert (Hrow : forall store' row,
            Database.daily_summaries store' !! "2025-12-01"%string = Some row ->
            Database.total_upload row = Database.Real (Float64.f64_of_int64 (2 ^ 63)) ->
            App.GetTodayStats Summaries.column_error None store' "2025-12-01"
            = {[ "upload"%string := 0; "download"%string := 0 ]}).
  { intros store' row Hlookup Hreal.
    unfold App.GetTodayStats, Database.GetDailySummary, Database.scan_summary.
    rewrite Hlookup. cbn [fst snd]. rewrite Hreal. done. }
  split; [vm_compute; reflexivity|].
  eapply Hrow; vm_compute; reflexivity.
Qed.

(** X23. [ClearOldData] leaves no usage row and no daily summary: the
    count of records and the oldest timestamp read 0, every day reads as
    zero traffic and the history is empty, while the settings and the
    metadata of the applications stay. The two DELETEs and the VACUUM are
    separate statements: when a later one fails, the earlier ones have
    taken effect. *)
Theorem clear_old_data_empties_history (db : Database.DB) :
  (let out := App.ClearOldData None None None db in
   out.2 = None
   /\ Database.GetRecordCount out.1 = 0
   /\ Database.GetOldestRecord None out.1 = (0, None)
   /\ (forall scan_error date,
         Database.GetDailySummary scan_error None out.1 date
         = Ok {| Database.SummaryID := 0; Database.Date := date;
                 Database.TotalUpload := 0; Database.TotalDownload := 0 |})
   /\ (forall scan_error date,
         App.GetTodayStats scan_error None out.1 date
         = {[ "upload"%string := 0; "download"%string := 0 ]})
   /\ (forall scan_error days, App.GetHistoricalData scan_error None None out.1 days = [])
   /\ (forall key, Database.GetSetting None out.1 key = Database.GetSetting None db key)
   /\ (forall name,
         Database.GetAppMetadata None out.1 name = Database.GetAppMetadata None db name))
  /\ (forall e fault,
        let out := App.ClearOldData None (Some e) fault db in
        out.2 = Some ("failed to clear daily summaries: " +:+ e)
        /\ Database.usage_records out.1 = []
        /\ Database.daily_summaries out.1 = Database.daily_summaries db)
  /\ (forall e,
        let out := App.ClearOldData None None (Some e) db in
        out.2 = Some ("failed to vacuum database: " +:+ e)
        /\ Database.usage_records out.1 = []
        /\ Database.daily_summaries out.1 = ∅)
  /\ (forall e fault fault',
        App.ClearOldData (Some e) fault fault' db
        = (db, Some ("failed to clear usage records: " +:+ e))).
Proof.
  split; [|split; [|split]]; [|done..].
  cbn zeta. unfold App.ClearOldData, Database.ClearAllData, Database.Vacuum.
  cbn [fst snd].
  split; [done|]. split; [done|]. split; [done|].
  split; [intros scan_error date; unfold Database.GetDailySummary; cbn;
          rewrite lookup_empty; done|].
  split.
  { intros scan_error date. unfold App.GetTodayStats, Database.GetDailySummary. cbn.
    rewrite lookup_empty. done. }
  split.
  { intros scan_error days. unfold App.GetHistoricalData, Database.GetRecentSummaries.
    cbn [Database.daily_summaries Database.set_daily_summaries].
    rewrite map_to_list_empty. unfold Database.limit.
    destruct (days <? 0); [done|]. cbn. rewrite take_nil. done. }
  split; done.
Qed.

Lemma doCleanup_usage (hk : App.housekeeping) (retention : Z) (now now' : Time)
    (s s' : Database.DB) :
  Database.usage_records (Database.DeleteExpiredRecords (App.hk_expire_fault hk) now s).1
  = Database.usage_records (Database.DeleteExpiredRecords (App.hk_expire_fault hk) now s').1 ->
  Database.usage_records (App.doCleanup hk retention now now' s)
  = Database.usage_records (App.doCleanup hk retention now now' s').
Proof.
  intros H. unfold App.doCleanup, Database.DeleteOldRecords.
  destruct (retention =? 0).
  - destruct (App.hk_usage_fault hk); [done|].
    destruct (App.hk_summary_fault hk); cbn; rewrite H; done.
  - destruct (0 <? retention); [|done].
    destruct (App.hk_usage_fault hk); [done|].
    destruct (App.hk_summary_fault hk); cbn; rewrite H; done.
Qed.

Lemma rows_of_expired (now : Time) (seq : Z) (recs : list batchRecord) :
  Forall (fun rec => 0 < expiresAt rec < Unix now) recs ->
  filter (fun r => ¬ (0 < Database.ExpiresAt r /\ Database.ExpiresAt r < Unix now))
    (rows_of seq recs) = [].
Proof.
  intros Hall. unfold rows_of. revert seq.
  induction Hall as [|rec recs Hrec _ IH]; intros seq; [done|].
  cbn [imap]. rewrite filter_cons_False.
  2:{ cbn. intros Hk. apply Hk. lia. }
  rewrite <- (IH (seq + 1)). f_equal. apply imap_ext. intros i x _. cbn. f_equal. lia.
Qed.

(** X24. Whatever the retention setting, the usage rows that the monitor
    writes do not outlive their expiry, which [collect] sets 24 hours after
    the sampling: once a cleanup runs after it, the table holds what it
    would hold had the sampling not been stored. *)
Theorem sampled_rows_expire_in_a_day (rng : range_order) (os : system) (env : storage)
    (hk : App.housekeeping) (retention : Z) (t now now' : Time) (nowU : Z)
    (today : string) (m : Monitor) (store : Database.DB) :
  saveEnabled m = true -> db m = Some store ->
  Forall (fun rec => 0 < expiresAt rec < Unix now) (batch m) ->
  App.hk_expire_fault hk = None ->
  0 < Unix t + 86400 < Unix now ->
  exists store',
    db (flushBatch rng env nowU today (collect rng os t m).1) = Some store'
    /\ Database.usage_records (App.doCleanup hk retention now now' store')
       = Database.usage_records (App.doCleanup hk retention now now' store).
Proof.
  intros Hon Hdb Hold Hexp Hlate.
  set (m1 := (collect rng os t m).1).
  assert (Hm1 : saveEnabled m1 = true /\ db m1 = Some store
                /\ Forall (fun rec => 0 < expiresAt rec < Unix now) (batch m1)).
  { unfold m1, collect. destruct (paused m); [done|].
    destruct (getNetworkProcesses rng os) as [processes|e]; [|done].
    pose proof (collect_fold_batch t (rng _ _ _ _ processes) (stats m, batch m)) as Hb.
    destruct (fold_left _ _ _) as [s1 b1]. cbn [fst snd saveEnabled db batch] in *.
    split; [done|]. split; [done|]. rewrite Hb. apply Forall_app. split; [done|].
    apply Forall_fmap, Forall_forall. intros entry _. cbn. lia. }
  destruct Hm1 as (Hon1 & Hdb1 & Hall).
  destruct (batch m1) as [|rec recs] eqn:Hb1.
  { exists store. unfold flushBatch. rewrite Hon1, Hb1. cbn [negb]. done. }
  destruct (Database.BatchInsertUsageRecords (st_disk env) (st_batch_fault env) store
              (to_usage_record <$> batch m1)) as [s1 [e|]] eqn:Hins.
  { exists store. split; [|done]. unfold flushBatch.
    rewrite Hon1, Hdb1, Hb1. cbn [negb]. rewrite Hb1 in Hins. rewrite Hins. done. }
  destruct (flushBatch_rows rng env nowU today m1 store Hon1 Hdb1) as (store' & Hs & Hrows & _).
  { rewrite Hb1. done. }
  { rewrite Hins. done. }
  exists store'. split; [done|].
  apply doCleanup_usage. rewrite Hexp. unfold Database.DeleteExpiredRecords.
  cbn [fst Database.usage_records Database.set_usage_records].
  rewrite Hrows, filter_app, rows_of_expired, app_nil_r; [done|].
  rewrite Hb1. done.
Qed.

Lemma sampled_rows_expire_in_a_day_witness :
  let hk := {| App.hk_expire_fault := None; App.hk_usage_fault := None;
               App.hk_summary_fault := None;
               App.hk_date_of := fun _ => "2025-11-30"%string;
               App.hk_AddDate := fun now days => now + days * (24 * Hour) |} in
  exists store',
    db (flushBatch range_canonical no_faults (Unix t0) "2025-11-29"
          (collect range_canonical scenario_first t0 (New (Some Database.empty_db))).1)
    = Some store'
    /\ Database.usage_records
         (App.doCleanup hk (-1) (t0 + 25 * Hour) (t0 + 25 * Hour) store') = [].
Proof.
  cbn zeta.
  apply (sampled_rows_expire_in_a_day range_canonical scenario_first no_faults
           {| App.hk_expire_fault := None; App.hk_usage_fault := None;
              App.hk_summary_fault := None;
              App.hk_date_of := fun _ => "2025-11-30"%string;
              App.hk_AddDate := fun now days => now + days * (24 * Hour) |}
           (-1) t0 (t0 + 25 * Hour) (t0 + 25 * Hour) (Unix t0) "2025-11-29"
           (New (Some Database.empty_db)) Database.empty_db).
  - reflexivity.
  - reflexivity.
  - constructor.
  - reflexivity.
  - vm_compute. split; reflexivity.
Defined.

End AppFacts.

(** ** The configuration *)

Module ConfigFacts.
Import Database Utils Settings.

(** Reading back the digits that [Itoa] writes. *)
Ltac digit_value :=
  cbn [digits];
  match goal with
  | |- context [digit ?c] =>
      let v := eval vm_compute in (digit c) in change (digit c) with v
  end.

Lemma digits_of_uint_acc (d : Decimal.uint) (acc : positive) :
  digits (NilEmpty.string_of_uint d) (Zpos acc) = Some (Zpos (Pos.of_uint_acc d acc)).
Proof.
  revert acc. induction d as [|d IH|d IH|d IH|d IH|d IH|d IH|d IH|d IH|d IH|d IH];
    intros acc; cbn [NilEmpty.string_of_uint Pos.of_uint_acc]; [done|..];
    rewrite <- IH; digit_value; f_equal; lia.
Qed.

Lemma digits_of_uint (d : Decimal.uint) :
  digits (NilEmpty.string_of_uint d) 0 = Some (Z.of_N (Pos.of_uint d)).
Proof.
  induction d as [|d IH|d IH|d IH|d IH|d IH|d IH|d IH|d IH|d IH|d IH];
    cbn [NilEmpty.string_of_uint Pos.of_uint]; [done|digit_value; exact IH|..];
    cbn [Z.of_N]; rewrite <- digits_of_uint_acc; digit_value; done.
Qed.

Lemma to_uint_string (p : positive) :
  exists c rest,
    NilZero.string_of_uint (Pos.to_uint p) = String c rest
    /\ c <> "-"%char /\ c <> "+"%char
    /\ digits (String c rest) 0 = Some (Zpos p).
Proof.
  pose proof (DecimalPos.Unsigned.of_to p) as Hof.
  pose proof (digits_of_uint (Pos.to_uint p)) as Hd. rewrite Hof in Hd.
  destruct (Pos.to_uint p) as [|d|d|d|d|d|d|d|d|d|d] eqn:Hp; [done|..];
    cbn [NilZero.string_of_uint NilEmpty.string_of_uint] in *;
    eexists _, _; (split; [reflexivity|]); (split; [done|]); (split; [done|]); exact Hd.
Qed.

Lemma Atoi_Itoa (n : Z) : Int64.in_int64 n -> Atoi (Itoa n) = Some n.
Proof.
  intros [Hlo Hhi]. unfold Itoa. destruct n as [|p|p]; [done|..].
  - cbn [Z.to_int NilZero.string_of_int].
    destruct (to_uint_string p) as (c & rest & -> & Hm & Hp & Hd).
    unfold Atoi.
    assert (E : match String c rest with
                | String "-"%char rest0 => (true, rest0)
                | String "+"%char rest0 => (false, rest0)
                | _ => (false, String c rest)
                end = (false, String c rest)).
    { destruct c as [[] [] [] [] [] [] [] []]; done. }
    rewrite E, Hd.
    destruct (Int64.int64_min <=? Z.pos p) eqn:H1; [|apply Z.leb_gt in H1; lia].
    destruct (Z.pos p <=? Int64.int64_max) eqn:H2; [|apply Z.leb_gt in H2; lia].
    done.
  - cbn [Z.to_int NilZero.string_of_int].
    destruct (to_uint_string p) as (c & rest & -> & Hm & Hp & Hd).
    unfold Atoi. rewrite Hd.
    change (- Z.pos p) with (Z.neg p).
    destruct (Int64.int64_min <=? Z.neg p) eqn:H1; [|apply Z.leb_gt in H1; lia].
    destruct (Z.neg p <=? Int64.int64_max) eqn:H2; [|apply Z.leb_gt in H2; lia].
    done.
Qed.

Lemma Itoa_nonempty (n : Z) : Itoa n <> ""%string.
Proof.
  unfold Itoa. destruct n as [|p|p]; [done|..]; cbn [Z.to_int NilZero.string_of_int].
  - destruct (to_uint_string p) as (c & rest & -> & _). done.
  - done.
Qed.

Lemma Atoi_examples :
  Atoi "30" = Some 30 /\ Atoi "-2" = Some (-2) /\ Atoi "+7" = Some 7
  /\ Atoi "007" = Some 7 /\ Atoi "-0" = Some 0
  /\ Atoi "" = None /\ Atoi "-" = None /\ Atoi "3 days" = None /\ Atoi "1_000" = None
  /\ Atoi "9223372036854775807" = Some Int64.int64_max
  /\ Atoi "9223372036854775808" = None
  /\ Atoi "-9223372036854775808" = Some Int64.int64_min
  /\ Itoa 0 = "0"%string /\ Itoa 30 = "30"%string /\ Itoa (-2) = "-2"%string.
Proof. repeat split; vm_compute; reflexivity. Qed.

Lemma FormatBool_read (b : bool) :
  FormatBool b <> ""%string /\ String.eqb (FormatBool b) "true" = b.
Proof. destruct b; done. Qed.

Lemma load_step {A : Type} (faults : string -> option error) (store : DB)
    (key : string) (config : A) (f : string -> A) :
  match GetSetting (faults key) store key with
  | (val, None) => if decide (val = ""%string) then config else f val
  | _ => config
  end
  = if decide (setting_text faults store key = ""%string) then config
    else f (setting_text faults store key).
Proof.
  unfold GetSetting, setting_text. destruct (faults key); [|done].
  rewrite decide_True by done. done.
Qed.

(** The fields of a loaded configuration, each from the text of its key. *)
Lemma LoadConfig_fields (faults : string -> option error) (store : DB) :
  LoadConfig faults (Some store)
  = ({| AutoStart :=
          if decide (setting_text faults store "autoStart" = ""%string) then false
          else String.eqb (setting_text faults store "autoStart") "true";
        Theme :=
          if decide (setting_text faults store "theme" = ""%string) then "auto"%string
          else setting_text faults store "theme";
        DataRetention :=
          if decide (setting_text faults store "dataRetention" = ""%string) then 30
          else default 30 (Atoi (setting_text faults store "dataRetention"));
        NetworkInterface := setting_text faults store "networkInterface" |}, None).
Proof.
  unfold LoadConfig. cbv beta zeta. rewrite !load_step.
  destruct (decide (setting_text faults store "autoStart" = ""%string));
    destruct (decide (setting_text faults store "theme" = ""%string));
    destruct (decide (setting_text faults store "dataRetention" = ""%string));
    destruct (decide (setting_text faults store "networkInterface" = ""%string)) as [E|E];
    try rewrite E; cbn [AutoStart Theme DataRetention NetworkInterface DefaultConfig];
    try done; destruct (Atoi _); done.
Qed.

Lemma saved_settings (c : Config) (store : DB) :
  exists store',
    Save (fun _ => None) c (Some store) = (Some store', None)
    /\ settings store' = write_keys c saved_keys (settings store)
    /\ usage_records store' = usage_records store
    /\ daily_summaries store' = daily_summaries store
    /\ app_metadata store' = app_metadata store
    /\ setting_text (fun _ => None) store' "autoStart" = FormatBool (AutoStart c)
    /\ setting_text (fun _ => None) store' "theme" = Theme c
    /\ setting_text (fun _ => None) store' "dataRetention" = Itoa (DataRetention c)
    /\ setting_text (fun _ => None) store' "networkInterface" = NetworkInterface c.
Proof.
  eexists. split; [reflexivity|]. split; [reflexivity|].
  split; [reflexivity|]. split; [reflexivity|]. split; [reflexivity|].
  unfold setting_text, SetSetting, set_settings. cbn [fst snd settings].
  split; [|split; [|split]].
  - rewrite !(lookup_insert_ne _ _ "autoStart") by done. rewrite lookup_insert_eq. done.
  - rewrite !(lookup_insert_ne _ _ "theme") by done. rewrite lookup_insert_eq. done.
  - rewrite !(lookup_insert_ne _ _ "dataRetention") by done. rewrite lookup_insert_eq. done.
  - rewrite lookup_insert_eq. done.
Qed.

(** X25. A configuration that is saved is loaded again as it was, provided
    that its theme is not the empty string and its retention is an [int]. *)
Theorem config_round_trip (c : Config) (store : DB) :
  Theme c <> ""%string -> Int64.in_int64 (DataRetention c) ->
  exists store',
    Save (fun _ => None) c (Some store) = (Some store', None)
    /\ LoadConfig (fun _ => None) (Some store') = (c, None)
    /\ settings store' = write_keys c saved_keys (settings store)
    /\ usage_records store' = usage_records store
    /\ daily_summaries store' = daily_summaries store
    /\ app_metadata store' = app_metadata store.
Proof.
  intros Htheme Hret.
  destruct (saved_settings c store)
    as (store' & Hsave & Hset & Hu & Hd & Ha & Ta & Tt & Tr & Tn).
  exists store'. split; [done|]. split; [|done].
  rewrite LoadConfig_fields, Ta, Tt, Tr, Tn.
  destruct (FormatBool_read (AutoStart c)) as [Hb1 Hb2].
  pose proof (Itoa_nonempty (DataRetention c)) as Hi.
  rewrite !decide_False by done. rewrite Atoi_Itoa by done. rewrite Hb2.
  destruct c; done.
Qed.

Lemma config_round_trip_witness :
  exists store',
    Save (fun _ => None) DefaultConfig (Some empty_db) = (Some store', None)
    /\ LoadConfig (fun _ => None) (Some store') = (DefaultConfig, None).
Proof.
  destruct (config_round_trip DefaultConfig empty_db) as (store' & H1 & H2 & _).
  - cbn. done.
  - unfold Int64.in_int64, Int64.int64_min, Int64.int64_max. cbn. lia.
  - exists store'. split; [exact H1|exact H2].
Defined.

(** X26. [LoadConfig] reports no error for a store: a setting that is
    missing, empty or cannot be read leaves the default of its field, and so
    does a retention that is not a number. A theme saved as the empty string
    is loaded as "auto". *)
Theorem load_config_falls_back (faults : string -> option error) (store : DB) :
  LoadConfig faults None = (DefaultConfig, Some "invalid database interface"%string)
  /\ (LoadConfig faults (Some store)).2 = None
  /\ ((forall key, key ∈ saved_keys ->
         faults key <> None \/ default ""%string (settings store !! key) = ""%string) ->
      LoadConfig faults (Some store) = (DefaultConfig, None))
  /\ (forall val,
        settings store !! "dataRetention"%string = Some val -> Atoi val = None ->
        DataRetention (LoadConfig faults (Some store)).1 = 30)
  /\ (forall c,
        Theme c = ""%string ->
        Theme (LoadConfig (fun _ => None)
                 (Save (fun _ => None) c (Some store)).1).1 = "auto"%string).
Proof.
  split; [done|]. split; [done|]. split; [|split].
  - intros Hkeys. rewrite LoadConfig_fields.
    assert (Hget : forall key, key ∈ saved_keys -> setting_text faults store key = ""%string).
    { intros key Hin. unfold setting_text. destruct (Hkeys key Hin) as [Hf|He].
      - destruct (faults key); done.
      - destruct (faults key); done. }
    rewrite !Hget by (unfold saved_keys; repeat constructor). done.
  - intros val Hval Hbad. rewrite LoadConfig_fields. cbn [fst DataRetention].
    unfold setting_text. destruct (faults "dataRetention"%string); [done|].
    rewrite Hval. cbn [default]. unfold Datatypes.id. rewrite Hbad.
    destruct (decide (val = ""%string)); done.
  - intros c Hc. destruct (saved_settings c store) as (store' & -> & _ & _ & _ & _ & _ & Tt & _).
    cbn [fst]. rewrite LoadConfig_fields. cbn [fst Theme]. rewrite Tt, Hc. done.
Qed.

Ltac in_list H :=
  repeat (apply elem_of_cons in H as [H|H]; [subst|]);
  try (apply elem_of_nil in H; destruct H).

(** X27. [Save] is not atomic: it stops at the first write that fails
    and returns its error, with the keys before it written and the keys
    from it on left as they were. *)
Theorem save_stops_at_first_error (faults : string -> option error) (c : Config)
    (store : DB) (i : nat) (key : string) (e : error) :
  saved_keys !! i = Some key -> faults key = Some e ->
  (forall earlier, earlier ∈ take i saved_keys -> faults earlier = None) ->
  exists store',
    Save faults c (Some store) = (Some store', Some e)
    /\ settings store' = write_keys c (take i saved_keys) (settings store)
    /\ (forall later, later ∈ drop i saved_keys ->
          settings store' !! later = settings store !! later).
Proof.
  intros Hkey Hfault Hearlier. unfold saved_keys in *.
  destruct i as [|[|[|[|i]]]]; cbn in Hkey; simplify_eq; cbn [take drop] in *.
  - eexists. unfold Save, SetSetting. rewrite Hfault. split; [reflexivity|].
    split; [done|]. done.
  - eexists. unfold Save, SetSetting.
    rewrite (Hearlier "autoStart"%string) by repeat constructor. rewrite Hfault.
    split; [reflexivity|]. split; [done|].
    intros later Hin. cbn [set_settings settings].
    in_list Hin; rewrite !lookup_insert_ne by done; done.
  - eexists. unfold Save, SetSetting.
    rewrite (Hearlier "autoStart"%string), (Hearlier "theme"%string) by repeat constructor.
    rewrite Hfault. split; [reflexivity|]. split; [done|].
    intros later Hin. cbn [set_settings settings].
    in_list Hin; rewrite !lookup_insert_ne by done; done.
  - eexists. unfold Save, SetSetting.
    rewrite (Hearlier "autoStart"%string), (Hearlier "theme"%string),
      (Hearlier "dataRetention"%string) by repeat constructor.
    rewrite Hfault. split; [reflexivity|]. split; [done|].
    intros later Hin. cbn [set_settings settings].
    in_list Hin; rewrite !lookup_insert_ne by done; done.
Qed.

Lemma save_stops_at_first_error_witness :
  let faults := fun key => if String.eqb key "theme" then Some "disk I/O error"%string
                           else None in
  exists store',
    Save faults DefaultConfig (Some empty_db) = (Some store', Some "disk I/O error"%string)
    /\ settings store' = {[ "autoStart"%string := "false"%string ]}.
Proof.
  cbn zeta.
  destruct (save_stops_at_first_error
              (fun key => if String.eqb key "theme" then Some "disk I/O error"%string
                          else None)
              DefaultConfig empty_db 1 "theme" "disk I/O error")
    as (store' & H1 & H2 & _).
  - reflexivity.
  - reflexivity.
  - intros earlier Hin. cbn in Hin. apply list_elem_of_singleton in Hin. subst. reflexivity.
  - exists store'. split; [exact H1|]. rewrite H2. reflexivity.
Defined.

End ConfigFacts.

(** ** The autostart entry *)

Module AutostartFacts.
Import Autostart.



End AutostartFacts.
